(** * MaskFormer: matching costs, Hungarian matcher, loss normalisation and
      panoptic assembly

    A shallow embedding of the algorithmic core of
    [src/transformers/models/maskformer/modeling_maskformer.py].

    - In the cost functions and the matcher a dense float tensor is a shape
      together with an indexing function, and its entries are exact real
      numbers (modules [Costs], [Matcher]).
    - The loss normalisation and the panoptic assembly only compare, add,
      multiply and divide: their numbers are rationals and their images are
      lists of rows, so that they stay executable (modules [Loss],
      [Panoptic]). In the panoptic assembly the product of a probability
      and a score and the quotient of two areas are float32 results: each
      is rounded to the nearest float32, ties to even ([Panoptic.float32]).
    - Python exceptions are the [Err] case of [result].
    - Library kernels ([sigmoid], [softmax], [einsum], nearest and bilinear
      interpolation, [binary_cross_entropy_with_logits], [cross_entropy])
      are given by their mathematical definitions.
    - The losses, the criterion and the loss of the model follow in the
      modules [MaskLosses], [Criterion] and [ModelLoss]; [CriterionDicts]
      reads the dictionaries entry by entry, so that a missing key raises
      [KeyError]; the semantic segmentation head is in [Semantic].
    - The window functions of the Swin backbone work on the row-major buffer
      of a contiguous tensor, as [view] and [permute] do (modules [Swin],
      [Merging], [Block]); their exceptions are the [Raised] case of
      [outcome]. *)

From Stdlib Require Import Reals Lra Lia List ZArith QArith Bool String.
From Stdlib Require Import Permutation FinFun.
From Stdlib Require Qround.
From stdpp Require Import base gmap.
From Stdlib Require Qreals DecimalString DecimalNat.
From stdpp Require strings.
Import ListNotations.

(** ** Exceptions *)

Inductive error : Type :=
| ValueError (msg : string)
| RuntimeError (msg : string)
| IndexError
| KeyError.

Inductive result (A : Type) : Type :=
| Ok (a : A)
| Err (e : error).
Arguments Ok {A} a.
Arguments Err {A} e.

Definition rbind {A B : Type} (m : result A) (k : A -> result B) : result B :=
  match m with
  | Ok a => k a
  | Err e => Err e
  end.

Notation "'let*' x ':=' m 'in' k" := (rbind m (fun x => k))
  (at level 10, x name, m at level 100, k at level 200).

Fixpoint mapM {A B : Type} (f : A -> result B) (l : list A) : result (list B) :=
  match l with
  | [] => Ok []
  | a :: l' => let* b := f a in let* bs := mapM f l' in Ok (b :: bs)
  end.

(** ** Dense tensors: a shape and an indexing function *)

Module Tensor.

Record Tensor1 (A : Type) : Type := mkT1 { len1 : nat; get1 : nat -> A }.
Record Tensor2 (A : Type) : Type :=
  mkT2 { rows2 : nat; cols2 : nat; get2 : nat -> nat -> A }.
Record Tensor3 (A : Type) : Type :=
  mkT3 { dim3_0 : nat; dim3_1 : nat; dim3_2 : nat; get3 : nat -> nat -> nat -> A }.
Record Tensor4 (A : Type) : Type :=
  mkT4 { dim4_0 : nat; dim4_1 : nat; dim4_2 : nat; dim4_3 : nat;
         get4 : nat -> nat -> nat -> nat -> A }.

Arguments mkT1 {A}. Arguments len1 {A}. Arguments get1 {A}.
Arguments mkT2 {A}. Arguments rows2 {A}. Arguments cols2 {A}. Arguments get2 {A}.
Arguments mkT3 {A}. Arguments dim3_0 {A}. Arguments dim3_1 {A}.
Arguments dim3_2 {A}. Arguments get3 {A}.
Arguments mkT4 {A}. Arguments dim4_0 {A}. Arguments dim4_1 {A}.
Arguments dim4_2 {A}. Arguments dim4_3 {A}. Arguments get4 {A}.

(** Building tensors from literal rows (missing entries read as [d]). *)
Definition of_list {A : Type} (d : A) (l : list A) : Tensor1 A :=
  mkT1 (List.length l) (fun i => nth i l d).

Definition of_rows {A : Type} (d : A) (c : nat) (l : list (list A)) : Tensor2 A :=
  mkT2 (List.length l) c (fun i j => nth j (nth i l []) d).

Definition to_list {A : Type} (t : Tensor1 A) : list A :=
  List.map (get1 t) (seq 0 (len1 t)).

(** Iterating a tensor walks its leading dimension. *)
Definition unbind2 {A : Type} (t : Tensor2 A) : list (Tensor1 A) :=
  List.map (fun b => mkT1 (cols2 t) (get2 t b)) (seq 0 (rows2 t)).

Definition unbind3 {A : Type} (t : Tensor3 A) : list (Tensor2 A) :=
  List.map (fun b => mkT2 (dim3_1 t) (dim3_2 t) (get3 t b)) (seq 0 (dim3_0 t)).

Definition unbind4 {A : Type} (t : Tensor4 A) : list (Tensor3 A) :=
  List.map (fun b => mkT3 (dim4_1 t) (dim4_2 t) (dim4_3 t) (get4 t b))
           (seq 0 (dim4_0 t)).

(** [zip] of four iterables stops at the shortest one. *)
Fixpoint zip4 {A B C D : Type} (la : list A) (lb : list B) (lc : list C)
         (ld : list D) : list (A * B * C * D) :=
  match la, lb, lc, ld with
  | a :: la', b :: lb', c :: lc', d :: ld' => (a, b, c, d) :: zip4 la' lb' lc' ld'
  | _, _, _, _ => []
  end.

(** [rearrange(x, "q h w -> q (h w)")] *)
Definition rearrange_q_hw {A : Type} (t : Tensor3 A) : Tensor2 A :=
  mkT2 (dim3_0 t) (dim3_1 t * dim3_2 t)
       (fun q i => get3 t q (i / dim3_2 t) (i mod dim3_2 t)).

(** Broadcasting of one dimension: equal extents, or one of them is 1. *)
Definition bdim (a b : nat) : option nat :=
  if a =? b then Some a
  else if a =? 1 then Some b
  else if b =? 1 then Some a
  else None.

Definition bidx (extent i : nat) : nat := if extent =? 1 then 0 else i.

Definition broadcast2 {A B C : Type} (f : A -> B -> C)
           (x : Tensor2 A) (y : Tensor2 B) : result (Tensor2 C) :=
  match bdim (rows2 x) (rows2 y), bdim (cols2 x) (cols2 y) with
  | Some r, Some c =>
      Ok (mkT2 r c (fun i j =>
            f (get2 x (bidx (rows2 x) i) (bidx (cols2 x) j))
              (get2 y (bidx (rows2 y) i) (bidx (cols2 y) j))))
  | _, _ => Err (RuntimeError "shapes cannot be broadcast")
  end.

Definition map2d {A B : Type} (f : A -> B) (x : Tensor2 A) : Tensor2 B :=
  mkT2 (rows2 x) (cols2 x) (fun i j => f (get2 x i j)).

(** [x[:, None]] and [x[None, :]] *)
Definition unsqueeze_last {A : Type} (x : Tensor1 A) : Tensor2 A :=
  mkT2 (len1 x) 1 (fun i _ => get1 x i).

Definition unsqueeze_first {A : Type} (x : Tensor1 A) : Tensor2 A :=
  mkT2 1 (len1 x) (fun _ j => get1 x j).

End Tensor.

(** ** Pairwise cost functions (real-valued tensors) *)

Module Costs.
Import Tensor.
Local Open Scope R_scope.

(** Sum of [f 0 .. f (n-1)]. *)
Fixpoint rsum (n : nat) (f : nat -> R) : R :=
  match n with
  | O => 0
  | S k => rsum k f + f k
  end.

(** [torch.sigmoid] *)
Definition sigmoid (x : R) : R := 1 / (1 + exp (- x)).

(** [F.binary_cross_entropy_with_logits(x, z, reduction="none")],
    in the numerically stable form the library evaluates. *)
Definition binary_cross_entropy_with_logits (x z : R) : R :=
  Rmax x 0 - x * z + ln (1 + exp (- Rabs x)).

(** [x.sum(-1)] of a 2-d tensor *)
Definition sum_last (x : Tensor2 R) : Tensor1 R :=
  mkT1 (rows2 x) (fun i => rsum (cols2 x) (get2 x i)).

(** [x.flatten(1)] leaves a 2-d tensor unchanged. *)
Definition flatten1 (x : Tensor2 R) : Tensor2 R := x.

(** [torch.einsum("nc,mc->nm", a, b)]: the contracted axis must agree. *)
Definition einsum_nc_mc_nm (a b : Tensor2 R) : result (Tensor2 R) :=
  if (cols2 a =? cols2 b)%nat then
    Ok (mkT2 (rows2 a) (rows2 b)
             (fun n m => rsum (cols2 a) (fun c => get2 a n c * get2 b m c)))
  else Err (RuntimeError "einsum: operands do not broadcast").

Definition pair_wise_dice_loss (inputs labels : Tensor2 R) : result (Tensor2 R) :=
  let inputs := map2d sigmoid inputs in
  let inputs := flatten1 inputs in
  let* prod := einsum_nc_mc_nm inputs labels in
  let numerator := map2d (fun x => 2 * x) prod in
  let* denominator :=
    broadcast2 Rplus (unsqueeze_last (sum_last inputs))
                     (unsqueeze_first (sum_last labels)) in
  let* ratio :=
    broadcast2 Rdiv (map2d (fun x => x + 1) numerator)
                    (map2d (fun x => x + 1) denominator) in
  let loss := map2d (fun x => 1 - x) ratio in
  Ok loss.

Definition pair_wise_sigmoid_focal_loss (inputs labels : Tensor2 R)
           (alpha gamma : R) : result (Tensor2 R) :=
  if Rlt_dec alpha 0 then Err (ValueError "alpha must be positive")
  else
    let hw := cols2 inputs in
    let prob := map2d sigmoid inputs in
    let cross_entropy_loss_pos :=
      map2d (fun x => binary_cross_entropy_with_logits x 1) inputs in
    let* focal_pos :=
      broadcast2 Rmult (map2d (fun p => Rpower (1 - p) gamma) prob)
                 cross_entropy_loss_pos in
    let focal_pos := map2d (fun x => x * alpha) focal_pos in
    let cross_entropy_loss_neg :=
      map2d (fun x => binary_cross_entropy_with_logits x 0) inputs in
    let* focal_neg :=
      broadcast2 Rmult (map2d (fun p => Rpower p gamma) prob)
                 cross_entropy_loss_neg in
    let focal_neg := map2d (fun x => x * (1 - alpha)) focal_neg in
    let* pos := einsum_nc_mc_nm focal_pos labels in
    let* neg := einsum_nc_mc_nm focal_neg (map2d (fun y => 1 - y) labels) in
    let* loss := broadcast2 Rplus pos neg in
    Ok (map2d (fun x => x / INR hw) loss).

End Costs.

(** ** The Hungarian matcher *)

Module Matcher.
Import Tensor Costs.
Local Open Scope R_scope.

Record MaskFormerHungarianMatcher : Type :=
  { cost_class : R; cost_mask : R; cost_dice : R }.

(** [MaskFormerHungarianMatcher.__init__] *)
Definition init (cost_class cost_mask cost_dice : R)
  : result MaskFormerHungarianMatcher :=
  if Req_dec_T cost_class 0 then
    if Req_dec_T cost_mask 0 then
      if Req_dec_T cost_dice 0 then Err (ValueError "All costs cant be 0")
      else Ok (Build_MaskFormerHungarianMatcher cost_class cost_mask cost_dice)
    else Ok (Build_MaskFormerHungarianMatcher cost_class cost_mask cost_dice)
  else Ok (Build_MaskFormerHungarianMatcher cost_class cost_mask cost_dice).

(** [outputs]: the entries under [PREDICTIONS_LOGITS_KEY] (batch, queries,
    classes + 1) and [PREDICTIONS_MASKS_KEY] (batch, queries, h, w). *)
Record Outputs : Type :=
  { preds_logits : Tensor3 R; preds_masks : Tensor4 R }.

(** [labels]: the entries under [TARGETS_MASKS_KEY] (batch, targets, h, w)
    and [TARGETS_LABELS_KEY] (batch, targets). *)
Record Labels : Type :=
  { pixel : Tensor4 R; classes : Tensor2 Z }.

(** [x.softmax(dim=-1)] of a 3-d tensor *)
Definition softmax_last (x : Tensor3 R) : Tensor3 R :=
  mkT3 (dim3_0 x) (dim3_1 x) (dim3_2 x)
       (fun b q c => exp (get3 x b q c)
                     / rsum (dim3_2 x) (fun k => exp (get3 x b q k))).

(** Source pixel of a nearest-neighbour resampling from [n_in] to [n_out]. *)
Definition nearest_index (n_in n_out i : nat) : nat :=
  Nat.min (i * n_in / n_out) (n_in - 1).

(** [F.interpolate(x, size=(h, w), mode="nearest")] *)
Definition interpolate_nearest (x : Tensor4 R) (h w : nat) : Tensor4 R :=
  mkT4 (dim4_0 x) (dim4_1 x) h w
       (fun b t i j => get4 x b t (nearest_index (dim4_2 x) h i)
                                  (nearest_index (dim4_3 x) w j)).

(** An integer index into an axis of extent [n]; negative indices count
    from the end. *)
Definition normalize_index (n : nat) (i : Z) : option nat :=
  if ((0 <=? i) && (i <? Z.of_nat n))%Z then Some (Z.to_nat i)
  else if ((- Z.of_nat n <=? i) && (i <? 0))%Z then Some (Z.to_nat (i + Z.of_nat n))
  else None.

(** [x[:, idx]] for an integer index tensor [idx] *)
Definition index_columns (x : Tensor2 R) (idx : Tensor1 Z) : result (Tensor2 R) :=
  if forallb (fun i => bool_decide (is_Some (normalize_index (cols2 x) i)))
             (to_list idx)
  then Ok (mkT2 (rows2 x) (len1 idx)
                (fun q t => get2 x q (default O (normalize_index (cols2 x) (get1 idx t)))))
  else Err IndexError.

(** [torch.as_tensor(i, dtype=torch.int64)] of an array of indices *)
Definition as_tensor_int64 (i : list nat) : list Z := List.map Z.of_nat i.

(** The body of the loop over the batch, for one sample. *)
Definition assign_sample (self : MaskFormerHungarianMatcher)
           (linear_sum_assignment : Tensor2 R -> list nat * list nat)
           (sample : Tensor2 R * Tensor3 R * Tensor3 R * Tensor1 Z)
  : result (list nat * list nat) :=
  let '(pred_probs, pred_mask, target_mask, labels) := sample in
  let* picked := index_columns pred_probs labels in
  let cost_class_m := map2d Ropp picked in
  let pred_mask_flat := rearrange_q_hw pred_mask in
  let target_mask_flat := rearrange_q_hw target_mask in
  let* cost_mask_m :=
    pair_wise_sigmoid_focal_loss pred_mask_flat target_mask_flat 0.25 2 in
  let* cost_dice_m := pair_wise_dice_loss pred_mask_flat target_mask_flat in
  let* partial :=
    broadcast2 Rplus (map2d (Rmult (cost_mask self)) cost_mask_m)
                     (map2d (Rmult (cost_class self)) cost_class_m) in
  let* cost_matrix :=
    broadcast2 Rplus partial (map2d (Rmult (cost_dice self)) cost_dice_m) in
  Ok (linear_sum_assignment cost_matrix).

(** [MaskFormerHungarianMatcher.forward]; the assignment solver
    [scipy.optimize.linear_sum_assignment] is a parameter. *)
Definition forward (self : MaskFormerHungarianMatcher)
           (linear_sum_assignment : Tensor2 R -> list nat * list nat)
           (outputs : Outputs) (labels : Labels)
  : result (list (list Z * list Z)) :=
  let preds_masks_t := preds_masks outputs in
  let labels_masks := pixel labels in
  let preds_probs := softmax_last (preds_logits outputs) in
  let labels_masks :=
    interpolate_nearest labels_masks (dim4_2 preds_masks_t) (dim4_3 preds_masks_t) in
  let* indices :=
    mapM (assign_sample self linear_sum_assignment)
         (zip4 (unbind3 preds_probs) (unbind4 preds_masks_t)
               (unbind4 labels_masks) (unbind2 (classes labels))) in
  let matched_indices :=
    List.map (fun ij => (as_tensor_int64 (fst ij), as_tensor_int64 (snd ij))) indices in
  Ok matched_indices.

(** What the documentation of the solver promises about the form of its
    answer on an [n] x [m] cost matrix: [min n m] row indices and as many
    column indices, none repeated, all within the matrix. *)
Definition assignment_form (n m : nat) (rc : list nat * list nat) : Prop :=
  List.length (fst rc) = Nat.min n m /\
  List.length (snd rc) = Nat.min n m /\
  List.NoDup (fst rc) /\ List.NoDup (snd rc) /\
  List.Forall (fun i => (i < n)%nat) (fst rc) /\
  List.Forall (fun j => (j < m)%nat) (snd rc).

(** The same for the int64 index tensors the matcher hands back. *)
Definition matched_form (n m : nat) (ij : list Z * list Z) : Prop :=
  List.length (fst ij) = Nat.min n m /\
  List.length (snd ij) = Nat.min n m /\
  List.NoDup (fst ij) /\ List.NoDup (snd ij) /\
  List.Forall (fun i => (0 <= i < Z.of_nat n)%Z) (fst ij) /\
  List.Forall (fun j => (0 <= j < Z.of_nat m)%Z) (snd ij).

(** An index tensor addresses an axis of extent [n]. *)
Definition valid_indices (n : nat) (idx : Tensor1 Z) : Prop :=
  forall t, (t < len1 idx)%nat -> (- Z.of_nat n <= get1 idx t < Z.of_nat n)%Z.

End Matcher.

(** ** A reference solver for the assignment problem *)

Module Exhaustive.
Import Tensor Matcher.
Local Open Scope R_scope.

(** Each element of [pool] together with the elements that remain. *)
Fixpoint picks (pool : list nat) : list (nat * list nat) :=
  match pool with
  | [] => []
  | x :: pool' => (x, pool') :: List.map (fun p => (fst p, x :: snd p)) (picks pool')
  end.

(** All the ways to take [k] different elements of [pool], in order. *)
Fixpoint arrangements (k : nat) (pool : list nat) : list (list nat) :=
  match k with
  | O => [[]]
  | S k' =>
      flat_map (fun p => List.map (cons (fst p)) (arrangements k' (snd p))) (picks pool)
  end.

(** The summed cost of the paired rows and columns. *)
Definition assignment_cost (m : Tensor2 R) (rc : list nat * list nat) : R :=
  fold_right (fun p acc => get2 m (fst p) (snd p) + acc) 0 (combine (fst rc) (snd rc)).

Fixpoint cheapest {A : Type} (cost : A -> R) (best : A) (l : list A) : A :=
  match l with
  | [] => best
  | x :: l' =>
      if Rlt_dec (cost x) (cost best) then cheapest cost x l'
      else cheapest cost best l'
  end.

(** A solver of the rectangular assignment problem by exhaustive search:
    every one-to-one pairing of the shorter side with the longer one is
    tried and a cheapest one is kept. With more rows than columns the pairs
    are listed by column. *)
Definition exhaustive_assignment (m : Tensor2 R) : list nat * list nat :=
  let n := rows2 m in
  let k := cols2 m in
  let candidates :=
    if (n <=? k)%nat
    then List.map (fun cs => (seq 0 n, cs)) (arrangements n (seq 0 k))
    else List.map (fun rs => (rs, seq 0 k)) (arrangements k (seq 0 n)) in
  match candidates with
  | [] => ([], [])
  | c :: cs => cheapest (assignment_cost m) c cs
  end.

End Exhaustive.

(** ** Loss normalisation *)

Module Loss.
Import Tensor.
Local Open Scope Q_scope.

(** The process group of [torch.distributed]: [None] when the package is
    unavailable or not initialised, otherwise the values the other workers
    contribute to a reduction. *)
Definition DistContext : Type := option (list Q).

(** [is_dist_avail_and_initialized] *)
Definition is_dist_avail_and_initialized (ctx : DistContext) : bool :=
  match ctx with
  | Some _ => true
  | None => false
  end.

(** [torch.distributed.all_reduce] with the default sum *)
Definition all_reduce (peers : list Q) (x : Q) : Q :=
  fold_left Qplus peers x.

(** [get_world_size]: 1 outside a distributed run *)
Definition get_world_size (ctx : DistContext) : nat :=
  match ctx with
  | Some peers => S (List.length peers)
  | None => 1
  end.

(** [torch.clamp(x, min=lo)] *)
Definition clamp_min (x lo : Q) : Q := if Qle_bool lo x then x else lo.

(** [MaskFormerLoss.get_num_masks] *)
Definition get_num_masks (ctx : DistContext) (labels : Matcher.Labels) : Q :=
  let num_masks : nat := rows2 (Matcher.classes labels) in
  let num_masks_pt : Q := inject_Z (Z.of_nat num_masks) in
  let num_masks_pt :=
    match ctx with
    | Some peers => all_reduce peers num_masks_pt
    | None => num_masks_pt
    end in
  clamp_min (num_masks_pt / inject_Z (Z.of_nat (get_world_size ctx))) 1.

(** The number of ground-truth targets of a batch, sample by sample. *)
Definition total_targets (labels : Matcher.Labels) : nat :=
  list_sum (List.map len1 (unbind2 (Matcher.classes labels))).

End Loss.

(** ** Panoptic assembly *)

Module Panoptic.
Local Open Scope Q_scope.

(** Modelled from the spec: [ClassSpec] and the table
    [config.dataset_metadata.classes] are imported by the model file but
    declared nowhere in the sources at hand; the class registry exposes, per
    integer class id, [is_thing : bool] and [label : string]. *)
Record ClassSpec : Type := { is_thing : bool; label : string }.

Record Config : Type :=
  { num_labels : Z;
    dataset_classes : gmap Z ClassSpec }.

(** [PanopticSegmentationSegment] *)
Record PanopticSegmentationSegment : Type :=
  { seg_id : Z; category_id : Z; seg_is_thing : bool; seg_label : string }.

(** [MaskFormerForPanopticSegmentation]: configuration and thresholds *)
Record MaskFormerForPanopticSegmentation : Type :=
  { config : Config;
    object_mask_threshold : Q;
    overlap_mask_area_threshold : Q }.

(** An image-shaped tensor, row by row. *)
Definition Grid (A : Type) : Type := list (list A).

Definition pixel_at {A : Type} (d : A) (g : Grid A) (i j : nat) : A :=
  nth j (nth i g []) d.

(** [MaskFormerForPanopticSegmentationOutput], without the fields passed
    through from the base model. *)
Record Output : Type :=
  { segmentation : Grid Z; segments : list PanopticSegmentationSegment }.

Definition Qgtb (x y : Q) : bool := negb (Qle_bool x y).

(** Boolean-mask indexing [x[to_keep]] builds a new tensor. *)
Fixpoint select {A : Type} (keep : list bool) (l : list A) : list A :=
  match keep, l with
  | b :: keep', x :: l' => if b then x :: select keep' l' else select keep' l'
  | _, _ => []
  end.

Fixpoint zip_with {A B C : Type} (f : A -> B -> C) (la : list A) (lb : list B)
  : list C :=
  match la, lb with
  | a :: la', b :: lb' => f a b :: zip_with f la' lb'
  | _, _ => []
  end.

(** [remove_low_and_no_objects] *)
Definition remove_low_and_no_objects (self : MaskFormerForPanopticSegmentation)
           (masks : list (Grid Q)) (scores : list Q) (labels : list Z)
  : result (list (Grid Q) * list Q * list Z) :=
  if negb ((List.length masks =? List.length scores)%nat
           && (List.length scores =? List.length labels)%nat)
  then Err (ValueError "mask, scores and labels must have the same shape!")
  else
    let to_keep :=
      zip_with (fun l s => negb (l =? num_labels (config self))%Z
                           && Qgtb s (object_mask_threshold self))
               labels scores in
    Ok (select to_keep masks, select to_keep scores, select to_keep labels).

(** [torch.zeros((h, w), dtype=torch.int32)] *)
Definition zeros (h w : nat) : Grid Z := repeat (repeat 0%Z w) h.

(** Index of the first largest entry, scanning from position [i]. *)
Fixpoint argmax_from (best_i : nat) (best : Q) (i : nat) (l : list Q) : nat :=
  match l with
  | [] => best_i
  | x :: l' =>
      if Qgtb x best then argmax_from i x (S i) l'
      else argmax_from best_i best (S i) l'
  end.

Definition argmax (l : list Q) : nat :=
  match l with
  | [] => O
  | x :: l' => argmax_from O x 1 l'
  end.

(** [mask_probs.argmax(0)]: per pixel, the query with the largest value *)
Definition argmax0 (h w : nat) (mask_probs : list (Grid Q)) : Grid nat :=
  List.map (fun i =>
    List.map (fun j => argmax (List.map (fun m => pixel_at 0 m i j) mask_probs))
             (seq 0 w))
    (seq 0 h).

(** [2 ** e] *)
Definition pow2 (e : Z) : Q :=
  if (0 <=? e)%Z then inject_Z (2 ^ e) else / inject_Z (2 ^ (- e)).

(** The exponent [e] of a positive number: [2 ** e <= q < 2 ** (e + 1)]. *)
Definition exponent (q : Q) : Z :=
  let e := (Z.log2 (Qnum q) - Z.log2 (Zpos (Qden q)))%Z in
  if Qle_bool (pow2 e) q then e else (e - 1)%Z.

(** The nearest integer, the even one of two equally near. *)
Definition round_half_even (m : Q) : Z :=
  let f := Qround.Qfloor m in
  match Qcompare (m - inject_Z f) (1 # 2) with
  | Lt => f
  | Gt => (f + 1)%Z
  | Eq => if Z.even f then f else (f + 1)%Z
  end.

(** The float32 nearest to [q], ties to even: 24 significant bits, and
    steps of [2 ** -149] below [2 ** -126]. The operands met here are
    probabilities, scores and numbers of pixels, far below the largest
    float32. *)
Definition float32 (q : Q) : Q :=
  if Qeq_bool q 0 then 0
  else
    let a := if Qle_bool 0 q then q else - q in
    let ulp := pow2 (Z.max (exponent a) (-126) - 23) in
    let r := Qred (inject_Z (round_half_even (a / ulp)) * ulp) in
    if Qle_bool 0 q then r else - r.

(** [masks * scores.view(-1, 1, 1)], a product of float32 tensors *)
Definition scale_by_scores (mask_probs : list (Grid Q)) (scores : list Q)
  : list (Grid Q) :=
  zip_with (fun m s => List.map (List.map (fun p => float32 (p * s))) m)
           mask_probs scores.

(** [a / b] of two integer tensors: both are converted to float32 and the
    quotient is a float32. *)
Definition true_divide (a b : Z) : Q :=
  float32 (float32 (inject_Z a) / float32 (inject_Z b)).

(** [g.sum()] of a boolean tensor *)
Definition count_true (g : Grid bool) : Z :=
  Z.of_nat (list_sum (List.map (fun row => List.length (List.filter (fun b : bool => b) row)) g)).

(** [segmentation[mask] = v] *)
Definition assign_where (seg : Grid Z) (mask : Grid bool) (v : Z) : Grid Z :=
  zip_with (zip_with (fun (s : Z) (b : bool) => if b then v else s)) seg mask.

Definition Qge05 (p : Q) : bool := Qle_bool (1 # 2) p.

(** [mask_labels == k] and its area [mask_k.sum()] *)
Definition mask_of (mask_labels : Grid nat) (k : nat) : Grid bool :=
  List.map (List.map (fun l => (l =? k)%nat)) mask_labels.

Definition mask_k_area (mask_labels : Grid nat) (k : nat) : Z :=
  count_true (mask_of mask_labels k).

(** [(mask_probs[k] >= 0.5).sum()] *)
Definition original_area (mask_probs : list (Grid Q)) (k : nat) : Z :=
  count_true (List.map (List.map Qge05) (nth k mask_probs [])).

(** The local variables the loop over the queries updates. *)
Record LoopState : Type :=
  { st_segmentation : Grid Z;
    st_segments : list PanopticSegmentationSegment;
    current_segment_id : Z;
    stuff_memory_list : gmap Z Z }.

(** One iteration of [for k in range(pred_labels.shape[0])]. [mask_probs]
    is the tensor the name denotes at that point of the body, that is,
    after the in-place [mask_probs *= pred_scores.view(-1, 1, 1)]. The
    float32 [area_ratio] is read with [item()] and compared, as a Python
    float, with the threshold. *)
Definition query_step (self : MaskFormerForPanopticSegmentation)
           (mask_probs : list (Grid Q)) (mask_labels : Grid nat)
           (pred_labels : list Z) (st : LoopState) (k : nat) : result LoopState :=
  let pred_class := nth k pred_labels 0%Z in
  match dataset_classes (config self) !! pred_class with
  | None => Err KeyError
  | Some class_spec =>
      let is_stuff := negb (is_thing class_spec) in
      let mask_k := mask_of mask_labels k in
      let mask_k_area := mask_k_area mask_labels k in
      let original_area := original_area mask_probs k in
      let masks_do_exist := ((0 <? mask_k_area) && (0 <? original_area))%Z in
      if masks_do_exist then
        let area_ratio := true_divide mask_k_area original_area in
        let mask_k_is_overlapping_enough :=
          Qgtb area_ratio (overlap_mask_area_threshold self) in
        if mask_k_is_overlapping_enough then
          let current_segment_id' :=
            match stuff_memory_list st !! pred_class with
            | Some sid => sid
            | None => (current_segment_id st + 1)%Z
            end in
          let segmentation' :=
            assign_where (st_segmentation st) mask_k current_segment_id' in
          let segments' :=
            st_segments st ++
              [ {| seg_id := current_segment_id';
                   category_id := pred_class;
                   seg_is_thing := negb is_stuff;
                   seg_label := label class_spec |} ] in
          let stuff_memory_list' :=
            if is_stuff
            then <[pred_class := current_segment_id']> (stuff_memory_list st)
            else stuff_memory_list st in
          Ok {| st_segmentation := segmentation';
                st_segments := segments';
                current_segment_id := current_segment_id';
                stuff_memory_list := stuff_memory_list' |}
        else Ok st
      else Ok st
  end.

Fixpoint for_each {S : Type} (body : S -> nat -> result S) (ks : list nat) (st : S)
  : result S :=
  match ks with
  | [] => Ok st
  | k :: ks' => let* st' := body st k in for_each body ks' st'
  end.

(** The body of the loop over the batch, up to the [return] that ends it. *)
Definition assemble (self : MaskFormerForPanopticSegmentation) (h w : nat)
           (sample : list (Grid Q) * list Q * list Z) : result Output :=
  let '(mask_probs, pred_scores, pred_labels) := sample in
  let* kept := remove_low_and_no_objects self mask_probs pred_scores pred_labels in
  let '(mask_probs, pred_scores, pred_labels) := kept in
  let we_detect_something := (0 <? List.length mask_probs)%nat in
  let st0 := {| st_segmentation := zeros h w; st_segments := [];
                current_segment_id := 0%Z; stuff_memory_list := ∅ |} in
  if we_detect_something then
    let mask_probs := scale_by_scores mask_probs pred_scores in
    let mask_labels := argmax0 h w mask_probs in
    let* st :=
      for_each (query_step self mask_probs mask_labels pred_labels)
               (seq 0 (List.length pred_labels)) st0 in
    Ok {| segmentation := st_segmentation st; segments := st_segments st |}
  else
    Ok {| segmentation := st_segmentation st0; segments := st_segments st0 |}.

(** The batch as [forward] sees it once the base model has run:
    [preds_masks.sigmoid()] and the per-query best score and label. *)
Record Predictions : Type :=
  { height : nat; width : nat;
    mask_probs_b : list (list (Grid Q));
    pred_scores_b : list (list Q);
    pred_labels_b : list (list Z) }.

(** [MaskFormerForPanopticSegmentation.forward]. The [return] statement is
    in the body of the loop over the batch: the first sample ends the call,
    and an empty batch falls off the end of the function ([None]). *)
Definition forward (self : MaskFormerForPanopticSegmentation) (p : Predictions)
  : result (option Output) :=
  match
    zip_with pair (zip_with pair (mask_probs_b p) (pred_scores_b p)) (pred_labels_b p)
  with
  | [] => Ok None
  | sample :: _ =>
      let* out := assemble self (height p) (width p) sample in
      Ok (Some out)
  end.

End Panoptic.

(** ** Vocabulary of the specification *)

Module CostSpec.
Import Tensor Costs.
Local Open Scope R_scope.

(** Row [i] of a 2-d tensor as a vector. *)
Definition row (x : Tensor2 R) (i : nat) : list R :=
  List.map (get2 x i) (seq 0 (cols2 x)).

Fixpoint dot (u v : list R) : R :=
  match u, v with
  | a :: u', b :: v' => a * b + dot u' v'
  | _, _ => 0
  end.

Definition total (u : list R) : R := fold_right Rplus 0 u.

(** The dice cost of one prediction mask against one target mask, as the
    specification writes it. *)
Definition dice_cost (pred target : list R) : R :=
  1 - (2 * dot (List.map sigmoid pred) target + 1)
      / (total (List.map sigmoid pred) + total target + 1).

(** The focal cost of one prediction mask against one target mask: the
    positive term weighs the target pixels, the negative term the others. *)
Definition focal_cost (alpha gamma : R) (pred target : list R) : R :=
  dot (List.map (fun x => Rpower (1 - sigmoid x) gamma
                          * binary_cross_entropy_with_logits x 1 * alpha) pred)
      target
  + dot (List.map (fun x => Rpower (sigmoid x) gamma
                            * binary_cross_entropy_with_logits x 0 * (1 - alpha)) pred)
        (List.map (fun y => 1 - y) target).

(** A mask tensor is binary when each entry is 0 or 1. *)
Definition binary (x : Tensor2 R) : Prop :=
  forall t c, (t < rows2 x)%nat -> (c < cols2 x)%nat ->
              get2 x t c = 0 \/ get2 x t c = 1.

End CostSpec.

Module LossSpec.

(** The normalisation count the specification describes: the number of
    targets of the batch, reduced over the workers and averaged when a
    distributed context is active, clamped below at 1. *)
Definition num_masks_of_targets (ctx : Loss.DistContext) (labels : Matcher.Labels) : Q :=
  let n : Q := inject_Z (Z.of_nat (Loss.total_targets labels)) in
  let n :=
    match ctx with
    | Some peers => Loss.all_reduce peers n
    | None => n
    end in
  Loss.clamp_min (n / inject_Z (Z.of_nat (Loss.get_world_size ctx))) 1.

End LossSpec.

Module PanopticSpec.
Import Panoptic.
Local Open Scope Q_scope.

(** The number of pixels where the probability of query [k], as the model
    predicts it, is at least one half. *)
Definition unweighted_area (mask_probs : list (Grid Q)) (k : nat) : Z :=
  count_true (List.map (List.map (fun p => Qle_bool (1 # 2) p)) (nth k mask_probs [])).


(** The samples of a batch, as the loop of [forward] draws them. *)
Definition samples (p : Predictions) : list (list (Grid Q) * list Q * list Z) :=
  zip_with pair (zip_with pair (mask_probs_b p) (pred_scores_b p)) (pred_labels_b p).

(** The assembly run once per sample of the batch, in order. *)
Definition assemble_each (self : MaskFormerForPanopticSegmentation) (p : Predictions)
  : result (list Output) :=
  mapM (assemble self (height p) (width p)) (samples p).

End PanopticSpec.

(** ** Concrete inputs *)

Module Examples.
Import Tensor.

(** One prediction mask of two pixels, the same mask mirrored, and a
    target mask covering the first pixel. *)
Definition preds_low : Tensor2 R := of_rows 0%R 2 [[0%R; 1%R]].
Definition targets_left : Tensor2 R := of_rows 0%R 2 [[1%R; 0%R]].

(** A batch of one image with two queries, two class logits, one target
    and masks of a single pixel. *)
Definition matcher_default : Matcher.MaskFormerHungarianMatcher :=
  {| Matcher.cost_class := 1%R; Matcher.cost_mask := 1%R; Matcher.cost_dice := 1%R |}.

Definition outputs_one : Matcher.Outputs :=
  {| Matcher.preds_logits := mkT3 1 2 2 (fun _ _ _ => 0%R);
     Matcher.preds_masks :=
       mkT4 1 2 1 1 (fun _ q _ _ => match q with O => 1%R | _ => (-1)%R end) |}.

Definition labels_one : Matcher.Labels :=
  {| Matcher.pixel := mkT4 1 1 1 1 (fun _ _ _ _ => 1%R);
     Matcher.classes := of_rows 0%Z 1 [[0%Z]] |}.

(** A batch of one image carrying three targets. *)
Definition labels_three : Matcher.Labels :=
  {| Matcher.pixel := mkT4 1 3 1 1 (fun _ _ _ _ => 1%R);
     Matcher.classes := of_rows 0%Z 3 [[0%Z; 1%Z; 2%Z]] |}.

Import Panoptic.
Local Open Scope Q_scope.

Definition registry : gmap Z ClassSpec :=
  <[0%Z := {| is_thing := true; label := "person" |}]>
  (<[1%Z := {| is_thing := false; label := "sky" |}]>
  (<[2%Z := {| is_thing := true; label := "car" |}]> ∅)).

Definition panoptic_model : MaskFormerForPanopticSegmentation :=
  {| config := {| num_labels := 3; dataset_classes := registry |};
     object_mask_threshold := 8 # 10;
     overlap_mask_area_threshold := 8 # 10 |}.

(** Two queries over an image of one row and four pixels: the first wins
    the first pixel only, although its own probability is above one half
    everywhere. *)
Definition overlap_masks : list (Grid Q) :=
  [ [[9 # 10; 55 # 100; 55 # 100; 55 # 100]];
    [[1 # 10; 6 # 10; 6 # 10; 6 # 10]] ].
Definition overlap_scores : list Q := [9 # 10; 9 # 10].

Definition overlap_input : Predictions :=
  {| height := 1; width := 4;
     mask_probs_b := [overlap_masks];
     pred_scores_b := [overlap_scores];
     pred_labels_b := [[0%Z; 1%Z]] |}.


(** Two queries of the stuff class "sky" on the two halves of the image. *)
Definition stuff_pair_input : Predictions :=
  {| height := 1; width := 4;
     mask_probs_b := [[ [[9 # 10; 9 # 10; 1 # 10; 1 # 10]];
                        [[1 # 10; 1 # 10; 9 # 10; 9 # 10]] ]];
     pred_scores_b := [[9 # 10; 9 # 10]];
     pred_labels_b := [[1%Z; 1%Z]] |}.

(** Four queries, one pixel each: sky, person, sky, car. *)
Definition four_query_input : Predictions :=
  {| height := 1; width := 4;
     mask_probs_b := [[ [[9 # 10; 0; 0; 0]]; [[0; 9 # 10; 0; 0]];
                        [[0; 0; 9 # 10; 0]]; [[0; 0; 0; 9 # 10]] ]];
     pred_scores_b := [[9 # 10; 9 # 10; 9 # 10; 9 # 10]];
     pred_labels_b := [[1%Z; 0%Z; 1%Z; 2%Z]] |}.

(** A batch of two images of one pixel: a person, then a car. *)
(** Two queries over five pixels: the first reaches one half everywhere
    after weighting and wins four pixels, the ratio 4/5. *)
Definition boundary_input : Predictions :=
  {| height := 1; width := 5;
     mask_probs_b := [[ [[9 # 10; 9 # 10; 9 # 10; 9 # 10; 9 # 10]];
                        [[1 # 10; 1 # 10; 1 # 10; 1 # 10; 95 # 100]] ]];
     pred_scores_b := [[9 # 10; 1]];
     pred_labels_b := [[0%Z; 1%Z]] |}.

Definition two_image_input : Predictions :=
  {| height := 1; width := 1;
     mask_probs_b := [ [ [[9 # 10]] ]; [ [[9 # 10]] ] ];
     pred_scores_b := [ [9 # 10]; [9 # 10] ];
     pred_labels_b := [ [0%Z]; [2%Z] ] |}.

End Examples.

(** ** The losses on matched pairs *)

Module MaskLosses.
Import Tensor Costs.
Local Open Scope R_scope.

Definition map1 {A B : Type} (f : A -> B) (x : Tensor1 A) : Tensor1 B :=
  mkT1 (len1 x) (fun i => f (get1 x i)).

(** Elementwise operation on two 1-d tensors, with broadcasting. *)
Definition broadcast1 {A B C : Type} (f : A -> B -> C)
           (x : Tensor1 A) (y : Tensor1 B) : result (Tensor1 C) :=
  match bdim (len1 x) (len1 y) with
  | Some n =>
      Ok (mkT1 n (fun i => f (get1 x (bidx (len1 x) i)) (get1 y (bidx (len1 y) i))))
  | None => Err (RuntimeError "shapes cannot be broadcast")
  end.

(** [x.sum()] of a 1-d tensor *)
Definition sum_all (x : Tensor1 R) : R := rsum (len1 x) (get1 x).

(** [x.mean(1)] of a 2-d tensor *)
Definition mean_last (x : Tensor2 R) : Tensor1 R :=
  mkT1 (rows2 x) (fun i => rsum (cols2 x) (get2 x i) / INR (cols2 x)).

(** [dice_loss], on the flattened masks [loss_masks] passes. *)
Definition dice_loss (inputs labels : Tensor2 R) (num_masks : R) : result R :=
  let probs := flatten1 (map2d sigmoid inputs) in
  let* overlap := broadcast2 Rmult probs labels in
  let numerator := map1 (fun x => 2 * x) (sum_last overlap) in
  let* denominator := broadcast1 Rplus (sum_last probs) (sum_last labels) in
  let* ratio :=
    broadcast1 Rdiv (map1 (fun x => x + 1) numerator)
                    (map1 (fun x => x + 1) denominator) in
  let loss := map1 (fun x => 1 - x) ratio in
  Ok (sum_all loss / num_masks).

(** [F.binary_cross_entropy_with_logits(inputs, labels, reduction="none")]:
    the target must have the size of the input. *)
Definition bce_with_logits (inputs labels : Tensor2 R) : result (Tensor2 R) :=
  if ((rows2 inputs =? rows2 labels) && (cols2 inputs =? cols2 labels))%nat
  then Ok (mkT2 (rows2 inputs) (cols2 inputs)
                (fun i j => binary_cross_entropy_with_logits (get2 inputs i j)
                                                             (get2 labels i j)))
  else Err (ValueError "Target size must be the same as input size").

(** [sigmoid_focal_loss]; [x ** gamma] is the real power, which the
    modulating factor, a number between 0 and 1 for binary labels, admits. *)
Definition sigmoid_focal_loss (inputs labels : Tensor2 R)
           (num_masks alpha gamma : R) : result R :=
  let probs := map2d sigmoid inputs in
  let* cross_entropy_loss := bce_with_logits inputs labels in
  let* hit := broadcast2 Rmult probs labels in
  let* miss :=
    broadcast2 Rmult (map2d (fun p => 1 - p) probs) (map2d (fun y => 1 - y) labels) in
  let* p_t := broadcast2 Rplus hit miss in
  let* loss :=
    broadcast2 Rmult cross_entropy_loss (map2d (fun p => Rpower (1 - p) gamma) p_t) in
  let* loss :=
    if Rge_dec alpha 0 then
      let* alpha_t :=
        broadcast2 Rplus (map2d (fun y => alpha * y) labels)
                         (map2d (fun y => (1 - alpha) * (1 - y)) labels) in
      broadcast2 Rmult alpha_t loss
    else Ok loss in
  Ok (sum_all (mean_last loss) / num_masks).

(** The focal loss of one pixel, as [sigmoid_focal_loss] weighs it. *)
Definition focal_pixel (alpha gamma x y : R) : R :=
  let p := sigmoid x in
  let l := binary_cross_entropy_with_logits x y
           * Rpower (1 - (p * y + (1 - p) * (1 - y))) gamma in
  if Rge_dec alpha 0 then (alpha * y + (1 - alpha) * (1 - y)) * l else l.

(** The sum of the entries (i, i) of a matrix with [n] rows. *)
Definition diagonal_sum (n : nat) (m : Tensor2 R) : R :=
  rsum n (fun i => get2 m i i).

End MaskLosses.

(** ** Predicates on the state of the panoptic assembly *)

Module PanopticInv.
Import Panoptic.
Local Open Scope Z_scope.

(** An image of [h] rows and [w] columns. *)
Definition has_shape {A : Type} (h w : nat) (g : Grid A) : Prop :=
  List.length g = h /\ List.Forall (fun row => List.length row = w) g.

(** The values an image holds. *)
Definition pixels {A : Type} (g : Grid A) : list A := List.concat g.

(** The test [remove_low_and_no_objects] applies to one query. *)
Definition kept (self : MaskFormerForPanopticSegmentation)
           (q : Grid Q * Q * Z) : bool :=
  negb (snd q =? num_labels (config self))
  && Qgtb (snd (fst q)) (object_mask_threshold self).

Fixpoint zip3 {A B C : Type} (la : list A) (lb : list B) (lc : list C)
  : list (A * B * C) :=
  match la, lb, lc with
  | a :: la', b :: lb', c :: lc' => (a, b, c) :: zip3 la' lb' lc'
  | _, _, _ => []
  end.

(** The record agrees with the registry entry of its category. *)
Definition registered (self : MaskFormerForPanopticSegmentation)
           (r : PanopticSegmentationSegment) : Prop :=
  dataset_classes (config self) !! category_id r
  = Some {| is_thing := seg_is_thing r; label := seg_label r |}.

(** What every iteration of the loop over the queries preserves. *)
Definition loop_inv (self : MaskFormerForPanopticSegmentation) (h w : nat)
           (st : LoopState) : Prop :=
  has_shape h w (st_segmentation st) /\
  (forall v, List.In v (pixels (st_segmentation st)) ->
             v = 0 \/ exists r, List.In r (st_segments st) /\ seg_id r = v) /\
  0 <= current_segment_id st <= Z.of_nat (List.length (st_segments st)) /\
  (forall c sid, stuff_memory_list st !! c = Some sid ->
                 1 <= sid <= Z.of_nat (List.length (st_segments st))) /\
  (forall r, List.In r (st_segments st) ->
             1 <= seg_id r <= Z.of_nat (List.length (st_segments st)) /\
             registered self r /\
             (seg_is_thing r = false ->
              stuff_memory_list st !! category_id r = Some (seg_id r))).

(** The state the loop starts from. *)
Definition initial_state (h w : nat) : LoopState :=
  {| st_segmentation := zeros h w; st_segments := [];
     current_segment_id := 0; stuff_memory_list := ∅ |}.

(** The labels the assembly can meet are in the class registry. *)
Definition labels_registered (self : MaskFormerForPanopticSegmentation)
           (labels : list Z) : Prop :=
  forall l, List.In l labels -> l <> num_labels (config self) ->
            is_Some (dataset_classes (config self) !! l).

(** Every such label names a thing class. *)
Definition labels_are_things (self : MaskFormerForPanopticSegmentation)
           (labels : list Z) : Prop :=
  forall l, List.In l labels -> l <> num_labels (config self) ->
            exists class_spec,
              dataset_classes (config self) !! l = Some class_spec /\
              is_thing class_spec = true.

End PanopticInv.

(** ** The set-prediction loss *)

Module Criterion.
Import Tensor Costs Matcher MaskLosses.
Local Open Scope R_scope.

Record MaskFormerLoss : Type :=
  { num_classes : nat;
    matcher : MaskFormerHungarianMatcher;
    weight_dict : gmap string R;
    eos_coef : R;
    losses : list string }.

(** The buffer [empty_weight] that [__init__] registers: ones, with
    [eos_coef] in the last place. *)
Definition empty_weight (self : MaskFormerLoss) : Tensor1 R :=
  mkT1 (num_classes self + 1)
       (fun c => if (c =? num_classes self)%nat then eos_coef self else 1).

(** The matching of a batch: per sample, the indices of the selected
    predictions and those of the corresponding targets. *)
Definition Indices : Type := list (list Z * list Z).

(** [torch.cat] of 1-d tensors; the library refuses an empty sequence. *)
Definition cat {A : Type} (ts : list (list A)) : result (list A) :=
  match ts with
  | [] => Err (RuntimeError "torch.cat(): expected a non-empty list of Tensors")
  | _ => Ok (List.concat ts)
  end.

Definition enumerate {A : Type} (l : list A) : list (nat * A) :=
  combine (seq 0 (List.length l)) l.

(** [torch.full_like(src, i)] *)
Definition full_like (src : list Z) (i : nat) : list Z :=
  repeat (Z.of_nat i) (List.length src).

(** [_get_src_permutation_idx] *)
Definition get_src_permutation_idx (indices : Indices) : result (list Z * list Z) :=
  let* batch_idx :=
    cat (List.map (fun p => full_like (fst (snd p)) (fst p)) (enumerate indices)) in
  let* src_idx := cat (List.map fst indices) in
  Ok (batch_idx, src_idx).

(** [_get_tgt_permutation_idx] *)
Definition get_tgt_permutation_idx (indices : Indices) : result (list Z * list Z) :=
  let* batch_idx :=
    cat (List.map (fun p => full_like (snd (snd p)) (fst p)) (enumerate indices)) in
  let* tgt_idx := cat (List.map snd indices) in
  Ok (batch_idx, tgt_idx).

(** [target[j]] for a 1-d tensor and an index tensor [j] *)
Definition take {A : Type} (target : Tensor1 A) (j : list Z) : result (list A) :=
  mapM (fun i => match normalize_index (len1 target) i with
                 | Some n => Ok (get1 target n)
                 | None => Err IndexError
                 end) j.

(** [t[(rows, cols)] = values] for two index tensors of one length: the
    indices are checked against the shape, the values must number as many
    as the indices (or one, which is repeated), and a later write to an
    entry replaces an earlier one. *)
Definition index_put {A : Type} (t : Tensor2 A) (idx : list Z * list Z)
           (values : list A) : result (Tensor2 A) :=
  let* rows := mapM (fun i => match normalize_index (rows2 t) i with
                              | Some n => Ok n
                              | None => Err IndexError
                              end) (fst idx) in
  let* cols := mapM (fun i => match normalize_index (cols2 t) i with
                              | Some n => Ok n
                              | None => Err IndexError
                              end) (snd idx) in
  let* keys :=
    match bdim (List.length rows) (List.length cols) with
    | Some n =>
        Ok (List.map (fun p => (nth (bidx (List.length rows) p) rows O,
                                nth (bidx (List.length cols) p) cols O))
                     (seq 0 n))
    | None => Err IndexError
    end in
  let* vals :=
    if (List.length values =? List.length keys)%nat then Ok values
    else match values with
         | [v] => Ok (repeat v (List.length keys))
         | _ => Err (RuntimeError "shape mismatch: value tensor cannot be broadcast")
         end in
  let writes := rev (combine keys vals) in
  Ok (mkT2 (rows2 t) (cols2 t)
           (fun i j =>
              match List.find (fun w => (fst (fst w) =? i)%nat
                                        && (snd (fst w) =? j)%nat) writes with
              | Some w => snd w
              | None => get2 t i j
              end)).

(** [rearrange(x, "b q c -> b c q")] *)
Definition rearrange_bqc_bcq {A : Type} (x : Tensor3 A) : Tensor3 A :=
  mkT3 (dim3_0 x) (dim3_2 x) (dim3_1 x) (fun b c q => get3 x b q c).

(** Sum of [f b q] over a grid of [n] by [m] positions. *)
Definition rsum2 (n m : nat) (f : nat -> nat -> R) : R :=
  rsum n (fun b => rsum m (f b)).

(** [F.cross_entropy(input, target, weight)] for an input of shape
    (batch, classes, positions): the mean of the weighted negative log
    likelihoods, over the sum of the weights met. A target equal to
    [ignore_index = -100] is left out; any other target must be a class. *)
Definition cross_entropy (input : Tensor3 R) (target : Tensor2 Z)
           (weight : Tensor1 R) : result R :=
  if negb (len1 weight =? dim3_1 input)%nat then
    Err (RuntimeError "weight tensor should be defined for all classes")
  else if negb ((rows2 target =? dim3_0 input) && (cols2 target =? dim3_2 input))%nat then
    Err (ValueError "Expected input batch_size to match target batch_size")
  else if negb (forallb (fun b =>
                  forallb (fun q =>
                    let t := get2 target b q in
                    (t =? -100)%Z || ((0 <=? t)%Z && (t <? Z.of_nat (dim3_1 input))%Z))
                  (seq 0 (cols2 target)))
                (seq 0 (rows2 target))) then
    Err IndexError
  else
    let counted b q := negb (get2 target b q =? -100)%Z in
    let cls b q := Z.to_nat (get2 target b q) in
    let nll b q :=
      ln (rsum (dim3_1 input) (fun c => exp (get3 input b c q)))
      - get3 input b (cls b q) q in
    let total :=
      rsum2 (rows2 target) (cols2 target)
            (fun b q => if counted b q then get1 weight (cls b q) * nll b q else 0) in
    let weights :=
      rsum2 (rows2 target) (cols2 target)
            (fun b q => if counted b q then get1 weight (cls b q) else 0) in
    Ok (total / weights).

(** The tensor [target_classes] that [loss_labels] hands to the cross
    entropy: the no-object class everywhere, then the class of the matched
    target at each matched query. *)
Definition target_classes_of (self : MaskFormerLoss) (pred_logits : Tensor3 R)
           (labels : Labels) (indices : Indices) : result (Tensor2 Z) :=
  let b := dim3_0 pred_logits in
  let q := dim3_1 pred_logits in
  let* idx := get_src_permutation_idx indices in
  let* picked :=
    mapM (fun p => take (fst p) (snd (snd p)))
         (combine (unbind2 (classes labels)) indices) in
  let* target_classes_o := cat picked in
  let target_classes := mkT2 b q (fun _ _ => Z.of_nat (num_classes self)) in
  index_put target_classes idx target_classes_o.

(** [loss_labels] *)
Definition loss_labels (self : MaskFormerLoss) (outputs : Outputs) (labels : Labels)
           (indices : Indices) (num_masks : R) : result (gmap string R) :=
  let pred_logits := preds_logits outputs in
  let* target_classes := target_classes_of self pred_logits labels indices in
  let* loss_ce :=
    cross_entropy (rearrange_bqc_bcq pred_logits) target_classes (empty_weight self) in
  Ok {[ "loss_cross_entropy"%string := loss_ce ]}.

(** [x[(batch_idx, idx)]]: the slices of a 4-d tensor at pairs of indices
    into its two leading axes. *)
Definition index_pairs (x : Tensor4 R) (idx : list Z * list Z) : result (Tensor3 R) :=
  let* rows := mapM (fun i => match normalize_index (dim4_0 x) i with
                              | Some n => Ok n
                              | None => Err IndexError
                              end) (fst idx) in
  let* cols := mapM (fun i => match normalize_index (dim4_1 x) i with
                              | Some n => Ok n
                              | None => Err IndexError
                              end) (snd idx) in
  match bdim (List.length rows) (List.length cols) with
  | Some n =>
      Ok (mkT3 n (dim4_2 x) (dim4_3 x)
               (fun p i j => get4 x (nth (bidx (List.length rows) p) rows O)
                                    (nth (bidx (List.length cols) p) cols O) i j))
  | None => Err IndexError
  end.

(** The source position, between two pixels of an axis of [n_in], of pixel
    [i] of an axis of [n_out], for [align_corners=False]. *)
Definition source_position (n_in n_out i : nat) : R :=
  Rmax (INR n_in / INR n_out * (INR i + 0.5) - 0.5) 0.

Definition lower_pixel (n_in : nat) (pos : R) : nat :=
  Nat.min (Z.to_nat (Int_part pos)) (n_in - 1).

Definition upper_pixel (n_in lower : nat) : nat :=
  if (lower <? n_in - 1)%nat then S lower else lower.

Definition upper_share (pos : R) (lower : nat) : R :=
  Rmin (Rmax (pos - INR lower) 0) 1.

(** [F.interpolate(x[:, None], size=(h, w), mode="bilinear",
    align_corners=False)[:, 0]] *)
Definition interpolate_bilinear (x : Tensor3 R) (h w : nat) : Tensor3 R :=
  mkT3 (dim3_0 x) h w
       (fun p i j =>
          let pos_y := source_position (dim3_1 x) h i in
          let y0 := lower_pixel (dim3_1 x) pos_y in
          let y1 := upper_pixel (dim3_1 x) y0 in
          let ly := upper_share pos_y y0 in
          let pos_x := source_position (dim3_2 x) w j in
          let x0 := lower_pixel (dim3_2 x) pos_x in
          let x1 := upper_pixel (dim3_2 x) x0 in
          let lx := upper_share pos_x x0 in
          (1 - ly) * ((1 - lx) * get3 x p y0 x0 + lx * get3 x p y0 x1)
          + ly * ((1 - lx) * get3 x p y1 x0 + lx * get3 x p y1 x1)).

(** [x.view(like.shape)] of a 2-d tensor: the entries in row-major order,
    cut into rows of the new width. *)
Definition view_as (x like : Tensor2 R) : result (Tensor2 R) :=
  if (rows2 x * cols2 x =? rows2 like * cols2 like)%nat then
    Ok (mkT2 (rows2 like) (cols2 like)
             (fun i j => get2 x ((i * cols2 like + j) / cols2 x)
                                ((i * cols2 like + j) mod cols2 x)))
  else Err (RuntimeError "shape is invalid for input size").

(** [loss_masks] *)
Definition loss_masks (self : MaskFormerLoss) (outputs : Outputs) (labels : Labels)
           (indices : Indices) (num_masks : R) : result (gmap string R) :=
  let* src_idx := get_src_permutation_idx indices in
  let* tgt_idx := get_tgt_permutation_idx indices in
  let* pred_masks := index_pairs (preds_masks outputs) src_idx in
  let* target_masks := index_pairs (pixel labels) tgt_idx in
  let pred_masks :=
    interpolate_bilinear pred_masks (dim3_1 target_masks) (dim3_2 target_masks) in
  let pred_masks := rearrange_q_hw pred_masks in
  let target_masks := rearrange_q_hw target_masks in
  let* target_masks := view_as target_masks pred_masks in
  let* loss_mask := sigmoid_focal_loss pred_masks target_masks num_masks 0.25 2 in
  let* loss_dice := dice_loss pred_masks target_masks num_masks in
  Ok {[ "loss_mask"%string := loss_mask; "loss_dice"%string := loss_dice ]}.

(** [get_loss], on dictionaries that hold the entries the losses read *)
Definition get_loss (self : MaskFormerLoss) (loss : string) (outputs : Outputs)
           (labels : Labels) (indices : Indices) (num_masks : R)
  : result (gmap string R) :=
  let loss_map : gmap string (Outputs -> Labels -> Indices -> R -> result (gmap string R)) :=
    {[ "labels"%string := loss_labels self; "masks"%string := loss_masks self ]} in
  match loss_map !! loss with
  | None => Err KeyError
  | Some f => f outputs labels indices num_masks
  end.

(** The outputs of the model as the loss receives them: the predictions of
    the last layer and, when the key [auxilary_predictions] is present,
    those of the layers before. *)
Record LossInput : Type :=
  { last_predictions : Outputs;
    auxilary_predictions : option (list Outputs) }.

(** The text of [f"_{i}"] *)
Definition layer_suffix (i : nat) : string :=
  String.append "_" (DecimalString.NilEmpty.string_of_uint (Nat.to_uint i)).

(** [{k + f"_{i}": v for k, v in l_dict.items()}] *)
Definition with_layer_suffix (i : nat) (l_dict : gmap string R) : gmap string R :=
  list_to_map (List.map (fun kv => (String.append (fst kv) (layer_suffix i), snd kv))
                        (map_to_list l_dict)).

(** [for loss in self.losses: losses.update(rename(get_loss(loss, ...)))] *)
Fixpoint update_with_losses (self : MaskFormerLoss) (names : list string)
         (rename : gmap string R -> gmap string R)
         (outputs : Outputs) (labels : Labels) (indices : Indices) (num_masks : R)
         (acc : gmap string R) : result (gmap string R) :=
  match names with
  | [] => Ok acc
  | loss :: names' =>
      let* l_dict := get_loss self loss outputs labels indices num_masks in
      update_with_losses self names' rename outputs labels indices num_masks
                         (rename l_dict ∪ acc)
  end.

(** The loop over the auxiliary layers, from layer [i] on. *)
Fixpoint update_with_layers (self : MaskFormerLoss)
         (linear_sum_assignment : Tensor2 R -> list nat * list nat)
         (i : nat) (layers : list Outputs) (labels : Labels) (num_masks : R)
         (acc : gmap string R) : result (gmap string R) :=
  match layers with
  | [] => Ok acc
  | aux_outputs :: layers' =>
      let* indices :=
        Matcher.forward (matcher self) linear_sum_assignment aux_outputs labels in
      let* acc' :=
        update_with_losses self (losses self) (with_layer_suffix i)
                           aux_outputs labels indices num_masks acc in
      update_with_layers self linear_sum_assignment (S i) layers' labels num_masks acc'
  end.

(** [MaskFormerLoss.forward] *)
Definition forward (self : MaskFormerLoss)
           (linear_sum_assignment : Tensor2 R -> list nat * list nat)
           (ctx : Loss.DistContext) (outputs : LossInput) (labels : Labels)
  : result (gmap string R) :=
  let outputs_without_aux :=
    {| preds_logits := preds_logits (last_predictions outputs);
       preds_masks := preds_masks (last_predictions outputs) |} in
  let* indices :=
    Matcher.forward (matcher self) linear_sum_assignment outputs_without_aux labels in
  let num_masks := Q2R (Loss.get_num_masks ctx labels) in
  let* losses_d :=
    update_with_losses self (losses self) (fun d => d)
                       (last_predictions outputs) labels indices num_masks ∅ in
  match auxilary_predictions outputs with
  | Some layers =>
      update_with_layers self linear_sum_assignment 0 layers labels num_masks losses_d
  | None => Ok losses_d
  end.

(** The target masks are binary where the tensor is defined. *)
Definition binary_masks (x : Tensor4 R) : Prop :=
  forall b t i j, (b < dim4_0 x)%nat -> (t < dim4_1 x)%nat ->
                  (i < dim4_2 x)%nat -> (j < dim4_3 x)%nat ->
                  get4 x b t i j = 0 \/ get4 x b t i j = 1.

(** The names under which a loss component reports. *)
Definition loss_keys (loss : string) : list string :=
  if String.eqb loss "labels" then ["loss_cross_entropy"%string]
  else if String.eqb loss "masks" then ["loss_mask"%string; "loss_dice"%string]
  else [].

(** The names of the components [names] for the auxiliary layer [i]. *)
Definition layer_keys (names : list string) (i : nat) : list string :=
  List.map (fun k => String.append k (layer_suffix i)) (flat_map loss_keys names).

(** The names [forward] reports for the components [names] and [n]
    auxiliary layers. *)
Definition reported_keys (names : list string) (n : nat) : list string :=
  flat_map loss_keys names ++ flat_map (layer_keys names) (seq 0 n).

(** The auxiliary layers of the input, none when the key is absent. *)
Definition layers_of (outputs : LossInput) : list Outputs :=
  match auxilary_predictions outputs with
  | Some layers => layers
  | None => []
  end.

(** The predictions of one layer fit the loss and the batch of labels. *)
Definition layer_fits (self : MaskFormerLoss) (labels : Labels) (o : Outputs) : Prop :=
  dim3_0 (preds_logits o) = rows2 (classes labels) /\
  dim4_0 (preds_masks o) = rows2 (classes labels) /\
  dim3_1 (preds_logits o) = dim4_1 (preds_masks o) /\
  (0 < dim3_1 (preds_logits o))%nat /\
  dim3_2 (preds_logits o) = (num_classes self + 1)%nat.

(** The labels of a batch that is not empty: one class id per target mask,
    each a class of the model, and binary masks of at least one pixel. *)
Definition labels_fit (self : MaskFormerLoss) (labels : Labels) : Prop :=
  (0 < rows2 (classes labels))%nat /\
  dim4_0 (pixel labels) = rows2 (classes labels) /\
  cols2 (classes labels) = dim4_1 (pixel labels) /\
  (forall b t, (b < rows2 (classes labels))%nat -> (t < cols2 (classes labels))%nat ->
               (0 <= get2 (classes labels) b t < Z.of_nat (num_classes self + 1))%Z) /\
  binary_masks (pixel labels) /\
  (0 < dim4_2 (pixel labels) * dim4_3 (pixel labels))%nat.

(** The loss components the criterion knows. *)
Definition supported (loss : string) : Prop :=
  loss = "labels"%string \/ loss = "masks"%string.

(** Every value of the dictionary is non-negative. *)
Definition all_nonneg (d : gmap string R) : Prop :=
  forall k v, d !! k = Some v -> 0 <= v.

(** The computation does not end in [KeyError]. *)
Definition no_key_error {A : Type} (r : result A) : Prop := r <> Err KeyError.

(** A matching that [loss_labels] and [loss_masks] can use on [nq] queries
    and [nt] targets: as many prediction indices as target indices, no
    prediction taken twice, every index in range. *)
Definition usable_matching (nq nt : nat) (ij : list Z * list Z) : Prop :=
  List.length (fst ij) = List.length (snd ij) /\
  List.NoDup (fst ij) /\
  List.Forall (fun i => (0 <= i < Z.of_nat nq)%Z) (fst ij) /\
  List.Forall (fun j => (0 <= j < Z.of_nat nt)%Z) (snd ij).

(** The writes of one sample into [target_classes]: each matched query of
    sample [i], with the class of its target. *)
Definition sample_writes (i : nat) (row : Tensor1 Z) (ij : list Z * list Z)
  : list (nat * nat * Z) :=
  List.map (fun sj => ((i, Z.to_nat (fst sj)), get1 row (Z.to_nat (snd sj))))
           (combine (fst ij) (snd ij)).

(** The writes of the samples [i], [i + 1], ... in order. *)
Fixpoint batch_writes (i : nat) (rows : list (Tensor1 Z)) (indices : Indices)
  : list (nat * nat * Z) :=
  match rows, indices with
  | row :: rows', ij :: indices' =>
      sample_writes i row ij ++ batch_writes (S i) rows' indices'
  | _, _ => []
  end.

End Criterion.

(** ** Inputs of the criterion used in the examples *)

Module CriterionExamples.
Import Tensor Matcher Criterion.

(** The default weights of the configuration: 1, 20, 1. *)
Definition weights_default : gmap string R :=
  {[ "loss_cross_entropy"%string := 1%R;
     "loss_mask"%string := 20%R;
     "loss_dice"%string := 1%R ]}.

(** The criterion as [MaskFormerModel.__init__] builds it, for one class. *)
Definition criterion_one_class : MaskFormerLoss :=
  {| num_classes := 1;
     matcher := Examples.matcher_default;
     weight_dict := weights_default;
     eos_coef := (1 / 10)%R;
     losses := ["labels"%string; "masks"%string] |}.

(** The first query matched to the only target. *)
Definition indices_one : Indices := [([0%Z], [0%Z])].

(** The predictions of the last layer and of one auxiliary layer. *)
Definition input_two_layers : LossInput :=
  {| last_predictions := Examples.outputs_one;
     auxilary_predictions := Some [Examples.outputs_one] |}.

End CriterionExamples.

(** ** The loss of the model *)

Module ModelLoss.
Import Tensor Matcher Criterion.
Local Open Scope R_scope.

(** The attributes of the configuration that [MaskFormerModel.__init__]
    reads for the matcher and the criterion. *)
Record LossConfig : Type :=
  { num_labels : nat;
    ce_weight : R;
    mask_weight : R;
    dice_weight : R;
    no_object_weight : R }.

(** The matcher, the weights and the criterion of [MaskFormerModel]. *)
Record MaskFormerModel : Type :=
  { model_matcher : MaskFormerHungarianMatcher;
    model_weight_dict : gmap string R;
    criterion : MaskFormerLoss }.

(** [MaskFormerModel.__init__], the part that builds the loss *)
Definition init (config : LossConfig) : result MaskFormerModel :=
  let* matcher := Matcher.init 1 (mask_weight config) (dice_weight config) in
  let losses := ["labels"%string; "masks"%string] in
  let weight_dict : gmap string R :=
    {[ "loss_cross_entropy"%string := ce_weight config;
       "loss_mask"%string := mask_weight config;
       "loss_dice"%string := dice_weight config ]} in
  Ok {| model_matcher := matcher;
        model_weight_dict := weight_dict;
        criterion := {| num_classes := num_labels config;
                        Criterion.matcher := matcher;
                        weight_dict := weight_dict;
                        eos_coef := no_object_weight config;
                        losses := losses |} |}.

(** [{k: v * self.weight_dict[k] for k, v in loss_dict.items()
      if k in self.weight_dict}] *)
Definition weighted (weight_dict loss_dict : gmap string R) : gmap string R :=
  intersection_with (fun v w => Some (v * w)) loss_dict weight_dict.

(** [MaskFormerModel.get_loss_dict] *)
Definition get_loss_dict (self : MaskFormerModel)
           (linear_sum_assignment : Tensor2 R -> list nat * list nat)
           (ctx : Loss.DistContext) (outputs : LossInput) (labels : Labels)
  : result (gmap string R) :=
  let* loss_dict :=
    Criterion.forward (criterion self) linear_sum_assignment ctx outputs labels in
  Ok (weighted (model_weight_dict self) loss_dict).

(** [MaskFormerModel.get_loss]: the sum of the values of the dictionary *)
Definition get_loss (loss_dict : gmap string R) : R :=
  map_fold (fun _ v acc => v + acc) 0 loss_dict.

End ModelLoss.

(** ** A configuration used in the examples *)

Module ModelExamples.
Import ModelLoss.

(** One class and the default weights of the configuration. *)
Definition config_one_class : LossConfig :=
  {| num_labels := 1;
     ce_weight := 1%R;
     mask_weight := 20%R;
     dice_weight := 1%R;
     no_object_weight := (1 / 10)%R |}.

End ModelExamples.

(** ** Windows of the Swin backbone *)

Module Swin.
Local Open Scope nat_scope.

(** What the functions of the backbone raise: [ZeroDivisionError]; the
    [ValueError] of unpacking a shape of another rank; the [IndexError] of
    [shape[0]] on an empty shape; the [RuntimeError] of [view], [permute]
    and [cat]; [AssertionError]. *)
Inductive raised : Type :=
| ZeroDivisionError
| UnpackError
| TupleIndexError
| ShapeError
| AssertionError.

Inductive outcome (A : Type) : Type :=
| Done (a : A)
| Raised (e : raised).
Arguments Done {A} a.
Arguments Raised {A} e.

Definition obind {A B : Type} (m : outcome A) (k : A -> outcome B) : outcome B :=
  match m with
  | Done a => k a
  | Raised e => Raised e
  end.

Notation "'do*' x ':=' m 'in' k" := (obind m (fun x => k))
  (at level 10, x name, m at level 100, k at level 200).

(** A contiguous tensor: its shape and its buffer in row-major order. *)
Record NdTensor (A : Type) : Type :=
  { shape : list nat; data : nat -> A }.
Arguments shape {A} _.
Arguments data {A} _ _.

Definition numel (s : list nat) : nat := fold_right Nat.mul 1 s.

(** Position in the buffer of the element at [idx]. *)
Fixpoint ravel (s idx : list nat) : nat :=
  match s, idx with
  | _ :: s', i :: idx' => i * numel s' + ravel s' idx'
  | _, _ => 0
  end.

(** Index of the element at position [j] of the buffer. *)
Fixpoint unravel (s : list nat) (j : nat) : list nat :=
  match s with
  | [] => []
  | _ :: s' => j / numel s' :: unravel s' (j mod numel s')
  end.

(** The sizes given to [view]; [None] stands for [-1]. *)
Definition known_sizes (sizes : list (option nat)) : nat :=
  numel (List.map (fun o => match o with Some d => d | None => 1 end) sizes).

Definition inferred_count (sizes : list (option nat)) : nat :=
  List.length (List.filter (fun o => match o with Some _ => false | None => true end)
                           sizes).

(** [x.view] on the given sizes, for a contiguous tensor: the buffer is
    kept, the sizes must account for every element. *)
Definition view {A : Type} (x : NdTensor A) (sizes : list (option nat))
  : outcome (NdTensor A) :=
  let n := numel (shape x) in
  let known := known_sizes sizes in
  match inferred_count sizes with
  | 0 =>
      if n =? known then
        Done {| shape := List.map (fun o => match o with Some d => d | None => 0 end)
                                  sizes;
                data := data x |}
      else Raised ShapeError
  | 1 =>
      if (known =? 0) || negb (n mod known =? 0) then Raised ShapeError
      else
        Done {| shape := List.map (fun o => match o with
                                            | Some d => d
                                            | None => n / known
                                            end) sizes;
                data := data x |}
  | _ => Raised ShapeError
  end.

(** The place of [m] in [dims]. *)
Fixpoint index_of (m : nat) (dims : list nat) : nat :=
  match dims with
  | [] => 0
  | d :: dims' => if d =? m then 0 else S (index_of m dims')
  end.

Definition is_permutation (dims : list nat) (n : nat) : bool :=
  (List.length dims =? n)
  && forallb (fun m => existsb (Nat.eqb m) dims) (seq 0 n).

(** Axis [k] of the result is axis [dims[k]] of the argument. *)
Definition permuted {A : Type} (d : A) (dims : list nat) (l : list A) : list A :=
  List.map (fun k => nth k l d) dims.

(** The index in the argument of the element at [idx'] of the result. *)
Definition unpermuted {A : Type} (d : A) (dims : list nat) (l : list A) : list A :=
  List.map (fun m => nth (index_of m dims) l d) (seq 0 (List.length dims)).

(** [x.permute] on the given axes, then [contiguous] *)
Definition permute_contiguous {A : Type} (x : NdTensor A) (dims : list nat)
  : outcome (NdTensor A) :=
  if is_permutation dims (List.length (shape x)) then
    let shape' := permuted 0 dims (shape x) in
    Done {| shape := shape';
            data := fun j => data x (ravel (shape x)
                                           (unpermuted 0 dims (unravel shape' j))) |}
  else Raised ShapeError.

(** [a // b] of Python on natural numbers *)
Definition floordiv (a b : nat) : outcome nat :=
  if b =? 0 then Raised ZeroDivisionError else Done (a / b).

(** [window_partition] *)
Definition window_partition {A : Type} (x : NdTensor A) (window_size : nat)
  : outcome (NdTensor A) :=
  match shape x with
  | [B; H; W; C] =>
      do* hq := floordiv H window_size in
      do* wq := floordiv W window_size in
      do* x := view x [Some B; Some hq; Some window_size;
                       Some wq; Some window_size; Some C] in
      do* x := permute_contiguous x [0; 1; 3; 2; 4; 5] in
      view x [None; Some window_size; Some window_size; Some C]
  | _ => Raised UnpackError
  end.

(** [a / b] of Python on rational numbers *)
Definition truediv (a b : Q) : outcome Q :=
  if Qeq_bool b 0 then Raised ZeroDivisionError else Done (a / b)%Q.

(** [int(q)] of a number that is not negative *)
Definition int_of (q : Q) : nat := Z.to_nat (Qround.Qfloor q).

Definition of_nat (n : nat) : Q := inject_Z (Z.of_nat n).

(** [window_reverse]. The divisions of floating-point numbers are taken
    exactly, as they come out when [H] and [W] are multiples of the window
    size; otherwise the quotient of the source is a rounded one. *)
Definition window_reverse {A : Type} (windows : NdTensor A) (window_size H W : nat)
  : outcome (NdTensor A) :=
  match shape windows with
  | [] => Raised TupleIndexError
  | n :: _ =>
      do* a := truediv (of_nat (H * W)) (of_nat window_size) in
      do* a := truediv a (of_nat window_size) in
      do* b := truediv (of_nat n) a in
      let B := int_of b in
      do* hq := floordiv H window_size in
      do* wq := floordiv W window_size in
      do* x := view windows [Some B; Some hq; Some wq;
                             Some window_size; Some window_size; None] in
      do* x := permute_contiguous x [0; 1; 3; 2; 4; 5] in
      view x [Some B; Some H; Some W; None]
  end.

(** The padding of [SwinTransformerBlock.forward] along an axis of extent
    [n]: [(window_size - n % window_size) % window_size]. *)
Definition pad_amount (window_size n : nat) : outcome nat :=
  if window_size =? 0 then Raised ZeroDivisionError
  else Done ((window_size - n mod window_size) mod window_size).

(** The extent [int(np.ceil(n / window_size)) * window_size] for which
    [BasicLayer.forward] builds the attention mask. *)
Definition mask_extent (window_size n : nat) : outcome nat :=
  do* q := truediv (of_nat n) (of_nat window_size) in
  Done (Z.to_nat (Qround.Qceiling q) * window_size).

(** The tensors agree: same shape, same elements. *)
Definition same_tensor {A : Type} (x y : NdTensor A) : Prop :=
  shape x = shape y /\ forall j, j < numel (shape x) -> data x j = data y j.

(** [idx] is an index of a tensor of shape [s]. *)
Definition valid_index (s idx : list nat) : Prop := Forall2 lt idx s.

End Swin.

Module SwinExamples.
Import Swin.

(** A feature map of one image, two rows, four columns and one channel,
    holding the positions of its own buffer; the same with three rows. *)
Definition feature_map : NdTensor nat := {| shape := [1; 2; 4; 1]; data := fun j => j |}.
Definition feature_map_odd : NdTensor nat :=
  {| shape := [1; 3; 4; 1]; data := fun j => j |}.

(** Two windows of two by two pixels. *)
Definition two_windows : NdTensor nat := {| shape := [2; 2; 2; 1]; data := fun j => j |}.

End SwinExamples.

(** ** Semantic segmentation *)

Module Semantic.
Import Tensor Costs Matcher.
Local Open Scope R_scope.

(** [x[..., :-1]] *)
Definition drop_last_class (x : Tensor3 R) : Tensor3 R :=
  mkT3 (dim3_0 x) (dim3_1 x) (dim3_2 x - 1) (get3 x).

(** [x.sigmoid()] of a 4-d tensor *)
Definition sigmoid4 (x : Tensor4 R) : Tensor4 R :=
  mkT4 (dim4_0 x) (dim4_1 x) (dim4_2 x) (dim4_3 x)
       (fun b q h w => sigmoid (get4 x b q h w)).

(** [torch.einsum("bqc, bqhw -> bchw", p, m)]: the batch and the query
    axes are broadcast against each other. *)
Definition einsum_bqc_bqhw_bchw (p : Tensor3 R) (m : Tensor4 R) : result (Tensor4 R) :=
  match bdim (dim3_0 p) (dim4_0 m), bdim (dim3_1 p) (dim4_1 m) with
  | Some b, Some q =>
      Ok (mkT4 b (dim3_2 p) (dim4_2 m) (dim4_3 m)
               (fun i c h w =>
                  rsum q (fun k =>
                    get3 p (bidx (dim3_0 p) i) (bidx (dim3_1 p) k) c
                    * get4 m (bidx (dim4_0 m) i) (bidx (dim4_1 m) k) h w)))
  | _, _ => Err (RuntimeError "einsum: operands do not broadcast")
  end.

(** [MaskFormerForSemanticSegmentation.forward], the segmentation it
    computes from [outputs.preds_logits] and [outputs.preds_masks]; the
    call of the base model before it and the output object built after it
    are left out. Sigmoid and softmax are the exact functions. *)
Definition forward (outputs : Outputs) : result (Tensor4 R) :=
  let masks_classes := drop_last_class (softmax_last (preds_logits outputs)) in
  let masks_probs := sigmoid4 (preds_masks outputs) in
  einsum_bqc_bqhw_bchw masks_classes masks_probs.

End Semantic.

(** ** Patch merging *)

Module Merging.
Import Swin.
Local Open Scope nat_scope.

(** The element at [(b, h, w, c)] of a 4-d tensor. *)
Definition at4 {A : Type} (x : NdTensor A) (b h w c : nat) : A :=
  data x (ravel (shape x) [b; h; w; c]).

(** The contiguous 4-d tensor with the given elements. *)
Definition from_index4 {A : Type} (d : A) (s : list nat)
           (f : nat -> nat -> nat -> nat -> A) : NdTensor A :=
  {| shape := s;
     data := fun j => match unravel s j with
                      | [b; h; w; c] => f b h w c
                      | _ => d
                      end |}.

(** [F.pad(x, (0, 0, 0, pad_r, 0, pad_b))] of a 4-d tensor: zeros after the
    last column and under the last row. *)
Definition pad_right_bottom (x : NdTensor R) (pad_r pad_b : nat)
  : outcome (NdTensor R) :=
  match shape x with
  | [B; H; W; C] =>
      Done (from_index4 0%R [B; H + pad_b; W + pad_r; C]
              (fun b h w c => if (h <? H) && (w <? W) then at4 x b h w c else 0%R))
  | _ => Raised ShapeError
  end.

(** The length of [range(start, n, 2)]. *)
Definition strided (start n : nat) : nat := (n - start + 1) / 2.

(** [x[:, sh::2, sw::2, :]] *)
Definition every_other (x : NdTensor R) (sh sw : nat) : outcome (NdTensor R) :=
  match shape x with
  | [B; H; W; C] =>
      Done (from_index4 0%R [B; strided sh H; strided sw W; C]
              (fun b i j c => at4 x b (2 * i + sh) (2 * j + sw) c))
  | _ => Raised TupleIndexError
  end.

(** [torch.cat([x0, x1, x2, x3], -1)] of 4-d tensors: the other axes must
    agree. *)
Definition cat_last (x0 x1 x2 x3 : NdTensor R) : outcome (NdTensor R) :=
  match shape x0, shape x1, shape x2, shape x3 with
  | [B0; H0; W0; C0], [B1; H1; W1; C1], [B2; H2; W2; C2], [B3; H3; W3; C3] =>
      if (B0 =? B1) && (B0 =? B2) && (B0 =? B3)
         && (H0 =? H1) && (H0 =? H2) && (H0 =? H3)
         && (W0 =? W1) && (W0 =? W2) && (W0 =? W3)
      then
        Done (from_index4 0%R [B0; H0; W0; C0 + C1 + C2 + C3]
                (fun b i j c =>
                   if c <? C0 then at4 x0 b i j c
                   else if c <? C0 + C1 then at4 x1 b i j (c - C0)
                   else if c <? C0 + C1 + C2 then at4 x2 b i j (c - C0 - C1)
                   else at4 x3 b i j (c - C0 - C1 - C2)))
      else Raised ShapeError
  | _, _, _, _ => Raised ShapeError
  end.

(** [PatchMerging.forward] up to the normalisation: the four neighbours of
    every other position, side by side. *)
Definition gather (x : NdTensor R) (H W : nat) : outcome (NdTensor R) :=
  match shape x with
  | [B; L; C] =>
      if negb (L =? H * W) then Raised AssertionError
      else
        do* x := view x [Some B; Some H; Some W; Some C] in
        let pad_input := (H mod 2 =? 1) || (W mod 2 =? 1) in
        do* x := (if pad_input then pad_right_bottom x (W mod 2) (H mod 2)
                  else Done x) in
        do* x0 := every_other x 0 0 in
        do* x1 := every_other x 1 0 in
        do* x2 := every_other x 0 1 in
        do* x3 := every_other x 1 1 in
        do* x := cat_last x0 x1 x2 x3 in
        view x [Some B; None; Some (4 * C)]
  | _ => Raised UnpackError
  end.

(** The resolution [(n + 1) // 2] that [BasicLayer.forward] reports for the
    merged feature map. *)
Definition downsampled (n : nat) : nat := (n + 1) / 2.

(** The element at [(b, l, c)] of a 3-d tensor. *)
Definition at3 {A : Type} (x : NdTensor A) (b l c : nat) : A :=
  data x (ravel (shape x) [b; l; c]).

End Merging.

Module MergingExamples.
Import Swin.

(** The tokens of one image of three rows and three columns, one channel. *)
Definition tokens_odd : NdTensor R := {| shape := [1; 3 * 3; 1]; data := INR |}.

End MergingExamples.

(** ** The window path of a Swin block *)

Module Block.
Import Swin Merging.
Local Open Scope nat_scope.

(** The attributes of [SwinTransformerBlock] that its forward pass reads to
    lay out the windows; [H] and [W] are set by [BasicLayer.forward]. *)
Record SwinTransformerBlock : Type :=
  { window_size : nat; shift_size : nat; H : nat; W : nat }.

(** The source position of position [i] after a roll by [shift] along an
    axis of extent [n]. *)
Definition rolled_from (n : nat) (shift : Z) (i : nat) : nat :=
  Z.to_nat ((Z.of_nat i - shift) mod Z.of_nat n).

(** [torch.roll(x, shifts=(shift, shift), dims=(1, 2))] of a 4-d tensor *)
Definition roll_hw (x : NdTensor R) (shift : Z) : outcome (NdTensor R) :=
  match shape x with
  | [B; Hp; Wp; C] =>
      Done (from_index4 0%R [B; Hp; Wp; C]
              (fun b h w c => at4 x b (rolled_from Hp shift h) (rolled_from Wp shift w) c))
  | _ => Raised TupleIndexError
  end.

(** [x[:, :H, :W, :].contiguous()] *)
Definition crop_hw (x : NdTensor R) (H W : nat) : outcome (NdTensor R) :=
  match shape x with
  | [B; Hp; Wp; C] =>
      Done (from_index4 0%R [B; Nat.min H Hp; Nat.min W Wp; C]
              (fun b h w c => at4 x b h w c))
  | _ => Raised TupleIndexError
  end.

(** [SwinTransformerBlock.forward] between the first normalisation and the
    residual connection: padding, cyclic shift, windows, attention, and
    back. The attention [attn] receives the windows and the mask. *)
Definition window_path {M : Type}
           (attn : NdTensor R -> option M -> outcome (NdTensor R))
           (self : SwinTransformerBlock) (x : NdTensor R) (mask_matrix : M)
  : outcome (NdTensor R) :=
  match shape x with
  | [B; L; C] =>
      if negb (L =? H self * W self) then Raised AssertionError
      else
        do* x := view x [Some B; Some (H self); Some (W self); Some C] in
        do* pad_r := pad_amount (window_size self) (W self) in
        do* pad_b := pad_amount (window_size self) (H self) in
        do* x := pad_right_bottom x pad_r pad_b in
        match shape x with
        | [_; Hp; Wp; _] =>
            do* shifted_x :=
              (if 0 <? shift_size self
               then roll_hw x (- Z.of_nat (shift_size self)) else Done x) in
            let attn_mask :=
              if 0 <? shift_size self then Some mask_matrix else None in
            do* x_windows := window_partition shifted_x (window_size self) in
            do* x_windows :=
              view x_windows [None; Some (window_size self * window_size self);
                              Some C] in
            do* attn_windows := attn x_windows attn_mask in
            do* attn_windows :=
              view attn_windows [None; Some (window_size self);
                                 Some (window_size self); Some C] in
            do* shifted_x := window_reverse attn_windows (window_size self) Hp Wp in
            do* x :=
              (if 0 <? shift_size self
               then roll_hw shifted_x (Z.of_nat (shift_size self))
               else Done shifted_x) in
            do* x :=
              (if (0 <? pad_r) || (0 <? pad_b)
               then crop_hw x (H self) (W self) else Done x) in
            view x [Some B; Some (H self * W self); Some C]
        | _ => Raised UnpackError
        end
  | _ => Raised UnpackError
  end.

(** The 4-d tensor [t] has shape [s] and the elements [g]. *)
Definition is_map4 (t : NdTensor R) (s : list nat)
           (g : nat -> nat -> nat -> nat -> R) : Prop :=
  shape t = s /\
  forall b h w c, valid_index s [b; h; w; c] -> at4 t b h w c = g b h w c.

End Block.

Module BlockExamples.
Import Swin Block.

(** A block with windows of two by two pixels, shifted by one, on a
    feature map of three rows and three columns. *)
Definition block_shifted : SwinTransformerBlock :=
  {| window_size := 2; shift_size := 1; H := 3; W := 3 |}.

End BlockExamples.

(** ** The losses on dictionaries that may lack an entry *)

Module CriterionDicts.
Import Tensor Costs Matcher MaskLosses Criterion.
Local Open Scope R_scope.

(** The dictionary [outputs] as the losses read it: the entry under
    [PREDICTIONS_LOGITS_KEY] and the one under [PREDICTIONS_MASKS_KEY],
    each absent when the dictionary lacks the key. *)
Record OutputsDict : Type :=
  { logits_entry : option (Tensor3 R);
    masks_entry : option (Tensor4 R) }.

(** The dictionary [labels]: the entries under [TARGETS_MASKS_KEY] and
    [TARGETS_LABELS_KEY]. *)
Record LabelsDict : Type :=
  { pixel_entry : option (Tensor4 R);
    classes_entry : option (Tensor2 Z) }.

(** [d[key]] *)
Definition subscript {A : Type} (entry : option A) : result A :=
  match entry with
  | Some v => Ok v
  | None => Err KeyError
  end.

(** [loss_labels], each dictionary read where the source reads it *)
Definition loss_labels (self : MaskFormerLoss) (outputs : OutputsDict)
           (labels : LabelsDict) (indices : Indices) (num_masks : R)
  : result (gmap string R) :=
  let* pred_logits := subscript (logits_entry outputs) in
  let b := dim3_0 pred_logits in
  let q := dim3_1 pred_logits in
  let* idx := get_src_permutation_idx indices in
  let* classes := subscript (classes_entry labels) in
  let* picked :=
    mapM (fun p => take (fst p) (snd (snd p)))
         (combine (unbind2 classes) indices) in
  let* target_classes_o := cat picked in
  let target_classes := mkT2 b q (fun _ _ => Z.of_nat (num_classes self)) in
  let* target_classes := index_put target_classes idx target_classes_o in
  let* loss_ce :=
    cross_entropy (rearrange_bqc_bcq pred_logits) target_classes (empty_weight self) in
  Ok {[ "loss_cross_entropy"%string := loss_ce ]}.

(** [loss_masks], each dictionary read where the source reads it *)
Definition loss_masks (self : MaskFormerLoss) (outputs : OutputsDict)
           (labels : LabelsDict) (indices : Indices) (num_masks : R)
  : result (gmap string R) :=
  let* src_idx := get_src_permutation_idx indices in
  let* tgt_idx := get_tgt_permutation_idx indices in
  let* pred_masks := subscript (masks_entry outputs) in
  let* pred_masks := index_pairs pred_masks src_idx in
  let* target_masks := subscript (pixel_entry labels) in
  let* target_masks := index_pairs target_masks tgt_idx in
  let pred_masks :=
    interpolate_bilinear pred_masks (dim3_1 target_masks) (dim3_2 target_masks) in
  let pred_masks := rearrange_q_hw pred_masks in
  let target_masks := rearrange_q_hw target_masks in
  let* target_masks := view_as target_masks pred_masks in
  let* loss_mask := sigmoid_focal_loss pred_masks target_masks num_masks 0.25 2 in
  let* loss_dice := dice_loss pred_masks target_masks num_masks in
  Ok {[ "loss_mask"%string := loss_mask; "loss_dice"%string := loss_dice ]}.

(** [get_loss] *)
Definition get_loss (self : MaskFormerLoss) (loss : string) (outputs : OutputsDict)
           (labels : LabelsDict) (indices : Indices) (num_masks : R)
  : result (gmap string R) :=
  let loss_map
    : gmap string (OutputsDict -> LabelsDict -> Indices -> R -> result (gmap string R)) :=
    {[ "labels"%string := loss_labels self; "masks"%string := loss_masks self ]} in
  match loss_map !! loss with
  | None => Err KeyError
  | Some f => f outputs labels indices num_masks
  end.

(** The dictionaries that hold the given predictions and targets. *)
Definition outputs_dict (o : Outputs) : OutputsDict :=
  {| logits_entry := Some (preds_logits o); masks_entry := Some (preds_masks o) |}.

Definition labels_dict (l : Labels) : LabelsDict :=
  {| pixel_entry := Some (pixel l); classes_entry := Some (classes l) |}.

End CriterionDicts.

Module CriterionDictExamples.
Import Matcher CriterionDicts.

(** The predictions of the example without the class logits. *)
Definition outputs_without_logits : OutputsDict :=
  {| logits_entry := None;
     masks_entry := Some (preds_masks Examples.outputs_one) |}.

End CriterionDictExamples.

(** * Facts *)

(** ** The pairwise costs *)

Module CostFacts.
Import Tensor Costs CostSpec.
Local Open Scope R_scope.

Lemma sigmoid_bounds (x : R) : 0 < sigmoid x < 1.
Proof.
  unfold sigmoid.
  pose proof (exp_pos (- x)) as He.
  split.
  - apply Rdiv_lt_0_compat; lra.
  - apply (Rmult_lt_reg_r (1 + exp (- x))); [lra|].
    unfold Rdiv. rewrite Rmult_assoc, Rinv_l by lra. lra.
Qed.


Lemma rsum_shift (n : nat) (f : nat -> R) :
  rsum (S n) f = f O + rsum n (fun i => f (S i)).
Proof.
  induction n as [|n IH].
  - simpl. lra.
  - change (rsum (S (S n)) f) with (rsum (S n) f + f (S n)).
    rewrite IH. simpl. lra.
Qed.

Lemma rsum_total (n : nat) (f : nat -> R) :
  rsum n f = total (List.map f (seq 0 n)).
Proof.
  revert f. induction n as [|n IH]; intros f.
  - reflexivity.
  - rewrite rsum_shift, IH. simpl. rewrite <- seq_shift, List.map_map. reflexivity.
Qed.

Lemma rsum_dot (n : nat) (f g : nat -> R) :
  rsum n (fun c => f c * g c) = dot (List.map f (seq 0 n)) (List.map g (seq 0 n)).
Proof.
  revert f g. induction n as [|n IH]; intros f g.
  - reflexivity.
  - rewrite rsum_shift, (IH (fun i => f (S i)) (fun i => g (S i))). simpl.
    rewrite <- seq_shift, !List.map_map. reflexivity.
Qed.

Lemma rsum_ext (n : nat) (f g : nat -> R) :
  (forall i, (i < n)%nat -> f i = g i) -> rsum n f = rsum n g.
Proof.
  induction n as [|n IH]; intros H; simpl; [reflexivity|].
  rewrite IH, H by (intros; try apply H; lia). reflexivity.
Qed.

Lemma rsum_le (n : nat) (f g : nat -> R) :
  (forall i, (i < n)%nat -> f i <= g i) -> rsum n f <= rsum n g.
Proof.
  induction n as [|n IH]; intros H; simpl; [lra|].
  assert (rsum n f <= rsum n g) by (apply IH; intros; apply H; lia).
  assert (f n <= g n) by (apply H; lia). lra.
Qed.

Lemma rsum_plus (n : nat) (f g : nat -> R) :
  rsum n (fun i => f i + g i) = rsum n f + rsum n g.
Proof. induction n as [|n IH]; simpl; [lra|rewrite IH; lra]. Qed.

Lemma rsum_scal (n : nat) (a : R) (f : nat -> R) :
  rsum n (fun i => a * f i) = a * rsum n f.
Proof. induction n as [|n IH]; simpl; [lra|rewrite IH; lra]. Qed.

Lemma rsum_nonneg (n : nat) (f : nat -> R) :
  (forall i, (i < n)%nat -> 0 <= f i) -> 0 <= rsum n f.
Proof.
  induction n as [|n IH]; intros H; simpl; [lra|].
  assert (0 <= rsum n f) by (apply IH; intros; apply H; lia).
  assert (0 <= f n) by (apply H; lia). lra.
Qed.

(** Broadcasting *)
Lemma bdim_same (a : nat) : bdim a a = Some a.
Proof. unfold bdim. rewrite Nat.eqb_refl. reflexivity. Qed.

Lemma bdim_one_r (a : nat) : bdim a 1 = Some a.
Proof.
  unfold bdim. destruct (a =? 1)%nat eqn:E; [reflexivity|]. reflexivity.
Qed.

Lemma bdim_one_l (b : nat) : bdim 1 b = Some b.
Proof.
  unfold bdim. destruct (1 =? b)%nat eqn:E.
  - apply Nat.eqb_eq in E. subst. reflexivity.
  - reflexivity.
Qed.

Lemma bidx_lt (n i : nat) : (i < n)%nat -> bidx n i = i.
Proof.
  unfold bidx. intros H. destruct (n =? 1)%nat eqn:E; [|reflexivity].
  apply Nat.eqb_eq in E. lia.
Qed.

Lemma bidx_one (i : nat) : bidx 1 i = O.
Proof. reflexivity. Qed.


(** The outcome of [pair_wise_dice_loss] when the flattened widths agree. *)
Lemma pair_wise_dice_loss_ok (inputs labels : Tensor2 R) :
  cols2 inputs = cols2 labels ->
  exists loss,
    pair_wise_dice_loss inputs labels = Ok loss /\
    rows2 loss = rows2 inputs /\ cols2 loss = rows2 labels /\
    forall q t, (q < rows2 inputs)%nat -> (t < rows2 labels)%nat ->
      get2 loss q t =
        1 - (2 * rsum (cols2 inputs) (fun c => sigmoid (get2 inputs q c) * get2 labels t c) + 1)
            / (rsum (cols2 inputs) (fun c => sigmoid (get2 inputs q c))
               + rsum (cols2 labels) (get2 labels t) + 1).
Proof.
  intros Hc.
  assert (E : (cols2 inputs =? cols2 labels)%nat = true) by (apply Nat.eqb_eq; exact Hc).
  unfold pair_wise_dice_loss, flatten1, einsum_nc_mc_nm. simpl.
  rewrite E. simpl.
  unfold broadcast2. simpl.
  rewrite bdim_one_r, bdim_one_l. simpl.
  rewrite !bdim_same. simpl.
  eexists. split; [reflexivity|]. simpl.
  repeat split.
  intros q t Hq Ht.
  rewrite !(bidx_lt _ q Hq), !(bidx_lt _ t Ht). reflexivity.
Qed.

(** C7: for prediction logits [preds] and target masks [targets] of equal
    flattened width, [pair_wise_dice_loss] returns a matrix with one row per
    prediction and one column per target, and its entry (q, t) is
    1 - (2 * dot(sigmoid(preds_q), targets_t) + 1)
        / (sum(sigmoid(preds_q)) + sum(targets_t) + 1). *)
Theorem pair_wise_dice_loss_entries (preds targets : Tensor2 R) :
  cols2 preds = cols2 targets ->
  exists loss,
    pair_wise_dice_loss preds targets = Ok loss /\
    rows2 loss = rows2 preds /\ cols2 loss = rows2 targets /\
    forall q t, (q < rows2 preds)%nat -> (t < rows2 targets)%nat ->
      get2 loss q t = dice_cost (row preds q) (row targets t).
Proof.
  intros Hc.
  destruct (pair_wise_dice_loss_ok preds targets Hc) as (loss & Hok & Hr & Hcl & He).
  exists loss. repeat split; try assumption.
  intros q t Hq Ht. rewrite (He q t Hq Ht).
  unfold dice_cost, row.
  rewrite List.map_map.
  rewrite <- (rsum_total (cols2 preds) (fun c => sigmoid (get2 preds q c))).
  rewrite <- (rsum_total (cols2 targets) (get2 targets t)).
  rewrite <- Hc.
  rewrite <- (rsum_dot (cols2 preds) (fun c => sigmoid (get2 preds q c)) (get2 targets t)).
  reflexivity.
Qed.



Lemma binary_row_nonneg (targets : Tensor2 R) (t : nat) :
  binary targets -> (t < rows2 targets)%nat ->
  0 <= rsum (cols2 targets) (get2 targets t).
Proof.
  intros Hb Ht. apply rsum_nonneg. intros c Hcl.
  destruct (Hb t c Ht Hcl) as [->| ->]; lra.
Qed.

Lemma sigmoid_row_nonneg (preds : Tensor2 R) (q : nat) :
  0 <= rsum (cols2 preds) (fun c => sigmoid (get2 preds q c)).
Proof.
  apply rsum_nonneg. intros c _. pose proof (sigmoid_bounds (get2 preds q c)). lra.
Qed.

(** Twice the overlap never exceeds the two areas together. *)
Lemma overlap_le_areas (preds targets : Tensor2 R) (q t : nat) :
  binary targets -> (t < rows2 targets)%nat -> cols2 preds = cols2 targets ->
  0 <= rsum (cols2 preds) (fun c => sigmoid (get2 preds q c) * get2 targets t c)
  /\ 2 * rsum (cols2 preds) (fun c => sigmoid (get2 preds q c) * get2 targets t c)
     <= rsum (cols2 preds) (fun c => sigmoid (get2 preds q c))
        + rsum (cols2 targets) (get2 targets t).
Proof.
  intros Hb Ht Hc. split.
  - apply rsum_nonneg. intros c Hcl. rewrite Hc in Hcl.
    pose proof (sigmoid_bounds (get2 preds q c)).
    destruct (Hb t c Ht Hcl) as [->| ->]; lra.
  - rewrite <- Hc, <- rsum_scal, <- rsum_plus.
    apply rsum_le. intros c Hcl. rewrite Hc in Hcl.
    pose proof (sigmoid_bounds (get2 preds q c)).
    destruct (Hb t c Ht Hcl) as [->| ->]; lra.
Qed.




(** The outcome of [pair_wise_sigmoid_focal_loss] past the check of
    [alpha]: a shape error of [einsum], or the cost matrix. *)
Lemma pair_wise_sigmoid_focal_loss_nonneg_alpha
      (inputs labels : Tensor2 R) (alpha gamma : R) :
  0 <= alpha ->
  (cols2 inputs <> cols2 labels /\
   exists msg, pair_wise_sigmoid_focal_loss inputs labels alpha gamma
               = Err (RuntimeError msg))
  \/
  (cols2 inputs = cols2 labels /\
   exists loss,
     pair_wise_sigmoid_focal_loss inputs labels alpha gamma = Ok loss /\
     rows2 loss = rows2 inputs /\ cols2 loss = rows2 labels /\
     forall q t, (q < rows2 inputs)%nat -> (t < rows2 labels)%nat ->
       get2 loss q t
       = focal_cost alpha gamma (row inputs q) (row labels t) / INR (cols2 inputs)).
Proof.
  intros Ha.
  unfold pair_wise_sigmoid_focal_loss.
  destruct (Rlt_dec alpha 0) as [Hneg|_]; [lra|].
  unfold broadcast2. simpl. rewrite !bdim_same. simpl.
  unfold einsum_nc_mc_nm. simpl.
  destruct (cols2 inputs =? cols2 labels)%nat eqn:E.
  - apply Nat.eqb_eq in E. right. split; [assumption|].
    simpl. rewrite !bdim_same. simpl.
    eexists. split; [reflexivity|]. simpl. repeat split.
    intros q t Hq Ht.
    rewrite !(bidx_lt _ q Hq), !(bidx_lt _ t Ht).
    f_equal. unfold focal_cost, row. rewrite !List.map_map, <- E.
    rewrite <- (rsum_dot (cols2 inputs)
      (fun c => Rpower (1 - sigmoid (get2 inputs q c)) gamma
                * binary_cross_entropy_with_logits (get2 inputs q c) 1 * alpha)
      (get2 labels t)).
    rewrite <- (rsum_dot (cols2 inputs)
      (fun c => Rpower (sigmoid (get2 inputs q c)) gamma
                * binary_cross_entropy_with_logits (get2 inputs q c) 0 * (1 - alpha))
      (fun c => 1 - get2 labels t c)).
    f_equal; apply rsum_ext; intros c Hcl; rewrite !(bidx_lt _ c Hcl); reflexivity.
  - apply Nat.eqb_neq in E. left. split; [assumption|].
    simpl. eexists. reflexivity.
Qed.

(** C9: [pair_wise_sigmoid_focal_loss] raises [ValueError] exactly when
    [alpha < 0]; for [alpha >= 0] and inputs of the same flattened width it
    returns the matrix, one row per prediction and one column per target, of
    the focal costs divided by the flattened spatial size. *)
Theorem pair_wise_sigmoid_focal_loss_alpha
        (inputs labels : Tensor2 R) (alpha gamma : R) :
  ((exists msg, pair_wise_sigmoid_focal_loss inputs labels alpha gamma
                = Err (ValueError msg)) <-> alpha < 0)
  /\
  (0 <= alpha -> cols2 inputs = cols2 labels ->
   exists loss,
     pair_wise_sigmoid_focal_loss inputs labels alpha gamma = Ok loss /\
     rows2 loss = rows2 inputs /\ cols2 loss = rows2 labels /\
     forall q t, (q < rows2 inputs)%nat -> (t < rows2 labels)%nat ->
       get2 loss q t
       = focal_cost alpha gamma (row inputs q) (row labels t) / INR (cols2 inputs)).
Proof.
  split.
  - split.
    + intros [msg Hmsg].
      destruct (Rlt_le_dec alpha 0) as [Hneg|Hpos]; [assumption|].
      destruct (pair_wise_sigmoid_focal_loss_nonneg_alpha inputs labels alpha gamma Hpos)
        as [(_ & m & Hm)|(_ & loss & Hl & _)];
        rewrite Hmsg in *; discriminate.
    + intros Hneg. unfold pair_wise_sigmoid_focal_loss.
      destruct (Rlt_dec alpha 0) as [_|Hn]; [|contradiction].
      eexists. reflexivity.
  - intros Ha Hc.
    destruct (pair_wise_sigmoid_focal_loss_nonneg_alpha inputs labels alpha gamma Ha)
      as [(Hne & _)|(_ & H)]; [contradiction|exact H].
Qed.

(** *** The theorems at concrete masks *)

Lemma targets_left_binary : binary Examples.targets_left.
Proof.
  intros t c Ht Hc. simpl in Ht, Hc.
  destruct t as [|t]; [|lia].
  destruct c as [|[|c]]; [right|left|lia]; reflexivity.
Qed.

Lemma pair_wise_dice_loss_entries_witness :
  exists loss,
    pair_wise_dice_loss Examples.preds_low Examples.targets_left = Ok loss /\
    rows2 loss = 1%nat /\ cols2 loss = 1%nat /\
    forall q t, (q < 1)%nat -> (t < 1)%nat ->
      get2 loss q t
      = dice_cost (row Examples.preds_low q) (row Examples.targets_left t).
Proof.
  apply (pair_wise_dice_loss_entries Examples.preds_low Examples.targets_left).
  reflexivity.
Defined.



Lemma pair_wise_sigmoid_focal_loss_alpha_witness :
  exists loss,
    pair_wise_sigmoid_focal_loss Examples.preds_low Examples.targets_left 0.25 2
    = Ok loss /\
    rows2 loss = 1%nat /\ cols2 loss = 1%nat /\
    forall q t, (q < 1)%nat -> (t < 1)%nat ->
      get2 loss q t
      = focal_cost 0.25 2 (row Examples.preds_low q) (row Examples.targets_left t)
        / INR 2.
Proof.
  apply (proj2 (pair_wise_sigmoid_focal_loss_alpha
                  Examples.preds_low Examples.targets_left 0.25 2)).
  - lra.
  - reflexivity.
Defined.

End CostFacts.

(** ** The exhaustive solver *)

Module ExhaustiveFacts.
Import Tensor Matcher Exhaustive.

Lemma picks_perm (pool : list nat) (x : nat) (rest : list nat) :
  List.In (x, rest) (picks pool) -> Permutation (x :: rest) pool.
Proof.
  revert x rest. induction pool as [|y pool IH]; intros x rest Hin; [destruct Hin|].
  simpl in Hin. destruct Hin as [Heq|Hin].
  - inversion Heq; subst. apply Permutation_refl.
  - apply List.in_map_iff in Hin as ([z r] & Heq & Hin). simpl in Heq.
    inversion Heq; subst.
    eapply perm_trans; [apply perm_swap|].
    apply perm_skip. apply IH. assumption.
Qed.

Lemma arrangements_form (k : nat) (pool a : list nat) :
  List.NoDup pool -> List.In a (arrangements k pool) ->
  List.length a = k /\ List.NoDup a /\ List.incl a pool.
Proof.
  revert pool a. induction k as [|k IH]; intros pool a Hnd Hin.
  - destruct Hin as [<-|[]]. repeat split; [constructor|intros x []].
  - simpl in Hin. apply List.in_flat_map in Hin as ([x rest] & Hp & Hin).
    apply List.in_map_iff in Hin as (a' & <- & Hin). simpl in *.
    apply picks_perm in Hp.
    assert (Hnd' : List.NoDup (x :: rest))
      by (eapply Permutation_NoDup; [apply Permutation_sym; exact Hp|exact Hnd]).
    inversion Hnd' as [|? ? Hx Hrest]; subst.
    destruct (IH rest a' Hrest Hin) as (Hlen & Hnda & Hincl).
    repeat split.
    + simpl. congruence.
    + constructor; [|assumption]. intros Hxa. apply Hx, Hincl, Hxa.
    + intros y [<-|Hy].
      * eapply Permutation_in; [exact Hp|left; reflexivity].
      * eapply Permutation_in; [exact Hp|right; apply Hincl, Hy].
Qed.

Lemma arrangements_nonempty (k : nat) (pool : list nat) :
  (k <= List.length pool)%nat -> arrangements k pool <> [].
Proof.
  revert pool. induction k as [|k IH]; intros pool Hk; [discriminate|].
  destruct pool as [|x pool]; [simpl in Hk; lia|].
  simpl in Hk. simpl.
  specialize (IH pool ltac:(lia)).
  destruct (arrangements k pool) as [|a l]; [contradiction|]. discriminate.
Qed.

Lemma cheapest_In {A : Type} (cost : A -> R) (best : A) (l : list A) :
  List.In (cheapest cost best l) (best :: l).
Proof.
  revert best. induction l as [|x l IH]; intros best; [left; reflexivity|].
  simpl. destruct (Rlt_dec (cost x) (cost best)).
  - right. apply IH.
  - destruct (IH best) as [H|H]; [left; exact H|right; right; exact H].
Qed.

Lemma seq_lt (n : nat) : List.Forall (fun i => (i < n)%nat) (seq 0 n).
Proof. apply List.Forall_forall. intros i Hi. apply List.in_seq in Hi. lia. Qed.

Lemma incl_seq_lt (a : list nat) (n : nat) :
  List.incl a (seq 0 n) -> List.Forall (fun i => (i < n)%nat) a.
Proof.
  intros H. apply List.Forall_forall. intros i Hi. apply H, List.in_seq in Hi. lia.
Qed.

Lemma exhaustive_assignment_form (m : Tensor2 R) :
  assignment_form (rows2 m) (cols2 m) (exhaustive_assignment m).
Proof.
  unfold exhaustive_assignment.
  destruct (rows2 m <=? cols2 m)%nat eqn:E.
  - apply Nat.leb_le in E.
    pose proof (arrangements_nonempty (rows2 m) (seq 0 (cols2 m))) as Hne.
    rewrite List.length_seq in Hne. specialize (Hne E).
    assert (Hall : forall rc,
      List.In rc (List.map (fun cs => (seq 0 (rows2 m), cs))
                           (arrangements (rows2 m) (seq 0 (cols2 m)))) ->
      assignment_form (rows2 m) (cols2 m) rc).
    { intros rc Hin. apply List.in_map_iff in Hin as (cs & <- & Hin).
      destruct (arrangements_form _ _ _ (List.seq_NoDup _ _) Hin) as (Hl & Hnd & Hi).
      unfold assignment_form. simpl. rewrite List.length_seq, Hl.
      rewrite Nat.min_l by assumption.
      repeat split; auto using List.seq_NoDup, seq_lt, incl_seq_lt. }
    destruct (List.map _ _) as [|c cs] eqn:Ec.
    + apply List.map_eq_nil in Ec. contradiction.
    + apply Hall. apply cheapest_In.
  - apply Nat.leb_gt in E.
    pose proof (arrangements_nonempty (cols2 m) (seq 0 (rows2 m))) as Hne.
    rewrite List.length_seq in Hne. specialize (Hne ltac:(lia)).
    assert (Hall : forall rc,
      List.In rc (List.map (fun rs => (rs, seq 0 (cols2 m)))
                           (arrangements (cols2 m) (seq 0 (rows2 m)))) ->
      assignment_form (rows2 m) (cols2 m) rc).
    { intros rc Hin. apply List.in_map_iff in Hin as (rs & <- & Hin).
      destruct (arrangements_form _ _ _ (List.seq_NoDup _ _) Hin) as (Hl & Hnd & Hi).
      unfold assignment_form. simpl. rewrite List.length_seq, Hl.
      rewrite Nat.min_r by lia.
      repeat split; auto using List.seq_NoDup, seq_lt, incl_seq_lt. }
    destruct (List.map _ _) as [|c cs] eqn:Ec.
    + apply List.map_eq_nil in Ec. contradiction.
    + apply Hall. apply cheapest_In.
Qed.

End ExhaustiveFacts.

(** ** The matcher *)

Module MatcherFacts.
Import Tensor Costs CostSpec CostFacts Matcher.
Local Open Scope nat_scope.

Lemma mapM_Forall {A B : Type} (f : A -> result B) (P : B -> Prop) (l : list A) :
  List.Forall (fun a => exists b, f a = Ok b /\ P b) l ->
  exists bs, mapM f l = Ok bs /\ List.length bs = List.length l /\ List.Forall P bs.
Proof.
  induction 1 as [|a l (b & Hb & HP) _ (bs & Hbs & Hlen & HF)].
  - exists []. repeat split. constructor.
  - exists (b :: bs). simpl. rewrite Hb. simpl. rewrite Hbs. simpl.
    repeat split; [congruence|constructor; assumption].
Qed.

Lemma zip4_length {A B C D : Type} (la : list A) (lb : list B) (lc : list C)
      (ld : list D) :
  List.length (zip4 la lb lc ld)
  = Nat.min (Nat.min (List.length la) (List.length lb))
            (Nat.min (List.length lc) (List.length ld)).
Proof.
  revert lb lc ld. induction la as [|a la IH]; intros [|b lb] [|c lc] [|d ld];
    simpl; try lia.
  rewrite IH. lia.
Qed.

Lemma zip4_Forall {A B C D : Type} (PA : A -> Prop) (PB : B -> Prop)
      (PC : C -> Prop) (PD : D -> Prop) la lb lc ld :
  List.Forall PA la -> List.Forall PB lb -> List.Forall PC lc -> List.Forall PD ld ->
  List.Forall (fun s => PA (fst (fst (fst s))) /\ PB (snd (fst (fst s)))
                        /\ PC (snd (fst s)) /\ PD (snd s))
              (zip4 la lb lc ld).
Proof.
  intros HA. revert lb lc ld.
  induction HA as [|a la Ha _ IH]; intros lb lc ld HB HC HD; [constructor|].
  destruct HB as [|b lb Hb HB]; [constructor|].
  destruct HC as [|c lc Hc HC]; [constructor|].
  destruct HD as [|d ld Hd HD]; [constructor|].
  simpl. constructor; [simpl; auto|]. apply IH; assumption.
Qed.

Lemma Forall_map_seq {A : Type} (P : A -> Prop) (f : nat -> A) (n : nat) :
  (forall b, b < n -> P (f b)) -> List.Forall P (List.map f (seq 0 n)).
Proof.
  intros H. apply List.Forall_forall. intros x Hx.
  apply List.in_map_iff in Hx as (b & <- & Hb). apply List.in_seq in Hb.
  apply H. lia.
Qed.

Lemma normalize_index_valid (n : nat) (i : Z) :
  (- Z.of_nat n <= i < Z.of_nat n)%Z -> is_Some (normalize_index n i).
Proof.
  intros H. unfold normalize_index.
  destruct ((0 <=? i) && (i <? Z.of_nat n))%Z eqn:E1; [eexists; reflexivity|].
  destruct ((- Z.of_nat n <=? i) && (i <? 0))%Z eqn:E2; [eexists; reflexivity|].
  apply andb_false_iff in E1, E2.
  rewrite Z.leb_nle, Z.ltb_nlt in E1. rewrite Z.leb_nle, Z.ltb_nlt in E2. lia.
Qed.

Lemma index_columns_ok (x : Tensor2 R) (idx : Tensor1 Z) :
  valid_indices (cols2 x) idx ->
  exists y, index_columns x idx = Ok y /\ rows2 y = rows2 x /\ cols2 y = len1 idx.
Proof.
  intros Hv. unfold index_columns.
  replace (forallb _ (to_list idx)) with true.
  - eexists. split; [reflexivity|]. split; reflexivity.
  - symmetry. apply forallb_forall. intros i Hi.
    unfold to_list in Hi. apply List.in_map_iff in Hi as (t & <- & Ht).
    apply List.in_seq in Ht. apply bool_decide_eq_true.
    apply normalize_index_valid, Hv. lia.
Qed.

Lemma broadcast2_same {A B C : Type} (f : A -> B -> C) (x : Tensor2 A) (y : Tensor2 B) :
  rows2 x = rows2 y -> cols2 x = cols2 y ->
  exists z, broadcast2 f x y = Ok z /\ rows2 z = rows2 x /\ cols2 z = cols2 x.
Proof.
  intros Hr Hc. unfold broadcast2. rewrite <- Hr, <- Hc, !bdim_same.
  eexists. split; [reflexivity|]. split; reflexivity.
Qed.

Section WithSolver.

Variable linear_sum_assignment : Tensor2 R -> list nat * list nat.
Hypothesis linear_sum_assignment_form :
  forall m, assignment_form (rows2 m) (cols2 m) (linear_sum_assignment m).

Lemma assign_sample_ok (self : MaskFormerHungarianMatcher)
      (pred_probs : Tensor2 R) (pred_mask target_mask : Tensor3 R)
      (labels : Tensor1 Z) (nq nt : nat) :
  rows2 pred_probs = nq -> dim3_0 pred_mask = nq ->
  dim3_0 target_mask = nt -> len1 labels = nt ->
  dim3_1 pred_mask = dim3_1 target_mask -> dim3_2 pred_mask = dim3_2 target_mask ->
  valid_indices (cols2 pred_probs) labels ->
  exists rc,
    assign_sample self linear_sum_assignment (pred_probs, pred_mask, target_mask, labels)
    = Ok rc /\ assignment_form nq nt rc.
Proof.
  intros Hq Hq' Ht Ht' Hh Hw Hv.
  unfold assign_sample.
  destruct (index_columns_ok pred_probs labels Hv) as (picked & -> & Hpr & Hpc).
  simpl.
  assert (Hcols : cols2 (rearrange_q_hw pred_mask) = cols2 (rearrange_q_hw target_mask))
    by (simpl; congruence).
  assert (Hquarter : (0 <= 0.25)%R) by lra.
  destruct (pair_wise_sigmoid_focal_loss_nonneg_alpha
              (rearrange_q_hw pred_mask) (rearrange_q_hw target_mask) 0.25 2 Hquarter)
    as [(Hne & _)|(_ & cm & -> & Hmr & Hmc & _)]; [contradiction|].
  simpl.
  destruct (pair_wise_dice_loss_ok _ _ Hcols) as (cd & -> & Hdr & Hdc & _).
  simpl in *.
  destruct (broadcast2_same Rplus (map2d (Rmult (cost_mask self)) cm)
                            (map2d (Rmult (cost_class self)) (map2d Ropp picked)))
    as (partial & -> & Hpr' & Hpc'); [simpl; congruence|simpl; congruence|].
  simpl in *.
  destruct (broadcast2_same Rplus partial (map2d (Rmult (cost_dice self)) cd))
    as (cost_matrix & -> & Hcr & Hcc); [simpl; congruence|simpl; congruence|].
  simpl.
  eexists. split; [reflexivity|].
  replace nq with (rows2 cost_matrix) by congruence.
  replace nt with (cols2 cost_matrix) by congruence.
  apply linear_sum_assignment_form.
Qed.

Lemma as_tensor_int64_form (n m : nat) (rc : list nat * list nat) :
  assignment_form n m rc ->
  matched_form n m (as_tensor_int64 (fst rc), as_tensor_int64 (snd rc)).
Proof.
  intros (Hl1 & Hl2 & Hn1 & Hn2 & Hf1 & Hf2).
  unfold matched_form, as_tensor_int64. simpl.
  rewrite !List.length_map.
  repeat split; try assumption.
  - apply Injective_map_NoDup; [intros a b; apply Nat2Z.inj|assumption].
  - apply Injective_map_NoDup; [intros a b; apply Nat2Z.inj|assumption].
  - apply List.Forall_map. eapply List.Forall_impl; [|exact Hf1]. simpl. lia.
  - apply List.Forall_map. eapply List.Forall_impl; [|exact Hf2]. simpl. lia.
Qed.

(** C1: for a solver that answers in the documented form, and a batch whose
    logits and masks agree on the number Q of queries, whose class ids and
    masks agree on the number T of targets and whose class ids index the
    class axis, [forward] returns one pair of index arrays per sample; both
    arrays have length min(Q, T), neither repeats an index, prediction
    indices lie in [0, Q) and target indices in [0, T). *)
Theorem forward_matched_indices (self : MaskFormerHungarianMatcher)
        (outputs : Outputs) (labels : Labels) :
  dim3_1 (preds_logits outputs) = dim4_1 (preds_masks outputs) ->
  cols2 (classes labels) = dim4_1 (pixel labels) ->
  (forall b t, b < rows2 (classes labels) -> t < cols2 (classes labels) ->
     (- Z.of_nat (dim3_2 (preds_logits outputs)) <= get2 (classes labels) b t
      < Z.of_nat (dim3_2 (preds_logits outputs)))%Z) ->
  exists matched,
    forward self linear_sum_assignment outputs labels = Ok matched /\
    List.length matched
    = Nat.min (Nat.min (dim3_0 (preds_logits outputs)) (dim4_0 (preds_masks outputs)))
              (Nat.min (dim4_0 (pixel labels)) (rows2 (classes labels))) /\
    List.Forall (matched_form (dim4_1 (preds_masks outputs)) (dim4_1 (pixel labels)))
                matched.
Proof.
  intros HQ HT Hcls.
  set (nq := dim4_1 (preds_masks outputs)) in *.
  set (nt := dim4_1 (pixel labels)) in *.
  unfold forward.
  match goal with
  | |- context [mapM ?f ?l] =>
      destruct (mapM_Forall f (assignment_form nq nt) l) as (ind & Hind & Hlen & Hform)
  end.
  - eapply List.Forall_impl;
      [|apply (zip4_Forall
                 (fun p => rows2 p = nq /\ cols2 p = dim3_2 (preds_logits outputs))
                 (fun m => dim3_0 m = nq /\ dim3_1 m = dim4_2 (preds_masks outputs)
                           /\ dim3_2 m = dim4_3 (preds_masks outputs))
                 (fun m => dim3_0 m = nt /\ dim3_1 m = dim4_2 (preds_masks outputs)
                           /\ dim3_2 m = dim4_3 (preds_masks outputs))
                 (fun l => len1 l = nt
                           /\ valid_indices (dim3_2 (preds_logits outputs)) l))].
    + intros [[[p pm] tm] l]. simpl.
      intros ((Hp1 & Hp2) & (Hm1 & Hm2 & Hm3) & (Ht1 & Ht2 & Ht3) & (Hl1 & Hl2)).
      apply (assign_sample_ok self p pm tm l nq nt); try congruence.
      rewrite Hp2. assumption.
    + apply Forall_map_seq. intros b _. simpl. split; [exact HQ|reflexivity].
    + apply Forall_map_seq. intros b _. simpl. repeat split.
    + apply Forall_map_seq. intros b _. simpl. repeat split.
    + apply Forall_map_seq. intros b Hb. simpl. split; [exact HT|].
      intros t Ht. simpl in *. apply Hcls; assumption.
  - rewrite Hind. simpl. eexists. split; [reflexivity|]. split.
    + rewrite List.length_map, Hlen, zip4_length.
      unfold unbind3, unbind4, unbind2. rewrite !List.length_map, !List.length_seq.
      reflexivity.
    + apply List.Forall_map. eapply List.Forall_impl; [|exact Hform].
      intros rc. apply as_tensor_int64_form.
Qed.

End WithSolver.

(** *** The theorem at a batch of one image, with the exhaustive solver *)

Lemma forward_matched_indices_witness :
  exists matched,
    forward Examples.matcher_default Exhaustive.exhaustive_assignment
            Examples.outputs_one Examples.labels_one = Ok matched /\
    List.length matched = 1 /\
    List.Forall (matched_form 2 1) matched.
Proof.
  apply (forward_matched_indices
           Exhaustive.exhaustive_assignment
           ExhaustiveFacts.exhaustive_assignment_form
           Examples.matcher_default Examples.outputs_one Examples.labels_one).
  - reflexivity.
  - reflexivity.
  - intros b t Hb Ht. simpl in Hb, Ht.
    destruct b as [|b]; [|lia]. destruct t as [|t]; [|lia].
    simpl. lia.
Defined.

End MatcherFacts.

(** ** Loss normalisation *)

Module LossFacts.
Import Tensor Loss LossSpec.
Local Open Scope Q_scope.

(** What [get_num_masks] measures: the leading extent of the class tensor,
    that is the number of samples. *)
Lemma get_num_masks_local (labels : Matcher.Labels) :
  get_num_masks None labels
  = clamp_min (inject_Z (Z.of_nat (rows2 (Matcher.classes labels))) / 1) 1.
Proof. reflexivity. Qed.

(** C5: on a batch of one image with three targets and no distributed
    context, [get_num_masks] returns 1 (the batch size, clamped), whereas the
    batch holds three ground-truth targets. *)
Theorem get_num_masks_counts_samples :
  get_num_masks None Examples.labels_three = 1 /\
  total_targets Examples.labels_three = 3%nat /\
  num_masks_of_targets None Examples.labels_three = 3.
Proof. split; [|split]; reflexivity. Qed.

End LossFacts.

(** ** Panoptic assembly *)

Module PanopticFacts.
Import Panoptic PanopticSpec Examples.
Local Open Scope Q_scope.


(** The evaluation behind the counterexample: the first query owns one
    pixel; its own probability is at least one half on all four pixels, so
    the ratio on the unweighted mask is 1/4, below the threshold 0.8; on the
    tensor [original_area] reads only one pixel reaches one half, and the
    query is kept with segment id 1. *)
Lemma overlap_input_evaluation :
  remove_low_and_no_objects panoptic_model overlap_masks overlap_scores [0%Z; 1%Z]
  = Ok (overlap_masks, overlap_scores, [0%Z; 1%Z]) /\
  unweighted_area overlap_masks 0 = 4%Z /\
  original_area (scale_by_scores overlap_masks overlap_scores) 0 = 1%Z /\
  mask_k_area (argmax0 1 4 (scale_by_scores overlap_masks overlap_scores)) 0 = 1%Z /\
  Qgtb (true_divide 1 4) (overlap_mask_area_threshold panoptic_model) = false /\
  forward panoptic_model overlap_input
  = Ok (Some {| segmentation := [[1; 2; 2; 2]]%Z;
                segments :=
                  [ {| seg_id := 1; category_id := 0; seg_is_thing := true;
                       seg_label := "person" |};
                    {| seg_id := 2; category_id := 1; seg_is_thing := false;
                       seg_label := "sky" |} ] |}).
Proof.
  split; [vm_compute; reflexivity|]. split; [vm_compute; reflexivity|].
  split; [vm_compute; reflexivity|]. split; [vm_compute; reflexivity|].
  split; vm_compute; reflexivity.
Qed.


(** The ratio 4/5 is a float32 slightly above the Python float 0.8: a query
    that keeps four of its five pixels passes the threshold 0.8. *)
Lemma ratio_at_threshold_kept :
  Qgtb (true_divide 4 5) (overlap_mask_area_threshold panoptic_model) = true /\
  Qgtb (4 # 5) (overlap_mask_area_threshold panoptic_model) = false /\
  exists out,
    forward panoptic_model boundary_input = Ok (Some out) /\
    segmentation out = [[1; 1; 1; 1; 2]]%Z.
Proof.
  split; [vm_compute; reflexivity|]. split; [vm_compute; reflexivity|].
  eexists. split; vm_compute; reflexivity.
Qed.

(** A product just below one half is the float32 one half: the pixel
    counts in [original_area]. *)
Lemma rounded_product_counts :
  Qle_bool (1 # 2) ((8388609 # 16777216) * (16777214 # 16777216)) = false /\
  original_area (scale_by_scores [[[8388609 # 16777216]]] [16777214 # 16777216]) 0
  = 1%Z.
Proof. split; vm_compute; reflexivity. Qed.



(** C3: two surviving queries of the stuff class 1 on disjoint halves of the
    image, each keeping its whole region: the segmentation map carries id 1
    on both halves, and the segment list holds two records for class 1. *)
Theorem stuff_pair_two_records :
  forward panoptic_model stuff_pair_input
  = Ok (Some {| segmentation := [[1; 1; 1; 1]]%Z;
                segments :=
                  [ {| seg_id := 1; category_id := 1; seg_is_thing := false;
                       seg_label := "sky" |};
                    {| seg_id := 1; category_id := 1; seg_is_thing := false;
                       seg_label := "sky" |} ] |}).
Proof. vm_compute. reflexivity. Qed.

(** C4: for the queries sky, person, sky, car, the ids written are 1, 2, 1
    and 2: after the second sky query takes back id 1, the car is given
    id 2, which the person already holds. *)
Theorem segment_id_allocated_twice :
  exists out,
    forward panoptic_model four_query_input = Ok (Some out) /\
    List.map seg_id (segments out) = [1; 2; 1; 2]%Z /\
    List.map category_id (segments out) = [1; 0; 1; 2]%Z /\
    segmentation out = [[1; 2; 1; 2]]%Z.
Proof.
  eexists. split; [vm_compute; reflexivity|].
  split; [vm_compute; reflexivity|]. split; vm_compute; reflexivity.
Qed.

(** Whatever follows the first sample of the batch has no part in the
    result of [forward]. *)
Lemma forward_first_sample (self : MaskFormerForPanopticSegmentation)
      (p : Predictions) (s : list (Grid Q) * list Q * list Z)
      (rest : list (list (Grid Q) * list Q * list Z)) :
  samples p = s :: rest ->
  forward self p
  = (let* out := assemble self (height p) (width p) s in Ok (Some out)).
Proof.
  intros Hs. unfold forward. fold (samples p). rewrite Hs. reflexivity.
Qed.

(** C6: on a batch of two images, assembling each sample gives two outputs
    (a person, then a car); [forward] returns the first one only. *)
Theorem forward_returns_first_sample :
  assemble_each panoptic_model two_image_input
  = Ok [ {| segmentation := [[1]]%Z;
            segments := [ {| seg_id := 1; category_id := 0; seg_is_thing := true;
                             seg_label := "person" |} ] |};
         {| segmentation := [[1]]%Z;
            segments := [ {| seg_id := 1; category_id := 2; seg_is_thing := true;
                             seg_label := "car" |} ] |} ] /\
  forward panoptic_model two_image_input
  = Ok (Some {| segmentation := [[1]]%Z;
                segments := [ {| seg_id := 1; category_id := 0; seg_is_thing := true;
                                 seg_label := "person" |} ] |}).
Proof. split; vm_compute; reflexivity. Qed.

End PanopticFacts.

(** ** The losses on matched pairs *)

Module MaskLossFacts.
Import Tensor Costs CostSpec CostFacts MaskLosses.
Local Open Scope R_scope.

Lemma bce_nonneg (x z : R) :
  z = 0 \/ z = 1 -> 0 <= binary_cross_entropy_with_logits x z.
Proof.
  intros Hz. unfold binary_cross_entropy_with_logits.
  assert (Hln : 0 <= ln (1 + exp (- Rabs x))).
  { rewrite <- ln_1. pose proof (exp_pos (- Rabs x)).
    destruct (Req_dec (exp (- Rabs x)) 0) as [E|E]; [lra|].
    left. apply ln_increasing; lra. }
  pose proof (Rmax_l x 0). pose proof (Rmax_r x 0).
  destruct Hz as [-> | ->]; lra.
Qed.

Lemma Rpower_nonneg (x y : R) : 0 <= Rpower x y.
Proof. unfold Rpower. left. apply exp_pos. Qed.

(** The outcome of [dice_loss] on tensors of one shape. *)
Lemma dice_loss_ok (inputs labels : Tensor2 R) (num_masks : R) :
  rows2 inputs = rows2 labels -> cols2 inputs = cols2 labels ->
  dice_loss inputs labels num_masks
  = Ok (rsum (rows2 inputs) (fun i =>
          1 - (2 * rsum (cols2 inputs)
                     (fun c => sigmoid (get2 inputs i c) * get2 labels i c) + 1)
              / (rsum (cols2 inputs) (fun c => sigmoid (get2 inputs i c))
                 + rsum (cols2 labels) (get2 labels i) + 1))
        / num_masks).
Proof.
  intros Hr Hc. unfold dice_loss, flatten1, broadcast2, broadcast1. simpl.
  rewrite <- Hr, <- Hc, !bdim_same. simpl. rewrite !bdim_same. simpl.
  f_equal. f_equal. unfold sum_all. simpl.
  apply rsum_ext. intros i Hi. rewrite !(bidx_lt _ i Hi).
  do 4 f_equal.
  apply rsum_ext. intros c Hcl. rewrite !(bidx_lt _ c Hcl). reflexivity.
Qed.

(** X1: on prediction and target masks of one shape, [dice_loss] is the sum
    of the diagonal of the pairwise dice cost matrix divided by
    [num_masks]. *)
Theorem dice_loss_is_pairwise_diagonal (inputs labels : Tensor2 R) (num_masks : R) :
  rows2 inputs = rows2 labels -> cols2 inputs = cols2 labels ->
  exists pairwise,
    pair_wise_dice_loss inputs labels = Ok pairwise /\
    dice_loss inputs labels num_masks
    = Ok (diagonal_sum (rows2 inputs) pairwise / num_masks).
Proof.
  intros Hr Hc.
  destruct (pair_wise_dice_loss_ok inputs labels Hc) as (m & Hm & _ & _ & He).
  exists m. split; [assumption|].
  rewrite (dice_loss_ok inputs labels num_masks Hr Hc).
  f_equal. f_equal. unfold diagonal_sum.
  apply rsum_ext. intros i Hi. symmetry. apply He; [assumption|]. rewrite <- Hr. assumption.
Qed.

Lemma dice_term_range (inputs labels : Tensor2 R) (i : nat) :
  cols2 inputs = cols2 labels -> binary labels -> (i < rows2 labels)%nat ->
  0 <= 1 - (2 * rsum (cols2 inputs)
                 (fun c => sigmoid (get2 inputs i c) * get2 labels i c) + 1)
           / (rsum (cols2 inputs) (fun c => sigmoid (get2 inputs i c))
              + rsum (cols2 labels) (get2 labels i) + 1)
  <= 1.
Proof.
  intros Hc Hb Hi.
  destruct (overlap_le_areas inputs labels i i Hb Hi Hc) as [Hd0 Hd].
  pose proof (sigmoid_row_nonneg inputs i) as Hs.
  pose proof (binary_row_nonneg labels i Hb Hi) as Hl.
  set (D := rsum _ (fun c => sigmoid _ * _)) in *.
  set (S := rsum _ (fun c => sigmoid _)) in *.
  set (L := rsum _ (get2 labels i)) in *.
  assert (Hden : 0 < S + L + 1) by lra.
  assert (Hratio : 0 < (2 * D + 1) / (S + L + 1) <= 1).
  { split.
    - apply Rdiv_lt_0_compat; lra.
    - apply (Rmult_le_reg_r (S + L + 1)); [assumption|].
      unfold Rdiv. rewrite Rmult_assoc, Rinv_l by lra. lra. }
  lra.
Qed.

Lemma dice_value_range (inputs labels : Tensor2 R) (num_masks : R) :
  rows2 inputs = rows2 labels -> cols2 inputs = cols2 labels ->
  binary labels -> 0 < num_masks ->
  0 <= rsum (rows2 inputs) (fun i =>
         1 - (2 * rsum (cols2 inputs)
                    (fun c => sigmoid (get2 inputs i c) * get2 labels i c) + 1)
             / (rsum (cols2 inputs) (fun c => sigmoid (get2 inputs i c))
                + rsum (cols2 labels) (get2 labels i) + 1))
       / num_masks
  <= INR (rows2 inputs) / num_masks.
Proof.
  intros Hr Hc Hb Hn.
  set (term := fun i : nat => _).
  assert (Hsum : forall n, (n <= rows2 inputs)%nat -> 0 <= rsum n term <= INR n).
  { induction n as [|n IH]; intros Hle.
    - simpl. lra.
    - change (rsum (S n) term) with (rsum n term + term n).
      rewrite S_INR. specialize (IH ltac:(lia)).
      pose proof (dice_term_range inputs labels n Hc Hb ltac:(rewrite <- Hr; lia)) as Ht.
      fold (term n) in Ht. lra. }
  specialize (Hsum (rows2 inputs) ltac:(lia)).
  assert (Hinv : 0 < / num_masks) by (apply Rinv_0_lt_compat; assumption).
  unfold Rdiv. split; nra.
Qed.

(** X2: for binary target masks of the shape of the predictions and a
    positive [num_masks], [dice_loss] returns a value between 0 and the
    number of masks divided by [num_masks]. *)
Theorem dice_loss_range (inputs labels : Tensor2 R) (num_masks : R) :
  rows2 inputs = rows2 labels -> cols2 inputs = cols2 labels ->
  binary labels -> 0 < num_masks ->
  exists v,
    dice_loss inputs labels num_masks = Ok v /\
    0 <= v <= INR (rows2 inputs) / num_masks.
Proof.
  intros Hr Hc Hb Hn.
  eexists. split; [apply dice_loss_ok; assumption|].
  apply dice_value_range; assumption.
Qed.

(** The outcome of [sigmoid_focal_loss] on tensors of one shape. *)
Lemma sigmoid_focal_loss_ok (inputs labels : Tensor2 R) (num_masks alpha gamma : R) :
  rows2 inputs = rows2 labels -> cols2 inputs = cols2 labels ->
  sigmoid_focal_loss inputs labels num_masks alpha gamma
  = Ok (rsum (rows2 inputs) (fun i =>
          rsum (cols2 inputs)
               (fun c => focal_pixel alpha gamma (get2 inputs i c) (get2 labels i c))
          / INR (cols2 inputs))
        / num_masks).
Proof.
  intros Hr Hc. unfold sigmoid_focal_loss, bce_with_logits, broadcast2. simpl.
  rewrite <- Hr, <- Hc, !Nat.eqb_refl, !bdim_same. simpl.
  repeat (rewrite !bdim_same; simpl).
  unfold focal_pixel.
  destruct (Rge_dec alpha 0) as [Ha|Ha]; simpl.
  - repeat (rewrite !bdim_same; simpl).
    f_equal. f_equal. unfold sum_all. simpl.
    apply rsum_ext. intros i Hi. f_equal.
    apply rsum_ext. intros c Hcl.
    rewrite !(bidx_lt _ i Hi), !(bidx_lt _ c Hcl). reflexivity.
  - f_equal. f_equal. unfold sum_all. simpl.
    apply rsum_ext. intros i Hi. f_equal.
    apply rsum_ext. intros c Hcl.
    rewrite !(bidx_lt _ i Hi), !(bidx_lt _ c Hcl). reflexivity.
Qed.

Lemma focal_pixel_binary (alpha gamma x y : R) :
  0 <= alpha -> y = 0 \/ y = 1 ->
  focal_pixel alpha gamma x y
  = Rpower (1 - sigmoid x) gamma * binary_cross_entropy_with_logits x 1 * alpha * y
    + Rpower (sigmoid x) gamma * binary_cross_entropy_with_logits x 0 * (1 - alpha)
      * (1 - y).
Proof.
  intros Ha Hy. unfold focal_pixel.
  destruct (Rge_dec alpha 0) as [_|Hn]; [|lra].
  destruct Hy as [-> | ->].
  - replace (1 - (sigmoid x * 0 + (1 - sigmoid x) * (1 - 0))) with (sigmoid x) by ring.
    ring.
  - replace (1 - (sigmoid x * 1 + (1 - sigmoid x) * (1 - 1))) with (1 - sigmoid x) by ring.
    ring.
Qed.

(** X3: for binary target masks of the shape of the predictions and
    [alpha >= 0], [sigmoid_focal_loss] is the sum of the diagonal of the
    pairwise focal cost matrix divided by [num_masks]. *)
Theorem sigmoid_focal_loss_is_pairwise_diagonal
        (inputs labels : Tensor2 R) (num_masks alpha gamma : R) :
  rows2 inputs = rows2 labels -> cols2 inputs = cols2 labels ->
  binary labels -> 0 <= alpha ->
  exists pairwise,
    pair_wise_sigmoid_focal_loss inputs labels alpha gamma = Ok pairwise /\
    sigmoid_focal_loss inputs labels num_masks alpha gamma
    = Ok (diagonal_sum (rows2 inputs) pairwise / num_masks).
Proof.
  intros Hr Hc Hb Ha.
  destruct (pair_wise_sigmoid_focal_loss_nonneg_alpha inputs labels alpha gamma Ha)
    as [(Hne & _)|(_ & m & Hm & _ & _ & He)]; [contradiction|].
  exists m. split; [assumption|].
  rewrite (sigmoid_focal_loss_ok inputs labels num_masks alpha gamma Hr Hc).
  f_equal. f_equal. unfold diagonal_sum.
  apply rsum_ext. intros i Hi.
  rewrite (He i i Hi ltac:(rewrite <- Hr; exact Hi)).
  f_equal. unfold focal_cost, row. rewrite !List.map_map, <- Hc.
  rewrite <- (rsum_dot (cols2 inputs)
    (fun c => Rpower (1 - sigmoid (get2 inputs i c)) gamma
              * binary_cross_entropy_with_logits (get2 inputs i c) 1 * alpha)
    (get2 labels i)).
  rewrite <- (rsum_dot (cols2 inputs)
    (fun c => Rpower (sigmoid (get2 inputs i c)) gamma
              * binary_cross_entropy_with_logits (get2 inputs i c) 0 * (1 - alpha))
    (fun c => 1 - get2 labels i c)).
  rewrite <- rsum_plus.
  apply rsum_ext. intros c Hcl.
  apply focal_pixel_binary; [assumption|].
  apply Hb; [rewrite <- Hr; assumption|rewrite <- Hc; assumption].
Qed.

Lemma focal_pixel_nonneg (alpha gamma x y : R) :
  alpha <= 1 -> y = 0 \/ y = 1 -> 0 <= focal_pixel alpha gamma x y.
Proof.
  intros Ha Hy. unfold focal_pixel.
  pose proof (bce_nonneg x y Hy) as Hce.
  pose proof (Rpower_nonneg (1 - (sigmoid x * y + (1 - sigmoid x) * (1 - y))) gamma) as Hp.
  assert (Hl : 0 <= binary_cross_entropy_with_logits x y
                    * Rpower (1 - (sigmoid x * y + (1 - sigmoid x) * (1 - y))) gamma)
    by (apply Rmult_le_pos; assumption).
  destruct (Rge_dec alpha 0) as [Ha0|_]; [|exact Hl].
  apply Rmult_le_pos; [|exact Hl].
  destruct Hy as [-> | ->]; lra.
Qed.

Lemma focal_value_nonneg (inputs labels : Tensor2 R) (num_masks alpha gamma : R) :
  rows2 inputs = rows2 labels -> cols2 inputs = cols2 labels ->
  binary labels -> alpha <= 1 -> 0 < num_masks -> (0 < cols2 inputs)%nat ->
  0 <= rsum (rows2 inputs) (fun i =>
         rsum (cols2 inputs)
              (fun c => focal_pixel alpha gamma (get2 inputs i c) (get2 labels i c))
         / INR (cols2 inputs))
       / num_masks.
Proof.
  intros Hr Hc Hb Ha Hn Hw.
  assert (Hinv : 0 < / num_masks) by (apply Rinv_0_lt_compat; assumption).
  assert (Hcols : 0 < / INR (cols2 inputs))
    by (apply Rinv_0_lt_compat, lt_0_INR; assumption).
  apply Rmult_le_pos; [|lra].
  apply rsum_nonneg. intros i Hi.
  apply Rmult_le_pos; [|lra].
  apply rsum_nonneg. intros c Hcl.
  apply focal_pixel_nonneg; [assumption|].
  apply Hb; [rewrite <- Hr; assumption|rewrite <- Hc; assumption].
Qed.

(** X4: for binary target masks of the shape of the predictions, at least
    one pixel, [alpha <= 1] and a positive [num_masks], [sigmoid_focal_loss]
    returns a non-negative value. *)
Theorem sigmoid_focal_loss_nonneg
        (inputs labels : Tensor2 R) (num_masks alpha gamma : R) :
  rows2 inputs = rows2 labels -> cols2 inputs = cols2 labels ->
  binary labels -> alpha <= 1 -> 0 < num_masks -> (0 < cols2 inputs)%nat ->
  exists v,
    sigmoid_focal_loss inputs labels num_masks alpha gamma = Ok v /\ 0 <= v.
Proof.
  intros Hr Hc Hb Ha Hn Hw.
  eexists. split; [apply sigmoid_focal_loss_ok; assumption|].
  apply focal_value_nonneg; assumption.
Qed.

(** X5: a negative [alpha] is rejected by the pairwise focal cost only:
    [sigmoid_focal_loss] then returns the focal loss without the alpha
    weighting. *)
Theorem negative_alpha_only_rejected_pairwise
        (inputs labels : Tensor2 R) (num_masks alpha gamma : R) :
  rows2 inputs = rows2 labels -> cols2 inputs = cols2 labels -> alpha < 0 ->
  (exists msg, pair_wise_sigmoid_focal_loss inputs labels alpha gamma
               = Err (ValueError msg)) /\
  sigmoid_focal_loss inputs labels num_masks alpha gamma
  = Ok (rsum (rows2 inputs) (fun i =>
          rsum (cols2 inputs)
               (fun c => binary_cross_entropy_with_logits (get2 inputs i c)
                                                          (get2 labels i c)
                         * Rpower (1 - (sigmoid (get2 inputs i c) * get2 labels i c
                                        + (1 - sigmoid (get2 inputs i c))
                                          * (1 - get2 labels i c))) gamma)
          / INR (cols2 inputs))
        / num_masks).
Proof.
  intros Hr Hc Ha. split.
  - unfold pair_wise_sigmoid_focal_loss.
    destruct (Rlt_dec alpha 0) as [_|Hn]; [eexists; reflexivity|contradiction].
  - rewrite (sigmoid_focal_loss_ok inputs labels num_masks alpha gamma Hr Hc).
    do 2 f_equal. apply rsum_ext. intros i _. f_equal.
    apply rsum_ext. intros c _. unfold focal_pixel.
    destruct (Rge_dec alpha 0) as [Hge|_]; [lra|reflexivity].
Qed.

(** *** The theorems at concrete masks *)

Lemma dice_loss_is_pairwise_diagonal_witness :
  exists pairwise,
    pair_wise_dice_loss Examples.preds_low Examples.targets_left = Ok pairwise /\
    dice_loss Examples.preds_low Examples.targets_left 1
    = Ok (diagonal_sum 1 pairwise / 1).
Proof.
  apply (dice_loss_is_pairwise_diagonal Examples.preds_low Examples.targets_left 1);
    reflexivity.
Defined.

Lemma dice_loss_range_witness :
  exists v,
    dice_loss Examples.preds_low Examples.targets_left 1 = Ok v /\
    0 <= v <= INR 1 / 1.
Proof.
  apply (dice_loss_range Examples.preds_low Examples.targets_left 1).
  - reflexivity.
  - reflexivity.
  - exact targets_left_binary.
  - lra.
Defined.

Lemma sigmoid_focal_loss_is_pairwise_diagonal_witness :
  exists pairwise,
    pair_wise_sigmoid_focal_loss Examples.preds_low Examples.targets_left 0.25 2
    = Ok pairwise /\
    sigmoid_focal_loss Examples.preds_low Examples.targets_left 1 0.25 2
    = Ok (diagonal_sum 1 pairwise / 1).
Proof.
  apply (sigmoid_focal_loss_is_pairwise_diagonal
           Examples.preds_low Examples.targets_left 1 0.25 2).
  - reflexivity.
  - reflexivity.
  - exact targets_left_binary.
  - lra.
Defined.

Lemma sigmoid_focal_loss_nonneg_witness :
  exists v,
    sigmoid_focal_loss Examples.preds_low Examples.targets_left 1 0.25 2 = Ok v /\
    0 <= v.
Proof.
  apply (sigmoid_focal_loss_nonneg Examples.preds_low Examples.targets_left 1 0.25 2).
  - reflexivity.
  - reflexivity.
  - exact targets_left_binary.
  - lra.
  - lra.
  - simpl; lia.
Defined.

Lemma negative_alpha_only_rejected_pairwise_witness :
  (exists msg,
     pair_wise_sigmoid_focal_loss Examples.preds_low Examples.targets_left (-1) 2
     = Err (ValueError msg)) /\
  exists v, sigmoid_focal_loss Examples.preds_low Examples.targets_left 1 (-1) 2 = Ok v.
Proof.
  destruct (negative_alpha_only_rejected_pairwise
              Examples.preds_low Examples.targets_left 1 (-1) 2)
    as [Hpair Hloss].
  - reflexivity.
  - reflexivity.
  - lra.
  - split; [exact Hpair|]. eexists. exact Hloss.
Defined.

End MaskLossFacts.

(** ** Invariants of the panoptic assembly *)

Module PanopticInvFacts.
Import Panoptic PanopticInv.
Local Open Scope Z_scope.

Lemma Qgtb_lt (x y : Q) : Qgtb x y = true <-> (y < x)%Q.
Proof.
  unfold Qgtb. rewrite negb_true_iff. split.
  - intros H. apply Qnot_le_lt. intros Hle. apply Qle_bool_iff in Hle. congruence.
  - intros H. destruct (Qle_bool x y) eqn:E; [|reflexivity].
    apply Qle_bool_iff in E. exfalso. apply (Qlt_not_le _ _ H E).
Qed.

Lemma select_nil {A : Type} (keep : list bool) : select keep (@nil A) = [].
Proof. destruct keep as [|[|] keep]; reflexivity. Qed.

Lemma zip3_nil_2 {A B C : Type} (la : list A) (lc : list C) :
  zip3 la (@nil B) lc = [].
Proof. destruct la; reflexivity. Qed.

Lemma zip3_nil_3 {A B C : Type} (la : list A) (lb : list B) :
  zip3 la lb (@nil C) = [].
Proof. destruct la, lb; reflexivity. Qed.

Lemma select_zip3 {A B C : Type} (keep : list bool) (la : list A) (lb : list B)
      (lc : list C) :
  zip3 (select keep la) (select keep lb) (select keep lc)
  = select keep (zip3 la lb lc).
Proof.
  revert la lb lc. induction keep as [|b keep IH]; intros la lb lc; [reflexivity|].
  destruct la as [|a la]; [reflexivity|].
  destruct lb as [|y lb]; [rewrite select_nil, zip3_nil_2; reflexivity|].
  destruct lc as [|c lc]; [rewrite (select_nil (b :: keep)), zip3_nil_3; reflexivity|].
  destruct b; [simpl; f_equal; apply IH|apply IH].
Qed.

Lemma select_filter {A : Type} (f : A -> bool) (l : list A) :
  select (List.map f l) l = List.filter f l.
Proof.
  induction l as [|a l IH]; [reflexivity|]. simpl.
  destruct (f a); rewrite IH; reflexivity.
Qed.

Lemma select_length {A B : Type} (keep : list bool) (la : list A) (lb : list B) :
  List.length la = List.length lb ->
  List.length (select keep la) = List.length (select keep lb).
Proof.
  revert la lb. induction keep as [|b keep IH]; intros la lb Hlen; [reflexivity|].
  destruct la as [|a la], lb as [|y lb]; simpl in *; try lia.
  destruct b; simpl; rewrite (IH la lb) by lia; reflexivity.
Qed.

Lemma to_keep_map (self : MaskFormerForPanopticSegmentation)
      (masks : list (Grid Q)) (scores : list Q) (labels : list Z) :
  List.length masks = List.length scores ->
  List.length scores = List.length labels ->
  zip_with (fun l s => negb (l =? num_labels (config self))
                       && Qgtb s (object_mask_threshold self)) labels scores
  = List.map (kept self) (zip3 masks scores labels).
Proof.
  revert scores labels. induction masks as [|m masks IH]; intros [|s scores] [|l labels];
    simpl; intros H1 H2; try lia; [reflexivity|].
  f_equal. apply IH; lia.
Qed.

Lemma remove_low_and_no_objects_ok
      (self : MaskFormerForPanopticSegmentation)
      (masks : list (Grid Q)) (scores : list Q) (labels : list Z) :
  List.length masks = List.length scores ->
  List.length scores = List.length labels ->
  let keep := List.map (kept self) (zip3 masks scores labels) in
  remove_low_and_no_objects self masks scores labels
  = Ok (select keep masks, select keep scores, select keep labels).
Proof.
  intros H1 H2 keep. unfold remove_low_and_no_objects.
  assert (E : ((List.length masks =? List.length scores)%nat
               && (List.length scores =? List.length labels)%nat) = true)
    by (apply andb_true_iff; split; apply Nat.eqb_eq; assumption).
  rewrite E. simpl.
  rewrite (to_keep_map self masks scores labels H1 H2). reflexivity.
Qed.

Lemma kept_zip3_Forall (self : MaskFormerForPanopticSegmentation)
      (ms : list (Grid Q)) (ss : list Q) (ls : list Z) :
  List.length ms = List.length ss -> List.length ss = List.length ls ->
  List.Forall (fun q => kept self q = true) (zip3 ms ss ls) ->
  List.Forall (fun s => (object_mask_threshold self < s)%Q) ss /\
  List.Forall (fun l => l <> num_labels (config self)) ls.
Proof.
  revert ss ls. induction ms as [|m ms IH]; intros [|s ss] [|l ls]; simpl;
    intros Hl1 Hl2 Hall; try lia; [split; constructor|].
  inversion Hall as [|? ? Hk Hrest]; subst.
  destruct (IH ss ls ltac:(lia) ltac:(lia) Hrest) as [Hs Hl].
  unfold kept in Hk. simpl in Hk. apply andb_true_iff in Hk. destruct Hk as [Hk1 Hk2].
  split; constructor; try assumption.
  - apply Qgtb_lt. exact Hk2.
  - apply negb_true_iff, Z.eqb_neq in Hk1. exact Hk1.
Qed.


(** *** The loop over the queries *)

Lemma for_each_inv {S : Type} (P : S -> Prop) (body : S -> nat -> result S)
      (ks : list nat) (st st' : S) :
  (forall s k s1, List.In k ks -> P s -> body s k = Ok s1 -> P s1) ->
  P st -> for_each body ks st = Ok st' -> P st'.
Proof.
  revert st. induction ks as [|k ks IH]; intros st Hstep Hst Hrun; simpl in Hrun.
  - inversion Hrun; subst. assumption.
  - destruct (body st k) as [s1|e] eqn:E; simpl in Hrun; [|discriminate].
    apply (IH s1).
    + intros s k' s2 Hk. apply Hstep. right. assumption.
    + eapply Hstep; [left; reflexivity|exact Hst|exact E].
    + exact Hrun.
Qed.

Lemma for_each_ok {S : Type} (body : S -> nat -> result S) (ks : list nat) (st : S) :
  (forall s k, List.In k ks -> exists s1, body s k = Ok s1) ->
  exists st', for_each body ks st = Ok st'.
Proof.
  revert st. induction ks as [|k ks IH]; intros st Hok; simpl.
  - eexists. reflexivity.
  - destruct (Hok st k ltac:(left; reflexivity)) as [s1 ->]. simpl.
    apply IH. intros s k' Hk. apply Hok. right. assumption.
Qed.

(** The two outcomes of an iteration: the query is passed over, or it is
    written into the map and the list. *)
Lemma query_step_cases (self : MaskFormerForPanopticSegmentation)
      (mask_probs : list (Grid Q)) (mask_labels : Grid nat) (labels : list Z)
      (st st' : LoopState) (k : nat) :
  query_step self mask_probs mask_labels labels st k = Ok st' ->
  st' = st \/
  exists class_spec,
    dataset_classes (config self) !! nth k labels 0 = Some class_spec /\
    let sid := match stuff_memory_list st !! nth k labels 0 with
               | Some s => s
               | None => current_segment_id st + 1
               end in
    st' = {| st_segmentation :=
               assign_where (st_segmentation st) (mask_of mask_labels k) sid;
             st_segments :=
               st_segments st ++
                 [ {| seg_id := sid; category_id := nth k labels 0;
                      seg_is_thing := is_thing class_spec;
                      seg_label := label class_spec |} ];
             current_segment_id := sid;
             stuff_memory_list :=
               if is_thing class_spec then stuff_memory_list st
               else <[nth k labels 0 := sid]> (stuff_memory_list st) |}.
Proof.
  unfold query_step.
  destruct (dataset_classes (config self) !! nth k labels 0) as [spec|] eqn:Hreg;
    [|discriminate].
  destruct ((0 <? mask_k_area mask_labels k) && (0 <? original_area mask_probs k));
    [|intros H; inversion H; left; reflexivity].
  destruct (Qgtb _ _); [|intros H; inversion H; left; reflexivity].
  intros H. inversion H. right. exists spec. split; [reflexivity|].
  simpl. rewrite negb_involutive. destruct (is_thing spec); reflexivity.
Qed.

Lemma query_step_ok (self : MaskFormerForPanopticSegmentation)
      (mask_probs : list (Grid Q)) (mask_labels : Grid nat) (labels : list Z)
      (st : LoopState) (k : nat) :
  is_Some (dataset_classes (config self) !! nth k labels 0) ->
  exists st', query_step self mask_probs mask_labels labels st k = Ok st'.
Proof.
  intros [spec Hreg]. unfold query_step. rewrite Hreg.
  destruct ((0 <? mask_k_area mask_labels k) && (0 <? original_area mask_probs k));
    [|eexists; reflexivity].
  destruct (Qgtb _ _); eexists; reflexivity.
Qed.

Lemma zip_with_length_same {A B C : Type} (f : A -> B -> C) (la : list A) (lb : list B) :
  List.length la = List.length lb ->
  List.length (zip_with f la lb) = List.length la.
Proof.
  revert lb. induction la as [|a la IH]; intros [|b lb] H; simpl in *; try lia.
  rewrite IH; lia.
Qed.

Lemma assign_where_shape (h w : nat) (seg : Grid Z) (mask : Grid bool) (v : Z) :
  has_shape h w seg -> has_shape h w mask -> has_shape h w (assign_where seg mask v).
Proof.
  intros [Hl Hr] [Hl' Hr']. unfold assign_where, has_shape.
  split.
  - rewrite zip_with_length_same; congruence.
  - clear Hl Hl'. revert mask Hr'.
    induction Hr as [|row seg Hrow _ IH]; intros mask Hm; [constructor|].
    destruct Hm as [|mrow mask Hmrow Hm]; [constructor|].
    simpl. constructor; [|apply IH; assumption].
    rewrite zip_with_length_same; congruence.
Qed.

Lemma assign_where_pixels (seg : Grid Z) (mask : Grid bool) (v x : Z) :
  List.In x (pixels (assign_where seg mask v)) -> x = v \/ List.In x (pixels seg).
Proof.
  unfold pixels, assign_where. revert mask.
  induction seg as [|row seg IH]; intros [|mrow mask]; simpl; try tauto.
  rewrite !List.in_app_iff. intros [Hin|Hin].
  - clear IH. revert mrow Hin.
    induction row as [|s row IHr]; intros [|b mrow]; simpl; try tauto.
    intros [Hx|Hx].
    + destruct b; [left; congruence|right; left; left; exact Hx].
    + destruct (IHr mrow Hx) as [H|[H|H]]; [left; exact H|right; left; right; exact H|].
      right. right. exact H.
  - destruct (IH mask Hin) as [H|H]; [left; exact H|right; right; exact H].
Qed.

Lemma zeros_shape (h w : nat) : has_shape h w (zeros h w).
Proof.
  unfold zeros, has_shape. rewrite List.repeat_length. split; [reflexivity|].
  apply List.Forall_forall. intros row Hrow.
  apply List.repeat_spec in Hrow. subst. apply List.repeat_length.
Qed.

Lemma zeros_pixels (h w : nat) (v : Z) : List.In v (pixels (zeros h w)) -> v = 0.
Proof.
  unfold pixels, zeros. intros Hin.
  apply List.in_concat in Hin as (row & Hrow & Hv).
  apply List.repeat_spec in Hrow. subst. apply List.repeat_spec in Hv. exact Hv.
Qed.

Lemma argmax0_shape (h w : nat) (mask_probs : list (Grid Q)) (k : nat) :
  has_shape h w (mask_of (argmax0 h w mask_probs) k).
Proof.
  unfold has_shape, mask_of, argmax0.
  rewrite !List.length_map, List.length_seq. split; [reflexivity|].
  apply List.Forall_forall. intros row Hrow.
  apply List.in_map_iff in Hrow as (r & <- & Hr).
  apply List.in_map_iff in Hr as (i & <- & _).
  rewrite !List.length_map, List.length_seq. reflexivity.
Qed.

Lemma initial_state_inv (self : MaskFormerForPanopticSegmentation) (h w : nat) :
  loop_inv self h w (initial_state h w).
Proof.
  unfold loop_inv, initial_state. simpl. repeat split.
  - apply zeros_shape.
  - apply zeros_shape.
  - intros v Hv. left. eapply zeros_pixels. exact Hv.
  - lia.
  - lia.
  - rewrite lookup_empty in H. discriminate.
  - rewrite lookup_empty in H. discriminate.
  - destruct H.
  - destruct H.
  - destruct H.
  - destruct H.
Qed.

Lemma query_step_inv (self : MaskFormerForPanopticSegmentation) (h w : nat)
      (mask_probs : list (Grid Q)) (labels : list Z) (st st' : LoopState) (k : nat) :
  loop_inv self h w st ->
  query_step self mask_probs (argmax0 h w mask_probs) labels st k = Ok st' ->
  loop_inv self h w st'.
Proof.
  intros Hinv Hstep.
  destruct (query_step_cases _ _ _ _ _ _ _ Hstep) as [->|(spec & Hreg & Hst)];
    [assumption|].
  simpl in Hst.
  destruct Hinv as (Hshape & Hpix & Hcur & Hmem & Hrec).
  set (c := nth k labels 0) in *.
  set (sid := match stuff_memory_list st !! c with
              | Some s => s
              | None => current_segment_id st + 1
              end) in *.
  assert (Hsid : 1 <= sid <= Z.of_nat (List.length (st_segments st)) + 1).
  { unfold sid. destruct (stuff_memory_list st !! c) as [s|] eqn:E.
    - pose proof (Hmem c s E). lia.
    - lia. }
  subst st'. unfold loop_inv. simpl.
  rewrite List.length_app. simpl.
  replace (Z.of_nat (List.length (st_segments st) + 1))
    with (Z.of_nat (List.length (st_segments st)) + 1) by lia.
  split; [apply assign_where_shape; [assumption|apply argmax0_shape]|].
  split.
  { intros v Hv. apply assign_where_pixels in Hv. destruct Hv as [->|Hv].
    - right. eexists. split; [apply List.in_or_app; right; left; reflexivity|].
      reflexivity.
    - destruct (Hpix v Hv) as [H0|(r & Hr & Hid)]; [left; exact H0|].
      right. exists r. split; [apply List.in_or_app; left; exact Hr|exact Hid]. }
  split; [lia|].
  split.
  { intros c' s' Hlook. destruct (is_thing spec).
    - pose proof (Hmem c' s' Hlook). lia.
    - destruct (decide (c = c')) as [<-|Hne].
      + rewrite lookup_insert_eq in Hlook. inversion Hlook; subst. lia.
      + rewrite lookup_insert_ne in Hlook by assumption.
        pose proof (Hmem c' s' Hlook). lia. }
  intros r Hr. apply List.in_app_or in Hr. destruct Hr as [Hr|[<-|[]]].
  - destruct (Hrec r Hr) as (Hb & Hregd & Hstuff).
    split; [lia|]. split; [assumption|].
    intros Hthing. specialize (Hstuff Hthing).
    destruct (is_thing spec); [assumption|].
    destruct (decide (c = category_id r)) as [Heq|Hne].
    + rewrite <- Heq in *. rewrite lookup_insert_eq. f_equal.
      unfold sid. rewrite Hstuff. reflexivity.
    + rewrite lookup_insert_ne by assumption. assumption.
  - simpl. split; [lia|]. split.
    + unfold registered. simpl. rewrite Hreg. destruct spec; reflexivity.
    + intros Hthing. rewrite Hthing. apply lookup_insert_eq.
Qed.

(** *** The assembly of one sample *)

Lemma select_In {A : Type} (keep : list bool) (l : list A) (x : A) :
  List.In x (select keep l) -> List.In x l.
Proof.
  revert l. induction keep as [|b keep IH]; intros [|a l]; simpl; try tauto.
  destruct b; simpl; intros H.
  - destruct H as [H|H]; [left; exact H|right; apply IH; exact H].
  - right. apply IH. exact H.
Qed.

Lemma select_none {A : Type} (keep : list bool) (l : list A) :
  List.Forall (fun b => b = false) keep -> select keep l = [].
Proof.
  intros H. revert l. induction H as [|b keep -> _ IH]; intros [|a l]; simpl; auto.
Qed.

Lemma assemble_unfold (self : MaskFormerForPanopticSegmentation) (h w : nat)
      (masks : list (Grid Q)) (scores : list Q) (labels : list Z) :
  List.length masks = List.length scores ->
  List.length scores = List.length labels ->
  let keep := List.map (kept self) (zip3 masks scores labels) in
  let mask_probs := scale_by_scores (select keep masks) (select keep scores) in
  assemble self h w (masks, scores, labels)
  = if (0 <? List.length (select keep masks))%nat then
      let* st :=
        for_each (query_step self mask_probs (argmax0 h w mask_probs)
                             (select keep labels))
                 (seq 0 (List.length (select keep labels))) (initial_state h w) in
      Ok {| segmentation := st_segmentation st; segments := st_segments st |}
    else Ok {| segmentation := zeros h w; segments := [] |}.
Proof.
  intros H1 H2 keep mask_probs. unfold assemble.
  rewrite (remove_low_and_no_objects_ok self masks scores labels H1 H2).
  reflexivity.
Qed.

Lemma assemble_inv (self : MaskFormerForPanopticSegmentation) (h w : nat)
      (masks : list (Grid Q)) (scores : list Q) (labels : list Z) :
  List.length masks = List.length scores ->
  List.length scores = List.length labels ->
  labels_registered self labels ->
  exists st,
    assemble self h w (masks, scores, labels)
    = Ok {| segmentation := st_segmentation st; segments := st_segments st |} /\
    loop_inv self h w st /\
    List.Forall (fun r => List.In (category_id r) labels
                          /\ category_id r <> num_labels (config self))
                (st_segments st) /\
    (List.length (st_segments st)
     <= List.length (List.filter (kept self) (zip3 masks scores labels)))%nat.
Proof.
  intros H1 H2 Hreg.
  rewrite (assemble_unfold self h w masks scores labels H1 H2). simpl.
  set (keep := List.map (kept self) (zip3 masks scores labels)).
  set (labels' := select keep labels).
  set (mask_probs := scale_by_scores (select keep masks) (select keep scores)).
  assert (Hl1 : List.length (select keep masks) = List.length (select keep scores))
    by (apply select_length; assumption).
  assert (Hl2 : List.length (select keep scores) = List.length labels')
    by (apply select_length; assumption).
  assert (Hall : List.Forall (fun q => kept self q = true)
                   (zip3 (select keep masks) (select keep scores) labels')).
  { unfold labels'. rewrite (select_zip3 keep masks scores labels).
    unfold keep. rewrite select_filter.
    apply List.Forall_forall. intros q Hq. apply List.filter_In in Hq. tauto. }
  destruct (kept_zip3_Forall self _ _ _ Hl1 Hl2 Hall) as [_ Hne].
  assert (Hlab : forall k, (k < List.length labels')%nat ->
                           List.In (nth k labels' 0) labels
                           /\ nth k labels' 0 <> num_labels (config self)).
  { intros k Hk. pose proof (List.nth_In labels' 0 Hk) as Hin. split.
    - eapply select_In. exact Hin.
    - rewrite List.Forall_forall in Hne. apply Hne. exact Hin. }
  destruct (0 <? List.length (select keep masks))%nat eqn:Edet.
  - destruct (for_each_ok
                (query_step self mask_probs (argmax0 h w mask_probs) labels')
                (seq 0 (List.length labels')) (initial_state h w)) as [st Hst].
    { intros s k Hk. apply List.in_seq in Hk. apply query_step_ok.
      destruct (Hlab k ltac:(lia)) as [Hin Hn]. apply Hreg; assumption. }
    exists st. rewrite Hst. simpl. split; [reflexivity|].
    split; [|split].
    + eapply (for_each_inv (loop_inv self h w)); [|apply initial_state_inv|exact Hst].
      intros s k s1 _ Hs Hstep. eapply query_step_inv; eassumption.
    + apply (for_each_inv
               (fun s => List.Forall
                           (fun r => List.In (category_id r) labels
                                     /\ category_id r <> num_labels (config self))
                           (st_segments s))
               (query_step self mask_probs (argmax0 h w mask_probs) labels')
               (seq 0 (List.length labels')) (initial_state h w) st);
        [|apply List.Forall_nil|exact Hst].
      intros s k s1 Hk Hs Hstep. apply List.in_seq in Hk.
      destruct (query_step_cases _ _ _ _ _ _ _ Hstep) as [->|(spec & _ & ->)];
        [assumption|].
      simpl. apply List.Forall_app. split; [assumption|].
      constructor; [|constructor]. simpl. apply Hlab. lia.
    + assert (Hcount : forall ks s s',
                for_each (query_step self mask_probs (argmax0 h w mask_probs) labels')
                         ks s = Ok s' ->
                (List.length (st_segments s')
                 <= List.length (st_segments s) + List.length ks)%nat).
      { induction ks as [|k ks IH]; intros s s' Hrun; simpl in Hrun.
        - inversion Hrun; subst. lia.
        - destruct (query_step self mask_probs (argmax0 h w mask_probs) labels' s k)
            as [s1|e] eqn:E; simpl in Hrun; [|discriminate].
          specialize (IH s1 s' Hrun). simpl.
          destruct (query_step_cases _ _ _ _ _ _ _ E) as [->|(spec & _ & ->)];
            [lia|].
          simpl in IH. rewrite List.length_app in IH. simpl in IH. lia. }
      specialize (Hcount _ _ _ Hst). simpl in Hcount.
      rewrite List.length_seq in Hcount.
      replace (List.length (List.filter (kept self) (zip3 masks scores labels)))
        with (List.length labels'); [exact Hcount|].
      rewrite <- select_filter. fold keep.
      rewrite <- (select_zip3 keep masks scores labels). fold labels'.
      clear -Hl1 Hl2. revert Hl1 Hl2.
      generalize (select keep masks) (select keep scores) labels'.
      intros ms. induction ms as [|m ms IH]; intros [|s ss] [|l ls]; simpl;
        intros Hl1 Hl2; try lia.
      rewrite <- (IH ss ls); lia.
  - exists (initial_state h w). simpl. split; [reflexivity|].
    split; [apply initial_state_inv|]. split; [constructor|lia].
Qed.

Lemma surviving_label (self : MaskFormerForPanopticSegmentation)
      (masks : list (Grid Q)) (scores : list Q) (labels : list Z) (k : nat) :
  List.length masks = List.length scores ->
  List.length scores = List.length labels ->
  let labels' := select (List.map (kept self) (zip3 masks scores labels)) labels in
  (k < List.length labels')%nat ->
  List.In (nth k labels' 0) labels /\ nth k labels' 0 <> num_labels (config self).
Proof.
  intros H1 H2 labels' Hk.
  set (keep := List.map (kept self) (zip3 masks scores labels)) in *.
  assert (Hl1 : List.length (select keep masks) = List.length (select keep scores))
    by (apply select_length; assumption).
  assert (Hl2 : List.length (select keep scores) = List.length labels')
    by (apply select_length; assumption).
  assert (Hall : List.Forall (fun q => kept self q = true)
                   (zip3 (select keep masks) (select keep scores) labels')).
  { unfold labels'. rewrite (select_zip3 keep masks scores labels).
    unfold keep. rewrite select_filter.
    apply List.Forall_forall. intros q Hq. apply List.filter_In in Hq. tauto. }
  destruct (kept_zip3_Forall self _ _ _ Hl1 Hl2 Hall) as [_ Hne].
  pose proof (List.nth_In labels' 0 Hk) as Hin. split.
  - eapply select_In. exact Hin.
  - rewrite List.Forall_forall in Hne. apply Hne. exact Hin.
Qed.

(** X7: when every query has the no-object label or a score not above
    [object_mask_threshold], the assembly returns the all-zero segmentation
    and no segment, whatever the masks hold. *)
Theorem assemble_nothing_detected
        (self : MaskFormerForPanopticSegmentation) (h w : nat)
        (masks : list (Grid Q)) (scores : list Q) (labels : list Z) :
  List.length masks = List.length scores ->
  List.length scores = List.length labels ->
  List.Forall (fun q => (snd (fst q) <= object_mask_threshold self)%Q
                        \/ snd q = num_labels (config self))
              (zip3 masks scores labels) ->
  assemble self h w (masks, scores, labels)
  = Ok {| segmentation := zeros h w; segments := [] |}.
Proof.
  intros H1 H2 Hlow.
  rewrite (assemble_unfold self h w masks scores labels H1 H2). simpl.
  rewrite select_none; [reflexivity|].
  apply List.Forall_map. eapply List.Forall_impl; [|exact Hlow].
  intros [[m s] l]. simpl. intros [Hs|Hl]; unfold kept; simpl.
  - apply andb_false_iff. right.
    destruct (Qgtb s (object_mask_threshold self)) eqn:E; [|reflexivity].
    apply Qgtb_lt in E. exfalso. apply (Qlt_not_le _ _ E Hs).
  - apply andb_false_iff. left. apply negb_false_iff, Z.eqb_eq. exact Hl.
Qed.

(** X8: when the three inputs agree in length and the labels are in the
    class registry, the assembly returns a segmentation of [h] rows and [w]
    columns in which every pixel is 0 or the id of a record of the segment
    list. *)
Theorem assemble_segmentation_well_formed
        (self : MaskFormerForPanopticSegmentation) (h w : nat)
        (masks : list (Grid Q)) (scores : list Q) (labels : list Z) :
  List.length masks = List.length scores ->
  List.length scores = List.length labels ->
  labels_registered self labels ->
  exists out,
    assemble self h w (masks, scores, labels) = Ok out /\
    has_shape h w (segmentation out) /\
    forall v, List.In v (pixels (segmentation out)) ->
              v = 0 \/ exists r, List.In r (segments out) /\ seg_id r = v.
Proof.
  intros H1 H2 Hreg.
  destruct (assemble_inv self h w masks scores labels H1 H2 Hreg)
    as (st & Hrun & (Hshape & Hpix & _) & _).
  eexists. split; [exact Hrun|]. simpl. split; assumption.
Qed.

(** X9: the segment list holds at most one record per surviving query;
    the id of a record lies between 1 and the length of the list, its
    [is_thing] and [label] are those of the registry for its category, and
    its category is a label of the input other than no-object. *)
Theorem assemble_segments_well_formed
        (self : MaskFormerForPanopticSegmentation) (h w : nat)
        (masks : list (Grid Q)) (scores : list Q) (labels : list Z) :
  List.length masks = List.length scores ->
  List.length scores = List.length labels ->
  labels_registered self labels ->
  exists out,
    assemble self h w (masks, scores, labels) = Ok out /\
    (List.length (segments out)
     <= List.length (List.filter (kept self) (zip3 masks scores labels)))%nat /\
    forall r, List.In r (segments out) ->
              1 <= seg_id r <= Z.of_nat (List.length (segments out)) /\
              registered self r /\
              List.In (category_id r) labels /\
              category_id r <> num_labels (config self).
Proof.
  intros H1 H2 Hreg.
  destruct (assemble_inv self h w masks scores labels H1 H2 Hreg)
    as (st & Hrun & (_ & _ & _ & _ & Hrec) & Hcat & Hcount).
  eexists. split; [exact Hrun|]. simpl. split; [exact Hcount|].
  intros r Hr. destruct (Hrec r Hr) as (Hb & Hregd & _).
  rewrite List.Forall_forall in Hcat. destruct (Hcat r Hr) as [Hin Hne].
  repeat split; try assumption; lia.
Qed.

(** X10: all the records of one stuff class carry the same segment id. *)
Theorem assemble_stuff_shares_id
        (self : MaskFormerForPanopticSegmentation) (h w : nat)
        (masks : list (Grid Q)) (scores : list Q) (labels : list Z) :
  List.length masks = List.length scores ->
  List.length scores = List.length labels ->
  labels_registered self labels ->
  exists out,
    assemble self h w (masks, scores, labels) = Ok out /\
    forall r1 r2, List.In r1 (segments out) -> List.In r2 (segments out) ->
                  seg_is_thing r1 = false -> category_id r1 = category_id r2 ->
                  seg_id r1 = seg_id r2.
Proof.
  intros H1 H2 Hreg.
  destruct (assemble_inv self h w masks scores labels H1 H2 Hreg)
    as (st & Hrun & (_ & _ & _ & _ & Hrec) & _).
  eexists. split; [exact Hrun|]. simpl.
  intros r1 r2 Hr1 Hr2 Hstuff Hcat.
  destruct (Hrec r1 Hr1) as (_ & Hreg1 & Hmem1).
  destruct (Hrec r2 Hr2) as (_ & Hreg2 & Hmem2).
  unfold registered in Hreg1, Hreg2. rewrite Hcat in Hreg1.
  rewrite Hreg1 in Hreg2. inversion Hreg2 as [[Hthing Hlabel]].
  specialize (Hmem1 Hstuff). rewrite <- Hthing in Hmem2. specialize (Hmem2 Hstuff).
  rewrite Hcat in Hmem1. rewrite Hmem1 in Hmem2. inversion Hmem2. reflexivity.
Qed.

(** X11: when every label of the input other than no-object names a thing
    class, the ids of the records are 1, 2, ..., n in the order of the
    list. *)
Theorem assemble_things_sequential
        (self : MaskFormerForPanopticSegmentation) (h w : nat)
        (masks : list (Grid Q)) (scores : list Q) (labels : list Z) :
  List.length masks = List.length scores ->
  List.length scores = List.length labels ->
  labels_are_things self labels ->
  exists out,
    assemble self h w (masks, scores, labels) = Ok out /\
    List.map seg_id (segments out)
    = List.map Z.of_nat (seq 1 (List.length (segments out))) /\
    List.Forall (fun r => seg_is_thing r = true) (segments out).
Proof.
  intros H1 H2 Hthings.
  rewrite (assemble_unfold self h w masks scores labels H1 H2). simpl.
  set (keep := List.map (kept self) (zip3 masks scores labels)).
  set (labels' := select keep labels).
  set (mask_probs := scale_by_scores (select keep masks) (select keep scores)).
  pose proof (fun k => surviving_label self masks scores labels k H1 H2) as Hlab.
  simpl in Hlab. fold keep in Hlab. fold labels' in Hlab.
  destruct (0 <? List.length (select keep masks))%nat.
  - destruct (for_each_ok
                (query_step self mask_probs (argmax0 h w mask_probs) labels')
                (seq 0 (List.length labels')) (initial_state h w)) as [st Hst].
    { intros s k Hk. apply List.in_seq in Hk. apply query_step_ok.
      destruct (Hlab k ltac:(lia)) as [Hin Hn].
      destruct (Hthings _ Hin Hn) as (spec & Hspec & _). eexists. exact Hspec. }
    rewrite Hst. simpl. eexists. split; [reflexivity|]. simpl.
    assert (Hinv : stuff_memory_list st = ∅ /\
                   current_segment_id st = Z.of_nat (List.length (st_segments st)) /\
                   List.map seg_id (st_segments st)
                   = List.map Z.of_nat (seq 1 (List.length (st_segments st))) /\
                   List.Forall (fun r => seg_is_thing r = true) (st_segments st)).
    { apply (for_each_inv
               (fun s => stuff_memory_list s = ∅ /\
                         current_segment_id s = Z.of_nat (List.length (st_segments s)) /\
                         List.map seg_id (st_segments s)
                         = List.map Z.of_nat (seq 1 (List.length (st_segments s))) /\
                         List.Forall (fun r => seg_is_thing r = true) (st_segments s))
               (query_step self mask_probs (argmax0 h w mask_probs) labels')
               (seq 0 (List.length labels')) (initial_state h w) st);
        [|simpl; repeat split; constructor|exact Hst].
      intros s k s1 Hk (Hmem & Hcur & Hids & Hall) Hstep.
      apply List.in_seq in Hk.
      destruct (query_step_cases _ _ _ _ _ _ _ Hstep) as [->|(spec & Hspec & ->)];
        [repeat split; assumption|].
      destruct (Hlab k ltac:(lia)) as [Hin Hn].
      destruct (Hthings _ Hin Hn) as (spec' & Hspec' & Hthing).
      rewrite Hspec in Hspec'. inversion Hspec'; subst spec'.
      simpl. rewrite Hthing, Hmem, lookup_empty.
      rewrite List.length_app. simpl.
      repeat split.
      - rewrite Hcur. lia.
      - rewrite List.map_app, Hids. simpl.
        rewrite Nat.add_1_r, List.seq_S, List.map_app. simpl.
        rewrite Hcur. do 2 f_equal. lia.
      - apply List.Forall_app. split; [assumption|].
        constructor; [reflexivity|constructor]. }
    destruct Hinv as (_ & _ & Hids & Hall). split; assumption.
  - eexists. split; [reflexivity|]. simpl. split; constructor.
Qed.

(** *** The theorems at concrete queries *)

Lemma example_labels_registered :
  labels_registered Examples.panoptic_model [0; 1; 2].
Proof.
  intros l Hl _. simpl in Hl.
  destruct Hl as [<-|[<-|[<-|[]]]]; eexists; vm_compute; reflexivity.
Qed.

Lemma example_labels_are_things :
  labels_are_things Examples.panoptic_model [0; 2].
Proof.
  intros l Hl _. simpl in Hl.
  destruct Hl as [<-|[<-|[]]]; eexists; split; vm_compute; reflexivity.
Qed.


Lemma assemble_nothing_detected_witness :
  assemble Examples.panoptic_model 1 4
           (Examples.overlap_masks, [(1 # 10)%Q; (9 # 10)%Q], [0; 3])
  = Ok {| segmentation := zeros 1 4; segments := [] |}.
Proof.
  apply (assemble_nothing_detected Examples.panoptic_model 1 4
           Examples.overlap_masks [(1 # 10)%Q; (9 # 10)%Q] [0; 3]).
  - reflexivity.
  - reflexivity.
  - simpl. constructor; [left; simpl; unfold Qle; simpl; lia|].
    constructor; [right; reflexivity|constructor].
Defined.

Lemma assemble_segmentation_well_formed_witness :
  exists out,
    assemble Examples.panoptic_model 1 4
             (Examples.overlap_masks, Examples.overlap_scores, [0; 1]) = Ok out /\
    has_shape 1 4 (segmentation out) /\
    forall v, List.In v (pixels (segmentation out)) ->
              v = 0 \/ exists r, List.In r (segments out) /\ seg_id r = v.
Proof.
  apply (assemble_segmentation_well_formed Examples.panoptic_model 1 4
           Examples.overlap_masks Examples.overlap_scores [0; 1]).
  - reflexivity.
  - reflexivity.
  - intros l Hl. apply example_labels_registered. simpl in *. tauto.
Defined.

Lemma assemble_segments_well_formed_witness :
  exists out,
    assemble Examples.panoptic_model 1 4
             (Examples.overlap_masks, Examples.overlap_scores, [0; 1]) = Ok out /\
    (List.length (segments out) <= 2)%nat /\
    forall r, List.In r (segments out) ->
              1 <= seg_id r <= Z.of_nat (List.length (segments out)) /\
              registered Examples.panoptic_model r /\
              List.In (category_id r) [0; 1] /\
              category_id r <> num_labels (config Examples.panoptic_model).
Proof.
  apply (assemble_segments_well_formed Examples.panoptic_model 1 4
           Examples.overlap_masks Examples.overlap_scores [0; 1]).
  - reflexivity.
  - reflexivity.
  - intros l Hl. apply example_labels_registered. simpl in *. tauto.
Defined.

Lemma assemble_stuff_shares_id_witness :
  exists out,
    assemble Examples.panoptic_model 1 4
             ([ [[(9 # 10)%Q; (9 # 10)%Q; (1 # 10)%Q; (1 # 10)%Q]];
                [[(1 # 10)%Q; (1 # 10)%Q; (9 # 10)%Q; (9 # 10)%Q]] ],
              [(9 # 10)%Q; (9 # 10)%Q], [1; 1]) = Ok out /\
    forall r1 r2, List.In r1 (segments out) -> List.In r2 (segments out) ->
                  seg_is_thing r1 = false -> category_id r1 = category_id r2 ->
                  seg_id r1 = seg_id r2.
Proof.
  apply (assemble_stuff_shares_id Examples.panoptic_model 1 4
           [ [[(9 # 10)%Q; (9 # 10)%Q; (1 # 10)%Q; (1 # 10)%Q]];
             [[(1 # 10)%Q; (1 # 10)%Q; (9 # 10)%Q; (9 # 10)%Q]] ]
           [(9 # 10)%Q; (9 # 10)%Q] [1; 1]).
  - reflexivity.
  - reflexivity.
  - intros l Hl. apply example_labels_registered. simpl in *. tauto.
Defined.

Lemma assemble_things_sequential_witness :
  exists out,
    assemble Examples.panoptic_model 1 4
             (Examples.overlap_masks, Examples.overlap_scores, [0; 2]) = Ok out /\
    List.map seg_id (segments out)
    = List.map Z.of_nat (seq 1 (List.length (segments out))) /\
    List.Forall (fun r => seg_is_thing r = true) (segments out).
Proof.
  apply (assemble_things_sequential Examples.panoptic_model 1 4
           Examples.overlap_masks Examples.overlap_scores [0; 2]).
  - reflexivity.
  - reflexivity.
  - exact example_labels_are_things.
Defined.

End PanopticInvFacts.

(** ** The normalisation count *)

Module NumMasksFacts.
Import Tensor Loss.
Local Open Scope Q_scope.

Lemma clamp_min_ge (x lo : Q) : lo <= clamp_min x lo.
Proof.
  unfold clamp_min. destruct (Qle_bool lo x) eqn:E.
  - apply Qle_bool_iff. exact E.
  - apply Qle_refl.
Qed.

Lemma clamp_min_eq (x y lo : Q) : x == y -> clamp_min x lo == clamp_min y lo.
Proof.
  intros Hxy. unfold clamp_min.
  destruct (Qle_bool lo x) eqn:Ex, (Qle_bool lo y) eqn:Ey; try assumption;
    try apply Qeq_refl.
  - apply Qle_bool_iff in Ex. rewrite Hxy in Ex. apply Qle_bool_iff in Ex. congruence.
  - apply Qle_bool_iff in Ey. rewrite <- Hxy in Ey. apply Qle_bool_iff in Ey. congruence.
Qed.

Lemma clamp_min_id (x lo : Q) : lo <= x -> clamp_min x lo = x.
Proof.
  intros H. unfold clamp_min. apply Qle_bool_iff in H. rewrite H. reflexivity.
Qed.

Lemma all_reduce_uniform (peers : list Q) (b x : Q) :
  List.Forall (fun p => p == b) peers ->
  all_reduce peers x == x + inject_Z (Z.of_nat (List.length peers)) * b.
Proof.
  unfold all_reduce. intros H. revert x.
  induction H as [|p peers Hp _ IH]; intros x.
  - simpl. ring.
  - simpl fold_left. rewrite IH. rewrite Hp.
    simpl List.length. rewrite Nat2Z.inj_succ. unfold Z.succ. rewrite inject_Z_plus. ring.
Qed.

(** X12: [get_num_masks] is never below 1; outside a distributed run and
    for a batch that is not empty it is the number of samples of the
    batch. *)
Theorem get_num_masks_at_least_one (ctx : DistContext) (labels : Matcher.Labels) :
  1 <= get_num_masks ctx labels /\
  ((0 < rows2 (Matcher.classes labels))%nat ->
   get_num_masks None labels == inject_Z (Z.of_nat (rows2 (Matcher.classes labels)))).
Proof.
  split.
  - unfold get_num_masks. apply clamp_min_ge.
  - intros Hb. unfold get_num_masks. simpl.
    rewrite clamp_min_id.
    + field.
    + assert (E : inject_Z (Z.of_nat (rows2 (Matcher.classes labels))) / 1
                  == inject_Z (Z.of_nat (rows2 (Matcher.classes labels)))) by field.
      rewrite E. change 1 with (inject_Z 1). rewrite <- Zle_Qle. lia.
Qed.

(** X13: when every other worker contributes the count of this worker, the
    all-reduce followed by the division by the world size gives back that
    count, clamped below at 1. *)
Theorem get_num_masks_uniform_workers (peers : list Q) (labels : Matcher.Labels) :
  List.Forall (fun p => p == inject_Z (Z.of_nat (rows2 (Matcher.classes labels))))
              peers ->
  get_num_masks (Some peers) labels
  == clamp_min (inject_Z (Z.of_nat (rows2 (Matcher.classes labels)))) 1.
Proof.
  intros H. unfold get_num_masks. apply clamp_min_eq.
  rewrite (all_reduce_uniform peers _ _ H). simpl get_world_size.
  rewrite Nat2Z.inj_succ. unfold Z.succ. rewrite inject_Z_plus.
  field.
  change 1 with (inject_Z 1). rewrite <- inject_Z_plus.
  intros Heq. unfold Qeq in Heq. simpl in Heq. lia.
Qed.

Lemma get_num_masks_at_least_one_witness :
  1 <= get_num_masks None Examples.labels_three /\
  get_num_masks None Examples.labels_three == inject_Z 1.
Proof.
  destruct (get_num_masks_at_least_one None Examples.labels_three) as [Hge Heq].
  split; [exact Hge|]. apply Heq. simpl. lia.
Defined.

Lemma get_num_masks_uniform_workers_witness :
  get_num_masks (Some [1; 1]) Examples.labels_three == clamp_min (inject_Z 1) 1.
Proof.
  apply (get_num_masks_uniform_workers [1; 1] Examples.labels_three).
  repeat constructor.
Defined.

End NumMasksFacts.

(** ** The set-prediction loss *)

Module CriterionFacts.
Import Tensor Costs CostFacts Matcher MatcherFacts MaskLosses MaskLossFacts Criterion.
Local Open Scope Z_scope.

Lemma mapM_map {A B : Type} (f : A -> result B) (g : A -> B) (l : list A) :
  (forall x, List.In x l -> f x = Ok (g x)) -> mapM f l = Ok (List.map g l).
Proof.
  induction l as [|a l IH]; intros H; [reflexivity|].
  simpl. rewrite (H a (or_introl eq_refl)). simpl.
  rewrite IH by (intros x Hx; apply H; right; exact Hx). reflexivity.
Qed.

Lemma normalize_index_nonneg (n : nat) (i : Z) :
  0 <= i < Z.of_nat n -> normalize_index n i = Some (Z.to_nat i).
Proof.
  intros H. unfold normalize_index.
  replace ((0 <=? i) && (i <? Z.of_nat n)) with true; [reflexivity|].
  symmetry. apply andb_true_iff. split; [apply Z.leb_le|apply Z.ltb_lt]; lia.
Qed.

Lemma combine_app_same {A B : Type} (l1 l2 : list A) (m1 m2 : list B) :
  List.length l1 = List.length m1 ->
  combine (l1 ++ l2) (m1 ++ m2) = combine l1 m1 ++ combine l2 m2.
Proof.
  revert m1. induction l1 as [|a l1 IH]; intros [|b m1] H; simpl in *; try lia.
  - reflexivity.
  - f_equal. apply IH. lia.
Qed.

Lemma combine_nth_seq {A B : Type} (da : A) (db : B) (la : list A) (lb : list B) :
  List.length la = List.length lb ->
  List.map (fun p => (nth p la da, nth p lb db)) (seq 0 (List.length la))
  = combine la lb.
Proof.
  revert lb. induction la as [|a la IH]; intros [|b lb] H; simpl in *; try lia.
  - reflexivity.
  - f_equal. rewrite <- List.seq_shift, List.map_map. apply IH. lia.
Qed.

Lemma find_none_key {V : Type} (l : list (nat * nat * V)) (i j : nat) :
  ~ List.In (i, j) (List.map fst l) ->
  List.find (fun w => (fst (fst w) =? i)%nat && (snd (fst w) =? j)%nat) l = None.
Proof.
  intros H. destruct (List.find _ l) as [w|] eqn:E; [|reflexivity].
  apply List.find_some in E. destruct E as [Hin Hkey].
  apply andb_true_iff in Hkey. destruct Hkey as [H1 H2].
  apply Nat.eqb_eq in H1, H2. exfalso. apply H.
  apply List.in_map_iff. exists w. split; [|exact Hin].
  destruct w as [[a b] v]. simpl in *. congruence.
Qed.

Lemma find_unique_key {V : Type} (l : list (nat * nat * V)) (i j : nat) (v : V) :
  List.NoDup (List.map fst l) -> List.In (i, j, v) l ->
  List.find (fun w => (fst (fst w) =? i)%nat && (snd (fst w) =? j)%nat) l
  = Some (i, j, v).
Proof.
  induction l as [|[[a b] x] l IH]; intros Hnd Hin; [destruct Hin|].
  simpl in Hnd. inversion Hnd as [|? ? Hfresh Hnd']; subst.
  simpl. destruct Hin as [Heq|Hin].
  - inversion Heq; subst. rewrite !Nat.eqb_refl. reflexivity.
  - destruct ((a =? i)%nat && (b =? j)%nat) eqn:E.
    + apply andb_true_iff in E. destruct E as [E1 E2].
      apply Nat.eqb_eq in E1, E2. subst. exfalso. apply Hfresh.
      apply List.in_map_iff. exists (i, j, v). split; [reflexivity|exact Hin].
    + apply IH; assumption.
Qed.

Lemma NoDup_map_fst_rev {K V : Type} (l : list (K * V)) :
  List.NoDup (List.map fst l) -> List.NoDup (List.map fst (rev l)).
Proof.
  intros H. rewrite List.map_rev. apply List.NoDup_rev. exact H.
Qed.

(** *** The writes into [target_classes] *)

Lemma sample_writes_keys (i : nat) (row : Tensor1 Z) (ij : list Z * list Z) :
  List.length (fst ij) = List.length (snd ij) ->
  List.map fst (sample_writes i row ij)
  = List.map (fun s => (i, Z.to_nat s)) (fst ij).
Proof.
  destruct ij as [src tgt]. unfold sample_writes. simpl.
  rewrite List.map_map. simpl.
  revert tgt. induction src as [|s src IH]; intros [|j tgt] H; simpl in *; try lia.
  - reflexivity.
  - f_equal. apply IH. lia.
Qed.

Lemma batch_writes_keys_from (a : nat) (rows : list (Tensor1 Z)) (indices : Indices)
      (b q : nat) :
  List.In (b, q) (List.map fst (batch_writes a rows indices)) -> (a <= b)%nat.
Proof.
  revert a rows. induction indices as [|ij indices IH]; intros a [|row rows] Hin;
    simpl in Hin; try tauto.
  rewrite List.map_app, List.in_app_iff in Hin. destruct Hin as [Hin|Hin].
  - unfold sample_writes in Hin. rewrite List.map_map in Hin.
    apply List.in_map_iff in Hin as (sj & Heq & _). simpl in Heq.
    inversion Heq. lia.
  - specialize (IH _ _ Hin). lia.
Qed.

Lemma batch_writes_keys (a : nat) (rows : list (Tensor1 Z)) (indices : Indices)
      (b q : nat) (nq nt : nat) :
  List.Forall (usable_matching nq nt) indices ->
  List.In (b, q) (List.map fst (batch_writes a rows indices)) ->
  List.In (Z.of_nat q) (fst (nth (b - a) indices ([], []))).
Proof.
  revert a rows. induction indices as [|ij indices IH]; intros a [|row rows] Hall Hin;
    simpl in Hin; try tauto.
  inversion Hall as [|? ? (Hlen & _ & Hsrc & _) Hall']; subst.
  rewrite List.map_app, List.in_app_iff in Hin. destruct Hin as [Hin|Hin].
  - rewrite (sample_writes_keys a row ij Hlen) in Hin.
    apply List.in_map_iff in Hin as (s & Heq & Hs). inversion Heq; subst.
    rewrite Nat.sub_diag. simpl.
    rewrite List.Forall_forall in Hsrc. specialize (Hsrc s Hs).
    rewrite Z2Nat.id by lia. exact Hs.
  - pose proof (batch_writes_keys_from _ _ _ _ _ Hin) as Hle.
    specialize (IH _ _ Hall' Hin).
    replace (b - a)%nat with (S (b - S a)) by lia. exact IH.
Qed.

Lemma batch_writes_NoDup (a : nat) (rows : list (Tensor1 Z)) (indices : Indices)
      (nq nt : nat) :
  List.Forall (usable_matching nq nt) indices ->
  List.NoDup (List.map fst (batch_writes a rows indices)).
Proof.
  revert a rows. induction indices as [|ij indices IH]; intros a [|row rows] Hall;
    simpl; try constructor.
  inversion Hall as [|? ? (Hlen & Hnd & Hsrc & _) Hall']; subst.
  rewrite List.map_app. apply List.NoDup_app.
  - rewrite (sample_writes_keys a row ij Hlen).
    apply Injective_map_NoDup_in; [|exact Hnd].
    intros x y Hx Hy Heq. inversion Heq as [Hxy].
    rewrite List.Forall_forall in Hsrc.
    pose proof (Hsrc x Hx). pose proof (Hsrc y Hy). lia.
  - apply IH. exact Hall'.
  - intros [b q] Hin1 Hin2.
    rewrite (sample_writes_keys a row ij Hlen) in Hin1.
    apply List.in_map_iff in Hin1 as (s & Heq & _). inversion Heq; subst.
    pose proof (batch_writes_keys_from _ _ _ _ _ Hin2). lia.
Qed.

Lemma batch_writes_In (a : nat) (rows : list (Tensor1 Z)) (indices : Indices)
      (b : nat) (s j : Z) :
  List.length rows = List.length indices ->
  (a <= b < a + List.length indices)%nat ->
  List.In (s, j) (combine (fst (nth (b - a) indices ([], [])))
                          (snd (nth (b - a) indices ([], [])))) ->
  List.In (b, Z.to_nat s, get1 (nth (b - a) rows (mkT1 0 (fun _ => 0))) (Z.to_nat j))
          (batch_writes a rows indices).
Proof.
  revert a rows. induction indices as [|ij indices IH]; intros a [|row rows] Hlen Hb Hin;
    simpl in *; try lia.
  apply List.in_or_app.
  destruct (Nat.eq_dec b a) as [->|Hne].
  - left. rewrite Nat.sub_diag in *. simpl in *.
    unfold sample_writes. apply List.in_map_iff. exists (s, j). split; [reflexivity|].
    exact Hin.
  - right. replace (b - a)%nat with (S (b - S a)) in * by lia. simpl in Hin.
    simpl. apply IH; [lia|lia|exact Hin].
Qed.

(** The three concatenations [loss_labels] builds pair up into the writes
    of the batch. *)
Lemma batch_writes_combine (a : nat) (rows : list (Tensor1 Z)) (indices : Indices)
      (nq nt : nat) :
  List.length rows = List.length indices ->
  List.Forall (usable_matching nq nt) indices ->
  let batch_idx :=
    List.concat (List.map (fun p => full_like (fst (snd p)) (fst p))
                          (combine (seq a (List.length indices)) indices)) in
  let src_idx := List.concat (List.map fst indices) in
  let values :=
    List.concat (List.map (fun p => List.map (fun j => get1 (fst p) (Z.to_nat j))
                                             (snd (snd p)))
                          (combine rows indices)) in
  List.length batch_idx = List.length src_idx /\
  List.length values = List.length src_idx /\
  List.Forall (fun i => 0 <= i < Z.of_nat (a + List.length indices)) batch_idx /\
  combine (combine (List.map Z.to_nat batch_idx) (List.map Z.to_nat src_idx)) values
  = batch_writes a rows indices.
Proof.
  revert a rows. induction indices as [|ij indices IH]; intros a [|row rows] Hlen Hall;
    simpl in Hlen; try lia.
  - simpl. repeat split; constructor.
  - inversion Hall as [|? ? (Hl & _ & _ & _) Hall']; subst.
    specialize (IH (S a) rows ltac:(lia) Hall').
    simpl in IH. destruct IH as (IH1 & IH2 & IH3 & IH4).
    assert (Hfl : List.length (full_like (fst ij) a) = List.length (fst ij))
      by apply List.repeat_length.
    simpl. rewrite !List.length_app, Hfl, List.length_map.
    split; [lia|]. split; [lia|]. split.
    + apply List.Forall_app. split.
      * apply List.Forall_forall. intros x Hx. apply List.repeat_spec in Hx. lia.
      * eapply List.Forall_impl; [|exact IH3]. simpl. lia.
    + rewrite !List.map_app.
      rewrite combine_app_same by (rewrite !List.length_map; exact Hfl).
      rewrite combine_app_same
        by (rewrite List.length_combine, !List.length_map, Hfl; lia).
      rewrite IH4. f_equal.
      unfold sample_writes, full_like. destruct ij as [src tgt]. simpl in *.
      clear -Hl. revert tgt Hl.
      induction src as [|s src IHs]; intros [|j tgt] Hl; simpl in *; try lia.
      * reflexivity.
      * rewrite Nat2Z.id. f_equal. apply IHs. lia.
Qed.

Lemma cat_ok {A : Type} (ts : list (list A)) :
  ts <> [] -> cat ts = Ok (List.concat ts).
Proof. destruct ts; [contradiction|reflexivity]. Qed.

Lemma index_put_ok {A : Type} (t : Tensor2 A) (bi si : list Z) (values : list A) :
  List.Forall (fun i => 0 <= i < Z.of_nat (rows2 t)) bi ->
  List.Forall (fun i => 0 <= i < Z.of_nat (cols2 t)) si ->
  List.length bi = List.length si ->
  List.length values = List.length si ->
  index_put t (bi, si) values
  = Ok (mkT2 (rows2 t) (cols2 t)
          (fun i j =>
             match List.find (fun w => (fst (fst w) =? i)%nat
                                       && (snd (fst w) =? j)%nat)
                             (rev (combine (combine (List.map Z.to_nat bi)
                                                    (List.map Z.to_nat si))
                                           values)) with
             | Some w => snd w
             | None => get2 t i j
             end)).
Proof.
  intros Hbi Hsi Hlen Hval. unfold index_put. simpl.
  rewrite (mapM_map _ Z.to_nat bi).
  2:{ intros x Hx. rewrite List.Forall_forall in Hbi.
      rewrite (normalize_index_nonneg _ _ (Hbi x Hx)). reflexivity. }
  simpl. rewrite (mapM_map _ Z.to_nat si).
  2:{ intros x Hx. rewrite List.Forall_forall in Hsi.
      rewrite (normalize_index_nonneg _ _ (Hsi x Hx)). reflexivity. }
  simpl. rewrite !List.length_map, Hlen, bdim_same. simpl.
  assert (Hkeys : List.map
                    (fun p => (nth (bidx (List.length si) p) (List.map Z.to_nat bi) O,
                               nth (bidx (List.length si) p) (List.map Z.to_nat si) O))
                    (seq 0 (List.length si))
                  = combine (List.map Z.to_nat bi) (List.map Z.to_nat si)).
  { rewrite <- (combine_nth_seq O O (List.map Z.to_nat bi) (List.map Z.to_nat si))
      by (rewrite !List.length_map; exact Hlen).
    rewrite List.length_map, Hlen.
    apply List.map_ext_in. intros p Hp. apply List.in_seq in Hp.
    rewrite bidx_lt by lia. reflexivity. }
  rewrite Hkeys.
  rewrite List.length_combine, !List.length_map, Hlen, Nat.min_id, Hval, Nat.eqb_refl.
  reflexivity.
Qed.

Lemma Forall_concat {A : Type} (P : A -> Prop) (ls : list (list A)) :
  List.Forall (List.Forall P) ls -> List.Forall P (List.concat ls).
Proof.
  induction 1 as [|l ls Hl _ IH]; simpl; [constructor|].
  apply List.Forall_app. split; assumption.
Qed.

(** The tensor [target_classes] for a usable matching. *)
Lemma target_classes_of_ok (self : MaskFormerLoss) (pred_logits : Tensor3 R)
      (labels : Labels) (indices : Indices) :
  indices <> [] ->
  List.length indices = dim3_0 pred_logits ->
  List.length indices = rows2 (classes labels) ->
  List.Forall (usable_matching (dim3_1 pred_logits) (cols2 (classes labels))) indices ->
  target_classes_of self pred_logits labels indices
  = Ok (mkT2 (dim3_0 pred_logits) (dim3_1 pred_logits)
          (fun i j =>
             match List.find (fun w => (fst (fst w) =? i)%nat
                                       && (snd (fst w) =? j)%nat)
                             (rev (batch_writes 0 (unbind2 (classes labels)) indices))
             with
             | Some w => snd w
             | None => Z.of_nat (num_classes self)
             end)).
Proof.
  intros Hne HB Hrows Hall.
  assert (Hlr : List.length (unbind2 (classes labels)) = List.length indices).
  { unfold unbind2. rewrite List.length_map, List.length_seq. lia. }
  destruct (batch_writes_combine 0 (unbind2 (classes labels)) indices _ _ Hlr Hall)
    as (Hl1 & Hl2 & Hrange & Hcomb).
  unfold target_classes_of, get_src_permutation_idx, enumerate.
  rewrite cat_ok.
  2:{ intros E. apply (f_equal (@List.length _)) in E.
      rewrite List.length_map, List.length_combine, List.length_seq, Nat.min_id in E.
      destruct indices; [contradiction|discriminate]. }
  simpl. rewrite cat_ok.
  2:{ intros E. apply (f_equal (@List.length _)) in E. rewrite List.length_map in E.
      destruct indices; [contradiction|discriminate]. }
  simpl.
  rewrite (mapM_map _
             (fun p => List.map (fun j => get1 (fst p) (Z.to_nat j)) (snd (snd p)))).
  2:{ intros [row [src tgt]] Hp. simpl. unfold take.
      apply mapM_map. intros j Hj.
      pose proof (List.in_combine_l _ _ _ _ Hp) as Hrow.
      pose proof (List.in_combine_r _ _ _ _ Hp) as Hij.
      unfold unbind2 in Hrow. apply List.in_map_iff in Hrow as (b & <- & _). simpl.
      rewrite List.Forall_forall in Hall. destruct (Hall _ Hij) as (_ & _ & _ & Htgt).
      simpl in Htgt. rewrite List.Forall_forall in Htgt.
      rewrite (normalize_index_nonneg _ _ (Htgt j Hj)). reflexivity. }
  simpl. rewrite cat_ok.
  2:{ intros E. apply (f_equal (@List.length _)) in E.
      rewrite List.length_map, List.length_combine, Hlr, Nat.min_id in E.
      destruct indices; [contradiction|discriminate]. }
  simpl.
  rewrite index_put_ok.
  - simpl. rewrite Hcomb. reflexivity.
  - simpl. rewrite <- HB. exact Hrange.
  - simpl. apply Forall_concat. apply List.Forall_map.
    eapply List.Forall_impl; [|exact Hall]. intros ij (_ & _ & Hsrc & _). exact Hsrc.
  - exact Hl1.
  - exact Hl2.
Qed.

(** X14: given a matching that the losses can use (one pair of index lists
    per sample, as many prediction indices as target indices, no prediction
    taken twice, every index in range), the tensor [target_classes] of
    [loss_labels] is built without an exception, has one row per sample and
    one column per query, holds at each matched query the class of the
    target matched to it, and holds the no-object class [num_classes] at
    every query that is not matched. *)
Theorem target_classes_of_matching (self : MaskFormerLoss) (pred_logits : Tensor3 R)
        (labels : Labels) (indices : Indices) :
  indices <> [] ->
  List.length indices = dim3_0 pred_logits ->
  List.length indices = rows2 (classes labels) ->
  List.Forall (usable_matching (dim3_1 pred_logits) (cols2 (classes labels))) indices ->
  exists target_classes,
    target_classes_of self pred_logits labels indices = Ok target_classes /\
    rows2 target_classes = dim3_0 pred_logits /\
    cols2 target_classes = dim3_1 pred_logits /\
    forall b, (b < dim3_0 pred_logits)%nat ->
      (forall s j,
         List.In (s, j) (combine (fst (nth b indices ([], [])))
                                 (snd (nth b indices ([], [])))) ->
         get2 target_classes b (Z.to_nat s) = get2 (classes labels) b (Z.to_nat j)) /\
      (forall q, ~ List.In (Z.of_nat q) (fst (nth b indices ([], []))) ->
                 get2 target_classes b q = Z.of_nat (num_classes self)).
Proof.
  intros Hne HB Hrows Hall.
  eexists. split; [apply target_classes_of_ok; assumption|].
  simpl. split; [reflexivity|]. split; [reflexivity|].
  assert (Hlr : List.length (unbind2 (classes labels)) = List.length indices).
  { unfold unbind2. rewrite List.length_map, List.length_seq. lia. }
  pose proof (batch_writes_NoDup 0 (unbind2 (classes labels)) indices _ _ Hall) as Hnd.
  intros b Hb. split.
  - intros s j Hin.
    pose proof (batch_writes_In 0 (unbind2 (classes labels)) indices b s j Hlr
                  ltac:(lia)) as Hw.
    rewrite Nat.sub_0_r in Hw. specialize (Hw Hin).
    rewrite (find_unique_key _ b (Z.to_nat s) _ (NoDup_map_fst_rev _ Hnd)
               (proj1 (List.in_rev _ _) Hw)).
    simpl. unfold unbind2.
    rewrite (List.nth_indep _ _ (mkT1 (cols2 (classes labels))
                                      (get2 (classes labels) O)))
      by (rewrite List.length_map, List.length_seq; lia).
    rewrite (List.map_nth (fun b => mkT1 (cols2 (classes labels))
                                         (get2 (classes labels) b)) _ O b).
    rewrite List.seq_nth by lia. reflexivity.
  - intros q Hq.
    rewrite find_none_key; [reflexivity|].
    intros Hin. rewrite List.map_rev, <- List.in_rev in Hin.
    apply (batch_writes_keys 0 _ _ b q _ _ Hall) in Hin.
    rewrite Nat.sub_0_r in Hin. contradiction.
Qed.

(** *** The classification loss *)

Lemma batch_writes_values (P : Z -> Prop) (a : nat) (rows : list (Tensor1 Z))
      (indices : Indices) (nq nt : nat) :
  List.Forall (usable_matching nq nt) indices ->
  List.Forall (fun row => forall t, (t < nt)%nat -> P (get1 row t)) rows ->
  forall w, List.In w (batch_writes a rows indices) -> P (snd w).
Proof.
  revert a rows. induction indices as [|ij indices IH]; intros a [|row rows] Hall Hrows w Hw;
    simpl in Hw; try tauto.
  inversion Hall as [|? ? (_ & _ & _ & Htgt) Hall']; subst.
  inversion Hrows as [|? ? Hrow Hrows']; subst.
  apply List.in_app_or in Hw. destruct Hw as [Hw|Hw].
  - unfold sample_writes in Hw. apply List.in_map_iff in Hw as ([s j] & <- & Hsj).
    simpl. apply Hrow. apply List.in_combine_r in Hsj.
    rewrite List.Forall_forall in Htgt. specialize (Htgt j Hsj). lia.
  - eapply IH; eassumption.
Qed.

Local Open Scope R_scope.

Lemma rsum_pos (n : nat) (f : nat -> R) :
  (0 < n)%nat -> (forall i, (i < n)%nat -> 0 < f i) -> 0 < rsum n f.
Proof.
  intros Hn Hf. destruct n as [|n]; [lia|]. simpl.
  assert (0 <= rsum n f) by (apply rsum_nonneg; intros i Hi; left; apply Hf; lia).
  assert (0 < f n) by (apply Hf; lia). lra.
Qed.

Lemma exp_le_rsum (n c : nat) (f : nat -> R) :
  (c < n)%nat -> exp (f c) <= rsum n (fun k => exp (f k)).
Proof.
  induction n as [|n IH]; intros Hc; [lia|]. simpl.
  assert (0 <= rsum n (fun k => exp (f k)))
    by (apply rsum_nonneg; intros i _; left; apply exp_pos).
  destruct (Nat.eq_dec c n) as [->|Hne].
  - lra.
  - specialize (IH ltac:(lia)). pose proof (exp_pos (f n)). lra.
Qed.

Lemma nll_nonneg (n c : nat) (f : nat -> R) :
  (c < n)%nat -> 0 <= ln (rsum n (fun k => exp (f k))) - f c.
Proof.
  intros Hc. pose proof (exp_le_rsum n c f Hc) as Hle.
  pose proof (exp_pos (f c)) as Hpos.
  destruct Hle as [Hlt|Heq].
  - apply ln_increasing in Hlt; [|exact Hpos]. rewrite ln_exp in Hlt. lra.
  - rewrite <- Heq, ln_exp. lra.
Qed.

Lemma loss_labels_value (self : MaskFormerLoss) (outputs : Outputs)
        (labels : Labels) (indices : Indices) (num_masks : R) :
  indices <> [] ->
  List.length indices = dim3_0 (preds_logits outputs) ->
  List.length indices = rows2 (classes labels) ->
  List.Forall (usable_matching (dim3_1 (preds_logits outputs))
                               (cols2 (classes labels))) indices ->
  dim3_2 (preds_logits outputs) = (num_classes self + 1)%nat ->
  (forall b t, (b < rows2 (classes labels))%nat -> (t < cols2 (classes labels))%nat ->
               (0 <= get2 (classes labels) b t < Z.of_nat (num_classes self + 1))%Z) ->
  0 < eos_coef self -> (0 < dim3_1 (preds_logits outputs))%nat ->
  exists loss_ce,
    loss_labels self outputs labels indices num_masks
    = Ok {[ "loss_cross_entropy"%string := loss_ce ]} /\
    0 <= loss_ce.
Proof.
  intros Hne HB Hrows Hall HC Hcls Heos HQ.
  unfold loss_labels.
  rewrite (target_classes_of_ok self _ labels indices Hne HB Hrows Hall). simpl.
  set (tc := fun i j : nat => match List.find _ _ with Some w => snd w | None => _ end).
  assert (Hvalid : forall b q, (0 <= tc b q < Z.of_nat (num_classes self + 1))%Z).
  { intros b q. unfold tc.
    destruct (List.find _ _) as [w|] eqn:E; [|lia].
    apply List.find_some in E. destruct E as [Hw _]. apply List.in_rev in Hw.
    revert w Hw.
    apply (batch_writes_values
             (fun v => (0 <= v < Z.of_nat (num_classes self + 1))%Z)
             0 (unbind2 (classes labels)) indices _ _ Hall).
    unfold unbind2. apply Forall_map_seq. intros b' Hb' t Ht. simpl.
    apply Hcls; assumption. }
  unfold cross_entropy. simpl.
  rewrite HC, Nat.eqb_refl, !Nat.eqb_refl. simpl.
  rewrite <- HC.
  match goal with
  | |- context [forallb ?f ?l] =>
      assert (Hall' : forallb f l = true)
  end.
  { apply forallb_forall. intros b _. apply forallb_forall. intros q _.
    pose proof (Hvalid b q) as Hv. apply orb_true_iff. right.
    apply andb_true_iff. split; [apply Z.leb_le|apply Z.ltb_lt]; lia. }
  rewrite Hall'. simpl.
  eexists. split; [reflexivity|].
  assert (Hcount : forall b q, negb (tc b q =? -100)%Z = true).
  { intros b q. pose proof (Hvalid b q). apply negb_true_iff, Z.eqb_neq. lia. }
  assert (Hw : forall b q,
             0 < (if (Z.to_nat (tc b q) =? num_classes self)%nat
                  then eos_coef self else 1)).
  { intros b q. destruct (_ =? _)%nat; lra. }
  apply Rmult_le_pos.
  - unfold rsum2. apply rsum_nonneg. intros b _. apply rsum_nonneg. intros q _.
    rewrite Hcount. apply Rmult_le_pos; [left; apply Hw|].
    apply (nll_nonneg (dim3_2 (preds_logits outputs)) (Z.to_nat (tc b q))
                      (fun c => get3 (preds_logits outputs) b q c)).
    pose proof (Hvalid b q). lia.
  - left. apply Rinv_0_lt_compat. unfold rsum2.
    apply rsum_pos; [destruct indices; [contradiction|simpl in HB; lia]|].
    intros b _. apply rsum_pos; [exact HQ|].
    intros q _. rewrite Hcount. apply Hw.
Qed.

(** *** The mask losses *)

Local Open Scope nat_scope.

Lemma batch_index_range (sel : list Z * list Z -> list Z) (a : nat) (indices : Indices) :
  let batch_idx :=
    List.concat (List.map (fun p => full_like (sel (snd p)) (fst p))
                          (combine (seq a (List.length indices)) indices)) in
  List.length batch_idx = List.length (List.concat (List.map sel indices)) /\
  List.Forall (fun i => (0 <= i < Z.of_nat (a + List.length indices))%Z) batch_idx.
Proof.
  revert a. induction indices as [|ij indices IH]; intros a; simpl.
  - split; constructor.
  - destruct (IH (S a)) as [IH1 IH2].
    assert (Hfl : List.length (full_like (sel ij) a) = List.length (sel ij))
      by apply List.repeat_length.
    rewrite !List.length_app, Hfl. split; [lia|].
    apply List.Forall_app. split.
    + apply List.Forall_forall. intros x Hx. apply List.repeat_spec in Hx. lia.
    + eapply List.Forall_impl; [|exact IH2]. simpl. lia.
Qed.

Lemma concat_lengths_agree (indices : Indices) (nq nt : nat) :
  List.Forall (usable_matching nq nt) indices ->
  List.length (List.concat (List.map snd indices))
  = List.length (List.concat (List.map fst indices)).
Proof.
  induction 1 as [|ij indices (Hl & _) _ IH]; simpl; [reflexivity|].
  rewrite !List.length_app. lia.
Qed.

Lemma index_pairs_ok (x : Tensor4 R) (bi si : list Z) :
  List.Forall (fun i => (0 <= i < Z.of_nat (dim4_0 x))%Z) bi ->
  List.Forall (fun i => (0 <= i < Z.of_nat (dim4_1 x))%Z) si ->
  List.length bi = List.length si ->
  index_pairs x (bi, si)
  = Ok (mkT3 (List.length si) (dim4_2 x) (dim4_3 x)
          (fun p i j =>
             get4 x (nth (bidx (List.length si) p) (List.map Z.to_nat bi) O)
                    (nth (bidx (List.length si) p) (List.map Z.to_nat si) O) i j)).
Proof.
  intros Hbi Hsi Hlen. unfold index_pairs. simpl.
  rewrite (mapM_map _ Z.to_nat bi).
  2:{ intros v Hv. rewrite List.Forall_forall in Hbi.
      rewrite (normalize_index_nonneg _ _ (Hbi v Hv)). reflexivity. }
  simpl. rewrite (mapM_map _ Z.to_nat si).
  2:{ intros v Hv. rewrite List.Forall_forall in Hsi.
      rewrite (normalize_index_nonneg _ _ (Hsi v Hv)). reflexivity. }
  simpl. rewrite !List.length_map, Hlen, bdim_same. reflexivity.
Qed.

Lemma nth_map_to_nat_lt (l : list Z) (n p : nat) :
  List.Forall (fun i => (0 <= i < Z.of_nat n)%Z) l -> p < List.length l ->
  nth p (List.map Z.to_nat l) O < n.
Proof.
  intros Hall Hp.
  rewrite (List.nth_indep _ O (Z.to_nat 0)) by (rewrite List.length_map; exact Hp).
  rewrite List.map_nth.
  rewrite List.Forall_forall in Hall.
  pose proof (Hall _ (List.nth_In l 0%Z Hp)). lia.
Qed.

Lemma loss_masks_value (self : MaskFormerLoss) (outputs : Outputs)
        (labels : Labels) (indices : Indices) (num_masks : R) :
  indices <> [] ->
  List.length indices <= dim4_0 (preds_masks outputs) ->
  List.length indices <= dim4_0 (pixel labels) ->
  List.Forall (usable_matching (dim4_1 (preds_masks outputs))
                               (dim4_1 (pixel labels))) indices ->
  binary_masks (pixel labels) ->
  0 < dim4_2 (pixel labels) * dim4_3 (pixel labels) ->
  (0 < num_masks)%R ->
  exists loss_mask loss_dice,
    loss_masks self outputs labels indices num_masks
    = Ok {[ "loss_mask"%string := loss_mask; "loss_dice"%string := loss_dice ]} /\
    (0 <= loss_mask)%R /\ (0 <= loss_dice)%R.
Proof.
  intros Hne HBp HBt Hall Hbin Hhw Hn.
  destruct (batch_index_range fst 0 indices) as [Hls Hrs].
  destruct (batch_index_range snd 0 indices) as [Hlt Hrt].
  pose proof (concat_lengths_agree indices _ _ Hall) as Hagree.
  simpl in Hls, Hrs, Hlt, Hrt.
  assert (Hne1 : forall (sel : list Z * list Z -> list Z),
             List.map (fun p => full_like (sel (snd p)) (fst p))
                      (combine (seq 0 (List.length indices)) indices) <> []).
  { intros sel E. apply (f_equal (@List.length _)) in E.
    rewrite List.length_map, List.length_combine, List.length_seq, Nat.min_id in E.
    destruct indices; [contradiction|discriminate]. }
  assert (Hne2 : forall (sel : list Z * list Z -> list Z), List.map sel indices <> []).
  { intros sel E. apply (f_equal (@List.length _)) in E. rewrite List.length_map in E.
    destruct indices; [contradiction|discriminate]. }
  unfold loss_masks, get_src_permutation_idx, get_tgt_permutation_idx, enumerate.
  rewrite (cat_ok _ (Hne1 fst)). simpl. rewrite (cat_ok _ (Hne2 fst)). simpl.
  rewrite (cat_ok _ (Hne1 snd)). simpl. rewrite (cat_ok _ (Hne2 snd)). simpl.
  rewrite index_pairs_ok.
  2:{ eapply List.Forall_impl; [|exact Hrs]. simpl. lia. }
  2:{ apply Forall_concat, List.Forall_map.
      eapply List.Forall_impl; [|exact Hall]. intros ij (_ & _ & H & _). exact H. }
  2:{ exact Hls. }
  simpl. rewrite index_pairs_ok.
  2:{ eapply List.Forall_impl; [|exact Hrt]. simpl. lia. }
  2:{ apply Forall_concat, List.Forall_map.
      eapply List.Forall_impl; [|exact Hall]. intros ij (_ & _ & _ & H). exact H. }
  2:{ exact Hlt. }
  simpl. unfold view_as. simpl.
  rewrite Hagree, Nat.eqb_refl. simpl.
  set (N := List.length (List.concat (List.map fst indices))) in *.
  set (C := dim4_2 (pixel labels) * dim4_3 (pixel labels)) in *.
  match goal with
  | |- context [sigmoid_focal_loss ?p ?t _ _ _] =>
      set (preds := p); set (targets := t)
  end.
  assert (Hbinary : CostSpec.binary targets).
  { intros t c Ht Hc. unfold targets in *. simpl in *. fold C in Hc |- *.
    assert (HW : 0 < dim4_3 (pixel labels)) by (unfold C in Hhw; nia).
    replace ((t * C + c) / C) with t
      by (rewrite Nat.div_add_l by lia; rewrite (Nat.div_small c C) by lia; lia).
    replace ((t * C + c) mod C) with c
      by (rewrite Nat.add_comm, Nat.Div0.mod_add, Nat.mod_small; lia).
    rewrite (bidx_lt _ t Ht).
    apply Hbin.
    - apply Nat.lt_le_trans with (List.length indices); [|exact HBt].
      apply nth_map_to_nat_lt; [exact Hrt|lia].
    - apply nth_map_to_nat_lt.
      + apply Forall_concat, List.Forall_map.
        eapply List.Forall_impl; [|exact Hall]. intros ij (_ & _ & _ & H). exact H.
      + lia.
    - apply Nat.Div0.div_lt_upper_bound. unfold C in Hc. lia.
    - apply Nat.mod_upper_bound. lia. }
  rewrite (sigmoid_focal_loss_ok preds targets num_masks 0.25 2 eq_refl eq_refl).
  simpl. rewrite (dice_loss_ok preds targets num_masks eq_refl eq_refl). simpl.
  do 2 eexists. split; [reflexivity|]. split.
  - apply (focal_value_nonneg preds targets num_masks 0.25 2 eq_refl eq_refl Hbinary);
      [lra|exact Hn|exact Hhw].
  - apply (dice_value_range preds targets num_masks eq_refl eq_refl Hbinary Hn).
Qed.

(** X15: on such a matching, with logits over [num_classes + 1] classes,
    target classes in that range and a positive [eos_coef], [loss_labels]
    returns a dictionary with the single entry [loss_cross_entropy], and
    the weighted cross entropy in it is not negative. *)
Theorem loss_labels_nonneg (self : MaskFormerLoss) (outputs : Outputs)
        (labels : Labels) (indices : Indices) (num_masks : R) :
  indices <> [] ->
  List.length indices = dim3_0 (preds_logits outputs) ->
  List.length indices = rows2 (classes labels) ->
  List.Forall (usable_matching (dim3_1 (preds_logits outputs))
                               (cols2 (classes labels))) indices ->
  dim3_2 (preds_logits outputs) = (num_classes self + 1)%nat ->
  (forall b t, (b < rows2 (classes labels))%nat -> (t < cols2 (classes labels))%nat ->
               (0 <= get2 (classes labels) b t < Z.of_nat (num_classes self + 1))%Z) ->
  (0 < eos_coef self)%R -> (0 < dim3_1 (preds_logits outputs))%nat ->
  exists loss_ce,
    loss_labels self outputs labels indices num_masks
    = Ok {[ "loss_cross_entropy"%string := loss_ce ]} /\
    (0 <= loss_ce)%R.
Proof. apply loss_labels_value. Qed.

(** X16: on such a matching, with binary target masks of at least one
    pixel and a positive [num_masks], [loss_masks] returns a dictionary with
    exactly the entries [loss_mask] and [loss_dice], and neither the focal
    loss nor the dice loss in it is negative. *)
Theorem loss_masks_nonneg (self : MaskFormerLoss) (outputs : Outputs)
        (labels : Labels) (indices : Indices) (num_masks : R) :
  indices <> [] ->
  (List.length indices <= dim4_0 (preds_masks outputs))%nat ->
  (List.length indices <= dim4_0 (pixel labels))%nat ->
  List.Forall (usable_matching (dim4_1 (preds_masks outputs))
                               (dim4_1 (pixel labels))) indices ->
  binary_masks (pixel labels) ->
  (0 < dim4_2 (pixel labels) * dim4_3 (pixel labels))%nat ->
  (0 < num_masks)%R ->
  exists loss_mask loss_dice,
    loss_masks self outputs labels indices num_masks
    = Ok {[ "loss_mask"%string := loss_mask; "loss_dice"%string := loss_dice ]} /\
    (0 <= loss_mask)%R /\ (0 <= loss_dice)%R.
Proof. apply loss_masks_value. Qed.

(** *** Dispatch on the name of a loss *)

Lemma nke_ok {A : Type} (a : A) : no_key_error (Ok a).
Proof. discriminate. Qed.

Lemma nke_bind {A B : Type} (m : result A) (k : A -> result B) :
  no_key_error m -> (forall a, no_key_error (k a)) -> no_key_error (rbind m k).
Proof.
  unfold no_key_error. intros Hm Hk. destruct m as [a|e]; simpl; [apply Hk|].
  intros E. apply Hm. inversion E. reflexivity.
Qed.

Lemma nke_mapM {A B : Type} (f : A -> result B) (l : list A) :
  (forall a, no_key_error (f a)) -> no_key_error (mapM f l).
Proof.
  intros Hf. induction l as [|a l IH]; simpl; [apply nke_ok|].
  apply nke_bind; [apply Hf|]. intros b. apply nke_bind; [exact IH|].
  intros bs. apply nke_ok.
Qed.

Lemma nke_cat {A : Type} (ts : list (list A)) : no_key_error (cat ts).
Proof. destruct ts; discriminate. Qed.

Lemma nke_broadcast2 {A B C : Type} (f : A -> B -> C) (x : Tensor2 A) (y : Tensor2 B) :
  no_key_error (broadcast2 f x y).
Proof.
  unfold broadcast2. destruct (bdim _ _); [|discriminate].
  destruct (bdim _ _); discriminate.
Qed.

Lemma nke_broadcast1 {A B C : Type} (f : A -> B -> C) (x : Tensor1 A) (y : Tensor1 B) :
  no_key_error (broadcast1 f x y).
Proof. unfold broadcast1. destruct (bdim _ _); discriminate. Qed.

Ltac nke :=
  repeat first
    [ apply nke_ok | apply nke_cat | apply nke_broadcast2 | apply nke_broadcast1
    | apply nke_mapM; intros ?
    | apply nke_bind; [|intros ?]
    | match goal with
      | |- no_key_error (match ?x with _ => _ end) => destruct x
      end
    | discriminate ].

Lemma nke_loss_labels (self : MaskFormerLoss) (outputs : Outputs) (labels : Labels)
      (indices : Indices) (num_masks : R) :
  no_key_error (loss_labels self outputs labels indices num_masks).
Proof.
  unfold loss_labels, target_classes_of, get_src_permutation_idx, take, index_put,
    cross_entropy.
  nke.
Qed.

Lemma nke_loss_masks (self : MaskFormerLoss) (outputs : Outputs) (labels : Labels)
      (indices : Indices) (num_masks : R) :
  no_key_error (loss_masks self outputs labels indices num_masks).
Proof.
  unfold loss_masks, get_src_permutation_idx, get_tgt_permutation_idx, index_pairs,
    view_as, sigmoid_focal_loss, bce_with_logits, dice_loss.
  nke.
Qed.

Lemma get_loss_labels (self : MaskFormerLoss) (outputs : Outputs) (labels : Labels)
      (indices : Indices) (num_masks : R) :
  get_loss self "labels" outputs labels indices num_masks
  = loss_labels self outputs labels indices num_masks.
Proof. reflexivity. Qed.

Lemma get_loss_masks (self : MaskFormerLoss) (outputs : Outputs) (labels : Labels)
      (indices : Indices) (num_masks : R) :
  get_loss self "masks" outputs labels indices num_masks
  = loss_masks self outputs labels indices num_masks.
Proof. reflexivity. Qed.

Lemma get_loss_unsupported (self : MaskFormerLoss) (loss : string) (outputs : Outputs)
      (labels : Labels) (indices : Indices) (num_masks : R) :
  loss <> "labels"%string -> loss <> "masks"%string ->
  get_loss self loss outputs labels indices num_masks = Err KeyError.
Proof.
  intros H1 H2. unfold get_loss.
  rewrite lookup_insert_ne by congruence.
  rewrite lookup_singleton_ne by congruence. reflexivity.
Qed.

End CriterionFacts.

(** ** The loss of a batch, end to end *)

Module CriterionForwardFacts.
Import Tensor Costs CostFacts Matcher MatcherFacts MaskLosses MaskLossFacts.
Import Criterion CriterionFacts.

Lemma matched_form_usable (nq nt : nat) (ij : list Z * list Z) :
  matched_form nq nt ij -> usable_matching nq nt ij.
Proof.
  intros (H1 & H2 & H3 & _ & H5 & H6). unfold usable_matching.
  repeat split; try assumption. congruence.
Qed.

(** The matcher on a batch whose shapes agree, for a solver that answers
    in the documented form. *)
Lemma matcher_forward_form
      (linear_sum_assignment : Tensor2 R -> list nat * list nat)
      (self : MaskFormerHungarianMatcher) (outputs : Outputs) (labels : Labels) :
  (forall m, assignment_form (rows2 m) (cols2 m) (linear_sum_assignment m)) ->
  dim3_1 (preds_logits outputs) = dim4_1 (preds_masks outputs) ->
  cols2 (classes labels) = dim4_1 (pixel labels) ->
  (forall b t, (b < rows2 (classes labels))%nat -> (t < cols2 (classes labels))%nat ->
     (- Z.of_nat (dim3_2 (preds_logits outputs)) <= get2 (classes labels) b t
      < Z.of_nat (dim3_2 (preds_logits outputs)))%Z) ->
  exists matched,
    Matcher.forward self linear_sum_assignment outputs labels = Ok matched /\
    List.length matched
    = Nat.min (Nat.min (dim3_0 (preds_logits outputs)) (dim4_0 (preds_masks outputs)))
              (Nat.min (dim4_0 (pixel labels)) (rows2 (classes labels))) /\
    List.Forall (usable_matching (dim4_1 (preds_masks outputs)) (dim4_1 (pixel labels)))
                matched.
Proof.
  intros Hsolver HQ HT Hcls.
  set (nq := dim4_1 (preds_masks outputs)) in *.
  set (nt := dim4_1 (pixel labels)) in *.
  unfold Matcher.forward.
  match goal with
  | |- context [mapM ?f ?l] =>
      destruct (mapM_Forall f (assignment_form nq nt) l) as (ind & Hind & Hlen & Hform)
  end.
  - eapply List.Forall_impl;
      [|apply (zip4_Forall
                 (fun p => rows2 p = nq /\ cols2 p = dim3_2 (preds_logits outputs))
                 (fun m => dim3_0 m = nq /\ dim3_1 m = dim4_2 (preds_masks outputs)
                           /\ dim3_2 m = dim4_3 (preds_masks outputs))
                 (fun m => dim3_0 m = nt /\ dim3_1 m = dim4_2 (preds_masks outputs)
                           /\ dim3_2 m = dim4_3 (preds_masks outputs))
                 (fun l => len1 l = nt
                           /\ valid_indices (dim3_2 (preds_logits outputs)) l))].
    + intros [[[p pm] tm] l]. simpl.
      intros ((Hp1 & Hp2) & (Hm1 & Hm2 & Hm3) & (Ht1 & Ht2 & Ht3) & (Hl1 & Hl2)).
      apply (assign_sample_ok linear_sum_assignment Hsolver self p pm tm l nq nt);
        try congruence.
      rewrite Hp2. assumption.
    + apply Forall_map_seq. intros b _. simpl. split; [exact HQ|reflexivity].
    + apply Forall_map_seq. intros b _. simpl. repeat split.
    + apply Forall_map_seq. intros b _. simpl. repeat split.
    + apply Forall_map_seq. intros b Hb. simpl. split; [exact HT|].
      intros t Ht. simpl in *. apply Hcls; assumption.
  - rewrite Hind. simpl. eexists. split; [reflexivity|]. split.
    + rewrite List.length_map, Hlen, zip4_length.
      unfold unbind3, unbind4, unbind2. rewrite !List.length_map, !List.length_seq.
      reflexivity.
    + apply List.Forall_map. eapply List.Forall_impl; [|exact Hform].
      intros rc Hrc. apply matched_form_usable.
      apply (as_tensor_int64_form nq nt rc Hrc).
Qed.

(** *** Renaming the entries of a layer *)

Lemma list_map_fmap {A B : Type} (g : A -> B) (l : list A) : List.map g l = g <$> l.
Proof. induction l as [|a l IH]; [reflexivity|]. simpl. rewrite IH. reflexivity. Qed.

Lemma with_layer_suffix_lookup (i : nat) (d : gmap string R) (k' : string) (v : R) :
  with_layer_suffix i d !! k' = Some v -> exists k, d !! k = Some v.
Proof.
  unfold with_layer_suffix. intros H.
  apply elem_of_list_to_map_2 in H. rewrite list_map_fmap in H.
  apply list_elem_of_fmap in H as ([k x] & Heq & Hin). inversion Heq; subst.
  apply elem_of_map_to_list in Hin. exists k. exact Hin.
Qed.

Lemma with_layer_suffix_keys (i : nat) (d : gmap string R) (k' : string) :
  is_Some (with_layer_suffix i d !! k')
  <-> exists k, is_Some (d !! k) /\ k' = String.append k (layer_suffix i).
Proof.
  unfold with_layer_suffix. split.
  - intros [v H]. apply elem_of_list_to_map_2 in H. rewrite list_map_fmap in H.
    apply list_elem_of_fmap in H as ([k x] & Heq & Hin). inversion Heq; subst.
    apply elem_of_map_to_list in Hin. exists k. split; [eexists; exact Hin|reflexivity].
  - intros (k & [v Hv] & ->).
    destruct (list_to_map _ !! _) as [x|] eqn:E; [eexists; reflexivity|].
    exfalso. apply not_elem_of_list_to_map in E. apply E.
    apply list_elem_of_fmap. exists (String.append k (layer_suffix i), v).
    split; [reflexivity|]. rewrite list_map_fmap.
    apply list_elem_of_fmap. exists (k, v). split; [reflexivity|].
    apply elem_of_map_to_list. exact Hv.
Qed.

(** *** The components of one layer *)

Section Layer.

Variable self : MaskFormerLoss.
Variable labels : Labels.
Variable o : Outputs.
Variable indices : Indices.
Variable num_masks : R.
Variable rename : gmap string R -> gmap string R.
Variable key : string -> string.

Hypothesis Hlabels : labels_fit self labels.
Hypothesis Hlayer : layer_fits self labels o.
Hypothesis Heos : (0 < eos_coef self)%R.
Hypothesis Hnum : (0 < num_masks)%R.
Hypothesis Hlen : List.length indices = rows2 (classes labels).
Hypothesis Hidx :
  List.Forall (usable_matching (dim4_1 (preds_masks o)) (dim4_1 (pixel labels))) indices.
Hypothesis rename_values :
  forall d k' v, rename d !! k' = Some v -> exists k, d !! k = Some v.
Hypothesis rename_keys :
  forall d k', is_Some (rename d !! k') <-> exists k, is_Some (d !! k) /\ k' = key k.

Lemma get_loss_supported (loss : string) :
  supported loss ->
  exists d,
    get_loss self loss o labels indices num_masks = Ok d /\
    all_nonneg d /\
    forall k, is_Some (d !! k) <-> List.In k (loss_keys loss).
Proof.
  destruct Hlabels as (HB & HBp & HT & Hcls & Hbin & Hhw).
  destruct Hlayer as (HBl & HBm & HQ & HQpos & HC).
  assert (Hne : indices <> []) by (destruct indices; [simpl in Hlen; lia|discriminate]).
  intros [-> | ->].
  - rewrite get_loss_labels.
    assert (Hidx' : List.Forall (usable_matching (dim3_1 (preds_logits o))
                                                 (cols2 (classes labels))) indices)
      by (rewrite HQ, HT; exact Hidx).
    assert (HB' : List.length indices = dim3_0 (preds_logits o)) by congruence.
    destruct (loss_labels_value self o labels indices num_masks
                Hne HB' Hlen Hidx' HC Hcls Heos HQpos) as (v & -> & Hv).
    + eexists. split; [reflexivity|]. split.
      * intros k x Hk. apply lookup_singleton_Some in Hk as [_ <-]. exact Hv.
      * intros k. simpl. rewrite lookup_singleton_is_Some. split.
        -- intros <-. left. reflexivity.
        -- intros [<-|[]]. reflexivity.
  - rewrite get_loss_masks.
    assert (HB1 : List.length indices <= dim4_0 (preds_masks o)) by lia.
    assert (HB2 : List.length indices <= dim4_0 (pixel labels)) by lia.
    destruct (loss_masks_value self o labels indices num_masks
                Hne HB1 HB2 Hidx Hbin Hhw Hnum) as (a & b & -> & Ha & Hb).
    eexists. split; [reflexivity|]. split.
    + intros k x Hk. apply lookup_insert_Some in Hk as [[_ <-]|[_ Hk]]; [exact Ha|].
      apply lookup_singleton_Some in Hk as [_ <-]. exact Hb.
    + intros k. simpl. rewrite lookup_insert_is_Some, lookup_singleton_is_Some.
      split.
      * intros [<-|[_ <-]]; [left|right; left]; reflexivity.
      * intros [<-|[<-|[]]]; [left; reflexivity|right]. split; [discriminate|reflexivity].
Qed.

Lemma update_with_losses_ok (names : list string) (acc : gmap string R) :
  List.Forall supported names -> all_nonneg acc ->
  exists acc',
    update_with_losses self names rename o labels indices num_masks acc = Ok acc' /\
    all_nonneg acc' /\
    (forall k', is_Some (acc' !! k')
                <-> is_Some (acc !! k')
                    \/ exists k, List.In k (flat_map loss_keys names) /\ k' = key k) /\
    (forall k', (forall k, List.In k (flat_map loss_keys names) -> k' <> key k) ->
                acc' !! k' = acc !! k').
Proof.
  intros Hnames. revert acc.
  induction Hnames as [|loss names Hloss _ IH]; intros acc Hacc.
  - exists acc. simpl. split; [reflexivity|]. split; [exact Hacc|].
    split; [|reflexivity].
    intros k'. split; [auto|]. intros [H|(k & [] & _)]. exact H.
  - destruct (get_loss_supported loss Hloss) as (d & Hd & Hnn & Hkeys).
    simpl. rewrite Hd. simpl.
    destruct (IH (rename d ∪ acc)) as (acc' & Hrun & Hnn' & Hkeys' & Hkeep').
    { intros k v Hk. apply lookup_union_Some_raw in Hk as [Hk|[_ Hk]].
      - destruct (rename_values _ _ _ Hk) as (k0 & Hk0). eapply Hnn. exact Hk0.
      - eapply Hacc. exact Hk. }
    exists acc'. split; [exact Hrun|]. split; [exact Hnn'|].
    split; cycle 1.
    { intros k' Hfresh. rewrite Hkeep'.
      - apply lookup_union_r.
        destruct (rename d !! k') as [v|] eqn:E; [|reflexivity].
        exfalso. destruct (proj1 (rename_keys d k')) as (k & Hk & ->);
          [eexists; exact E|].
        apply (Hfresh k); [|reflexivity].
        apply List.in_or_app. left. apply Hkeys. exact Hk.
      - intros k Hk. apply Hfresh. apply List.in_or_app. right. exact Hk. }
    intros k'. rewrite Hkeys', lookup_union_is_Some, rename_keys.
    split.
    + intros [[(k & Hk & ->)|H]|(k & Hk & ->)].
      * right. exists k. split; [|reflexivity].
        apply List.in_or_app. left. apply Hkeys. exact Hk.
      * left. exact H.
      * right. exists k. split; [|reflexivity]. apply List.in_or_app. right. exact Hk.
    + intros [H|(k & Hk & ->)].
      * left. right. exact H.
      * apply List.in_app_or in Hk. destruct Hk as [Hk|Hk].
        -- left. left. exists k. split; [apply Hkeys; exact Hk|reflexivity].
        -- right. exists k. split; [exact Hk|reflexivity].
Qed.

End Layer.

(** *** The layers *)

Lemma num_masks_pos (ctx : Loss.DistContext) (labels : Labels) :
  (0 < Q2R (Loss.get_num_masks ctx labels))%R.
Proof.
  assert (H : (1 <= Loss.get_num_masks ctx labels)%Q)
    by (unfold Loss.get_num_masks; apply NumMasksFacts.clamp_min_ge).
  apply Qreals.Qle_Rle in H. replace (Q2R 1) with 1%R in H; [lra|].
  unfold Q2R. simpl. lra.
Qed.

Lemma matcher_on_layer (self : MaskFormerLoss)
      (linear_sum_assignment : Tensor2 R -> list nat * list nat)
      (labels : Labels) (o : Outputs) :
  (forall m, assignment_form (rows2 m) (cols2 m) (linear_sum_assignment m)) ->
  labels_fit self labels -> layer_fits self labels o ->
  exists indices,
    Matcher.forward (matcher self) linear_sum_assignment o labels = Ok indices /\
    List.length indices = rows2 (classes labels) /\
    List.Forall (usable_matching (dim4_1 (preds_masks o)) (dim4_1 (pixel labels)))
                indices.
Proof.
  intros Hsolver Hlabels Hlayer.
  pose proof Hlabels as (HB & HBp & HT & Hcls & Hbin & Hhw).
  pose proof Hlayer as (HBl & HBm & HQ & HQpos & HC).
  destruct (matcher_forward_form linear_sum_assignment (matcher self) o labels
              Hsolver HQ HT) as (indices & Hrun & Hlen & Hform).
  - intros b t Hb Ht. specialize (Hcls b t Hb Ht). rewrite HC. lia.
  - exists indices. split; [exact Hrun|]. split; [|exact Hform].
    rewrite Hlen, HBl, HBm, HBp. lia.
Qed.

Lemma update_with_layers_ok (self : MaskFormerLoss)
      (linear_sum_assignment : Tensor2 R -> list nat * list nat)
      (labels : Labels) (num_masks : R) (layers : list Outputs) :
  (forall m, assignment_form (rows2 m) (cols2 m) (linear_sum_assignment m)) ->
  labels_fit self labels -> (0 < eos_coef self)%R -> (0 < num_masks)%R ->
  List.Forall supported (losses self) ->
  List.Forall (layer_fits self labels) layers ->
  forall i acc, all_nonneg acc ->
  exists acc',
    update_with_layers self linear_sum_assignment i layers labels num_masks acc
    = Ok acc' /\
    all_nonneg acc' /\
    (forall k, is_Some (acc' !! k)
               <-> is_Some (acc !! k)
                   \/ List.In k (flat_map (layer_keys (losses self))
                                          (seq i (List.length layers)))) /\
    (forall k, ~ List.In k (flat_map (layer_keys (losses self))
                                     (seq i (List.length layers))) ->
               acc' !! k = acc !! k).
Proof.
  intros Hsolver Hlabels Heos Hnum Hnames Hlayers.
  induction Hlayers as [|o layers Ho _ IH]; intros i acc Hacc.
  - exists acc. simpl. split; [reflexivity|]. split; [exact Hacc|].
    split; [|reflexivity].
    intros k. split; [auto|]. intros [H|[]]. exact H.
  - destruct (matcher_on_layer self linear_sum_assignment labels o Hsolver Hlabels Ho)
      as (indices & Hrun & Hlen & Hform).
    destruct (update_with_losses_ok self labels o indices num_masks
                (with_layer_suffix i) (fun k => String.append k (layer_suffix i))
                Hlabels Ho Heos Hnum Hlen Hform
                (with_layer_suffix_lookup i) (with_layer_suffix_keys i)
                (losses self) acc Hnames Hacc)
      as (acc1 & Hrun1 & Hnn1 & Hkeys1 & Hkeep1).
    destruct (IH (S i) acc1 Hnn1) as (acc2 & Hrun2 & Hnn2 & Hkeys2 & Hkeep2).
    exists acc2. simpl. rewrite Hrun. simpl. rewrite Hrun1. simpl.
    split; [exact Hrun2|]. split; [exact Hnn2|].
    split; cycle 1.
    { intros k Hfresh. rewrite Hkeep2, Hkeep1; [reflexivity| |].
      - intros k0 Hk0 ->. apply Hfresh. apply List.in_or_app. left.
        unfold layer_keys.
        apply (List.in_map (fun k => String.append k (layer_suffix i))). exact Hk0.
      - intros Hin. apply Hfresh. apply List.in_or_app. right. exact Hin. }
    intros k. rewrite Hkeys2, Hkeys1, List.in_app_iff. unfold layer_keys at 2.
    rewrite List.in_map_iff. split.
    + intros [[H|(k0 & Hk0 & ->)]|H]; [left; exact H| |right; right; exact H].
      right. left. exists k0. split; [reflexivity|exact Hk0].
    + intros [H|[(k0 & <- & Hk0)|H]]; [left; left; exact H| |right; exact H].
      left. right. exists k0. split; [exact Hk0|reflexivity].
Qed.

(** *** The entries of the layers are kept apart *)

Lemma append_inj_r (a s t : string) : String.append a s = String.append a t -> s = t.
Proof.
  induction a as [|c a IH]; simpl; intros H; [exact H|].
  inversion H. apply IH. assumption.
Qed.

Lemma append_prefix (a b s t : string) :
  String.append a s = String.append b t ->
  String.prefix a b = true \/ String.prefix b a = true.
Proof.
  revert b. induction a as [|c a IH]; intros b H.
  - left. destruct b; reflexivity.
  - destruct b as [|c' b]; [right; reflexivity|].
    simpl in H. inversion H; subst. simpl.
    destruct (Ascii.ascii_dec c' c') as [_|n]; [|contradiction].
    apply IH. assumption.
Qed.

Lemma loss_keys_cases (loss k : string) :
  List.In k (loss_keys loss) ->
  (loss = "labels"%string /\ k = "loss_cross_entropy"%string) \/
  (loss = "masks"%string /\ (k = "loss_mask"%string \/ k = "loss_dice"%string)).
Proof.
  unfold loss_keys.
  destruct (String.eqb loss "labels") eqn:E1.
  - apply String.eqb_eq in E1. intros [<-|[]]. left. split; [exact E1|reflexivity].
  - destruct (String.eqb loss "masks") eqn:E2; [|intros []].
    apply String.eqb_eq in E2. intros [<-|[<-|[]]]; right; (split; [exact E2|]); auto.
Qed.

Lemma loss_keys_owner (x y k : string) :
  List.In k (loss_keys x) -> List.In k (loss_keys y) -> x = y.
Proof.
  intros Hx Hy. apply loss_keys_cases in Hx, Hy.
  destruct Hx as [[-> ->]|[-> [->| ->]]], Hy as [[-> E]|[-> [E|E]]];
    try reflexivity; discriminate.
Qed.

Lemma loss_keys_NoDup (x : string) : List.NoDup (loss_keys x).
Proof.
  unfold loss_keys.
  destruct (String.eqb x "labels"); [|destruct (String.eqb x "masks")].
  - constructor; [intros []|constructor].
  - constructor; [|constructor; [intros []|constructor]].
    intros [E|[]]. discriminate.
  - constructor.
Qed.

Lemma main_keys_prefix (names names' : list string) (k k' : string) :
  List.In k (flat_map loss_keys names) -> List.In k' (flat_map loss_keys names') ->
  String.prefix k k' = true -> k = k'.
Proof.
  intros Hk Hk' Hp.
  apply List.in_flat_map in Hk as (x & _ & Hk), Hk' as (y & _ & Hk').
  apply loss_keys_cases in Hk, Hk'.
  destruct Hk as [[_ ->]|[_ [->| ->]]], Hk' as [[_ ->]|[_ [->| ->]]];
    try reflexivity; discriminate.
Qed.

Lemma layer_suffix_inj (i j : nat) : layer_suffix i = layer_suffix j -> i = j.
Proof.
  unfold layer_suffix. intros H.
  assert (E : DecimalString.NilEmpty.string_of_uint (Nat.to_uint i)
              = DecimalString.NilEmpty.string_of_uint (Nat.to_uint j))
    by (apply (append_inj_r "_"); exact H).
  assert (U : Nat.to_uint i = Nat.to_uint j).
  { pose proof (DecimalString.NilEmpty.usu (Nat.to_uint i)) as Hi.
    pose proof (DecimalString.NilEmpty.usu (Nat.to_uint j)) as Hj.
    rewrite E in Hi. rewrite Hi in Hj. inversion Hj. reflexivity. }
  apply DecimalNat.Unsigned.to_uint_inj. exact U.
Qed.

Lemma suffixed_keys_inj (names names' : list string) (k k' : string) (i j : nat) :
  List.In k (flat_map loss_keys names) -> List.In k' (flat_map loss_keys names') ->
  String.append k (layer_suffix i) = String.append k' (layer_suffix j) ->
  k = k' /\ i = j.
Proof.
  intros Hk Hk' E.
  assert (Hkk : k = k').
  { destruct (append_prefix _ _ _ _ E) as [Hp|Hp].
    - exact (main_keys_prefix names names' k k' Hk Hk' Hp).
    - symmetry. exact (main_keys_prefix names' names k' k Hk' Hk Hp). }
  subst k'. split; [reflexivity|].
  apply layer_suffix_inj. exact (append_inj_r _ _ _ E).
Qed.

Lemma main_key_not_suffixed (names names' : list string) (k k' : string) (j : nat) :
  List.In k (flat_map loss_keys names) -> List.In k' (flat_map loss_keys names') ->
  k <> String.append k' (layer_suffix j).
Proof.
  intros Hk Hk' E.
  assert (E' : String.append k EmptyString = String.append k' (layer_suffix j)).
  { rewrite <- E. clear. induction k as [|c k IH]; [reflexivity|].
    change (String c (String.append k EmptyString) = String c k).
    f_equal. exact IH. }
  assert (Hkk : k = k').
  { destruct (append_prefix _ _ _ _ E') as [Hp|Hp].
    - exact (main_keys_prefix names names' k k' Hk Hk' Hp).
    - symmetry. exact (main_keys_prefix names' names k' k Hk' Hk Hp). }
  subst k'. apply append_inj_r in E'. discriminate.
Qed.

Lemma forward_main (self : MaskFormerLoss)
      (linear_sum_assignment : Tensor2 R -> list nat * list nat)
      (ctx : Loss.DistContext) (outputs : LossInput) (labels : Labels) :
  (forall m, assignment_form (rows2 m) (cols2 m) (linear_sum_assignment m)) ->
  List.Forall supported (losses self) ->
  (0 < eos_coef self)%R ->
  labels_fit self labels ->
  layer_fits self labels (last_predictions outputs) ->
  List.Forall (layer_fits self labels) (layers_of outputs) ->
  exists main d,
    forward self linear_sum_assignment ctx
            {| last_predictions := last_predictions outputs;
               auxilary_predictions := None |} labels = Ok main /\
    forward self linear_sum_assignment ctx outputs labels = Ok d /\
    all_nonneg d /\
    (forall k, is_Some (main !! k) <-> List.In k (flat_map loss_keys (losses self))) /\
    (forall k, is_Some (d !! k)
               <-> List.In k (reported_keys (losses self)
                                            (List.length (layers_of outputs)))) /\
    (forall k, List.In k (flat_map loss_keys (losses self)) -> d !! k = main !! k).
Proof.
  intros Hsolver Hnames Heos Hlabels Hlast Haux.
  pose proof (num_masks_pos ctx labels) as Hnum.
  unfold forward.
  destruct (matcher_on_layer self linear_sum_assignment labels
              {| preds_logits := preds_logits (last_predictions outputs);
                 preds_masks := preds_masks (last_predictions outputs) |}
              Hsolver Hlabels Hlast) as (indices & Hrun & Hlen & Hform).
  cbn [last_predictions auxilary_predictions].
  rewrite Hrun. simpl in Hform |- *.
  assert (Hempty : all_nonneg ∅).
  { intros k v Hk. rewrite lookup_empty in Hk. discriminate. }
  assert (Hid1 : forall (d : gmap string R) k' v,
             d !! k' = Some v -> exists k, d !! k = Some v)
    by (intros d k' v H; exists k'; exact H).
  assert (Hid2 : forall (d : gmap string R) k',
             is_Some (d !! k') <-> exists k, is_Some (d !! k) /\ k' = k).
  { intros d k'. split.
    - intros H. exists k'. split; [exact H|reflexivity].
    - intros (k & H & ->). exact H. }
  destruct (update_with_losses_ok self labels (last_predictions outputs) indices
              (Q2R (Loss.get_num_masks ctx labels)) (fun d => d) (fun k => k)
              Hlabels Hlast Heos Hnum Hlen Hform Hid1 Hid2
              (losses self) ∅ Hnames Hempty)
    as (acc1 & Hrun1 & Hnn1 & Hkeys1 & _).
  rewrite Hrun1. simpl.
  assert (Hmain : forall k, is_Some (acc1 !! k)
                            <-> List.In k (flat_map loss_keys (losses self))).
  { intros k. rewrite Hkeys1. split.
    - intros [H|(k0 & H & ->)]; [|exact H].
      rewrite lookup_empty in H. destruct H as [x H]. discriminate.
    - intros H. right. exists k. split; [exact H|reflexivity]. }
  exists acc1.
  unfold reported_keys, layers_of.
  destruct (auxilary_predictions outputs) as [layers|] eqn:E.
  - unfold layers_of in Haux. rewrite E in Haux.
    destruct (update_with_layers_ok self linear_sum_assignment labels
                (Q2R (Loss.get_num_masks ctx labels)) layers
                Hsolver Hlabels Heos Hnum Hnames Haux 0 acc1 Hnn1)
      as (acc2 & Hrun2 & Hnn2 & Hkeys2 & Hkeep2).
    exists acc2. split; [reflexivity|]. split; [exact Hrun2|]. split; [exact Hnn2|].
    split; [exact Hmain|]. split.
    + intros k. rewrite Hkeys2, Hmain, List.in_app_iff. reflexivity.
    + intros k Hk. apply Hkeep2. intros Hin.
      apply List.in_flat_map in Hin as (j & _ & Hin). unfold layer_keys in Hin.
      apply List.in_map_iff in Hin as (k' & E' & Hk'). symmetry in E'.
      exact (main_key_not_suffixed _ _ k k' j Hk Hk' E').
  - exists acc1. split; [reflexivity|]. split; [reflexivity|]. split; [exact Hnn1|].
    split; [exact Hmain|]. split; [|reflexivity].
    intros k. rewrite Hmain. simpl. rewrite List.app_nil_r. reflexivity.
Qed.

Lemma forward_value (self : MaskFormerLoss)
      (linear_sum_assignment : Tensor2 R -> list nat * list nat)
      (ctx : Loss.DistContext) (outputs : LossInput) (labels : Labels) :
  (forall m, assignment_form (rows2 m) (cols2 m) (linear_sum_assignment m)) ->
  List.Forall supported (losses self) ->
  (0 < eos_coef self)%R ->
  labels_fit self labels ->
  layer_fits self labels (last_predictions outputs) ->
  List.Forall (layer_fits self labels) (layers_of outputs) ->
  exists d,
    forward self linear_sum_assignment ctx outputs labels = Ok d /\
    all_nonneg d /\
    forall k, is_Some (d !! k)
              <-> List.In k (reported_keys (losses self)
                                           (List.length (layers_of outputs))).
Proof.
  intros Hsolver Hnames Heos Hlabels Hlast Haux.
  destruct (forward_main self linear_sum_assignment ctx outputs labels
              Hsolver Hnames Heos Hlabels Hlast Haux)
    as (main & d & _ & Hrun & Hnn & _ & Hkeys & _).
  exists d. auto.
Qed.

Lemma NoDup_flat_map {A B : Type} (g : A -> list B) (l : list A) :
  List.NoDup l -> (forall x, List.In x l -> List.NoDup (g x)) ->
  (forall x y b, List.In x l -> List.In y l ->
                 List.In b (g x) -> List.In b (g y) -> x = y) ->
  List.NoDup (flat_map g l).
Proof.
  intros Hl. induction Hl as [|x l Hx Hl IH]; intros Hg Hdisj; [constructor|].
  simpl. apply List.NoDup_app.
  - apply Hg. left. reflexivity.
  - apply IH.
    + intros y Hy. apply Hg. right. exact Hy.
    + intros y z b Hy Hz. apply Hdisj; right; assumption.
  - intros b Hb Hb'. apply List.in_flat_map in Hb' as (y & Hy & Hb').
    apply Hx. rewrite (Hdisj x y b); auto. left. reflexivity. right. exact Hy.
Qed.

Lemma main_keys_NoDup (names : list string) :
  List.NoDup names -> List.NoDup (flat_map loss_keys names).
Proof.
  intros H. apply NoDup_flat_map; [exact H| |].
  - intros x _. apply loss_keys_NoDup.
  - intros x y b _ _. apply loss_keys_owner.
Qed.

Lemma reported_keys_NoDup (names : list string) (n : nat) :
  List.NoDup names -> List.NoDup (reported_keys names n).
Proof.
  intros H. pose proof (main_keys_NoDup names H) as Hmain.
  unfold reported_keys. apply List.NoDup_app; [exact Hmain| |].
  - apply NoDup_flat_map; [apply List.seq_NoDup| |].
    + intros i _. unfold layer_keys.
      apply Injective_map_NoDup_in; [|exact Hmain].
      intros k k' Hk Hk' E.
      apply (suffixed_keys_inj names names k k' i i Hk Hk' E).
    + intros i j b _ _ Hi Hj. unfold layer_keys in Hi, Hj.
      apply List.in_map_iff in Hi as (k & <- & Hk), Hj as (k' & E & Hk').
      symmetry in E. apply (suffixed_keys_inj names names k k' i j Hk Hk' E).
  - intros k Hk Hk'. apply List.in_flat_map in Hk' as (j & _ & Hk').
    unfold layer_keys in Hk'. apply List.in_map_iff in Hk' as (k' & E & Hk').
    symmetry in E. exact (main_key_not_suffixed names names k k' j Hk Hk' E).
Qed.

Lemma reported_keys_length (names : list string) (n : nat) :
  List.length (reported_keys names n)
  = (List.length (flat_map loss_keys names) * S n)%nat.
Proof.
  unfold reported_keys. rewrite List.length_app.
  assert (H : forall i, List.length (flat_map (layer_keys names) (seq i n))
                        = (List.length (flat_map loss_keys names) * n)%nat).
  { induction n as [|n IH]; intros i; simpl; [lia|].
    rewrite List.length_app, IH. unfold layer_keys. rewrite List.length_map. lia. }
  rewrite H. lia.
Qed.

Lemma size_of_keys (d : gmap string R) (l : list string) :
  List.NoDup l -> (forall k, is_Some (d !! k) <-> List.In k l) ->
  size d = List.length l.
Proof.
  intros Hl Hk.
  rewrite <- size_dom.
  assert (E : dom d = list_to_set (C := gset string) l).
  { apply set_eq. intros k. rewrite elem_of_dom, elem_of_list_to_set, Hk.
    symmetry. apply list_elem_of_In. }
  rewrite E. apply size_list_to_set. apply NoDup_ListNoDup. exact Hl.
Qed.

(** X18: with a solver that returns assignments of the expected form, loss
    names among [labels] and [masks], a positive [eos_coef], labels that fit
    the criterion and predictions (last layer and every auxiliary layer)
    that fit the labels, [MaskFormerLoss.forward] returns a dictionary; all
    its values are non-negative, and its keys are exactly the keys of the
    requested losses, plain for the last layer and followed by [_i] for the
    auxiliary layer [i]. *)
Theorem forward_reports_nonneg_losses (self : MaskFormerLoss)
      (linear_sum_assignment : Tensor2 R -> list nat * list nat)
      (ctx : Loss.DistContext) (outputs : LossInput) (labels : Labels) :
  (forall m, assignment_form (rows2 m) (cols2 m) (linear_sum_assignment m)) ->
  List.Forall supported (losses self) ->
  (0 < eos_coef self)%R ->
  labels_fit self labels ->
  layer_fits self labels (last_predictions outputs) ->
  List.Forall (layer_fits self labels) (layers_of outputs) ->
  exists d,
    forward self linear_sum_assignment ctx outputs labels = Ok d /\
    all_nonneg d /\
    forall k, is_Some (d !! k)
              <-> List.In k (reported_keys (losses self)
                                           (List.length (layers_of outputs))).
Proof. apply forward_value. Qed.

(** X19: under the same conditions, when no loss name is requested twice,
    no entry written by [forward] overwrites another: the dictionary holds
    one entry per key of a requested loss and per layer, the last layer
    included. *)
Theorem forward_layers_kept_apart (self : MaskFormerLoss)
      (linear_sum_assignment : Tensor2 R -> list nat * list nat)
      (ctx : Loss.DistContext) (outputs : LossInput) (labels : Labels) :
  (forall m, assignment_form (rows2 m) (cols2 m) (linear_sum_assignment m)) ->
  List.Forall supported (losses self) ->
  List.NoDup (losses self) ->
  (0 < eos_coef self)%R ->
  labels_fit self labels ->
  layer_fits self labels (last_predictions outputs) ->
  List.Forall (layer_fits self labels) (layers_of outputs) ->
  exists d,
    forward self linear_sum_assignment ctx outputs labels = Ok d /\
    size d = (List.length (flat_map loss_keys (losses self))
              * S (List.length (layers_of outputs)))%nat.
Proof.
  intros Hsolver Hnames Hnodup Heos Hlabels Hlast Haux.
  destruct (forward_value self linear_sum_assignment ctx outputs labels)
    as (d & Hrun & _ & Hkeys); try assumption.
  exists d. split; [exact Hrun|].
  rewrite (size_of_keys d _ (reported_keys_NoDup (losses self) _ Hnodup) Hkeys).
  apply reported_keys_length.
Qed.

End CriterionForwardFacts.

(** ** The criterion on a batch of one image *)

Module CriterionExampleFacts.
Import Tensor Costs Matcher Criterion CriterionExamples.
Import CriterionFacts CriterionForwardFacts.

Lemma indices_one_usable : List.Forall (usable_matching 2 1) indices_one.
Proof.
  constructor; [|constructor]. unfold usable_matching. simpl.
  split; [reflexivity|]. split.
  - constructor; [intros []|constructor].
  - split; constructor; try constructor; lia.
Qed.

Lemma labels_one_classes (b t : nat) :
  (b < rows2 (classes Examples.labels_one))%nat ->
  (t < cols2 (classes Examples.labels_one))%nat ->
  (0 <= get2 (classes Examples.labels_one) b t
   < Z.of_nat (num_classes criterion_one_class + 1))%Z.
Proof.
  simpl. intros Hb Ht.
  destruct b as [|b]; [|lia]. destruct t as [|t]; [|lia]. simpl. lia.
Qed.

Lemma labels_one_binary : binary_masks (pixel Examples.labels_one).
Proof. intros b t i j _ _ _ _. right. reflexivity. Qed.

Lemma labels_one_fit : labels_fit criterion_one_class Examples.labels_one.
Proof.
  unfold labels_fit. simpl.
  split; [lia|]. split; [reflexivity|]. split; [reflexivity|].
  split; [exact labels_one_classes|]. split; [exact labels_one_binary|lia].
Qed.

Lemma outputs_one_fits :
  layer_fits criterion_one_class Examples.labels_one Examples.outputs_one.
Proof. unfold layer_fits. simpl. repeat split; lia. Qed.

Lemma criterion_one_class_supported :
  List.Forall supported (losses criterion_one_class).
Proof.
  constructor; [left; reflexivity|].
  constructor; [right; reflexivity|constructor].
Qed.

Lemma criterion_one_class_eos : (0 < eos_coef criterion_one_class)%R.
Proof. simpl. lra. Qed.

Lemma target_classes_of_matching_witness :
  exists target_classes,
    target_classes_of criterion_one_class (preds_logits Examples.outputs_one)
                      Examples.labels_one indices_one = Ok target_classes /\
    get2 target_classes 0 0 = 0%Z /\ get2 target_classes 0 1 = 1%Z.
Proof.
  destruct (target_classes_of_matching criterion_one_class
              (preds_logits Examples.outputs_one) Examples.labels_one indices_one)
    as (tc & Hrun & _ & _ & Hval).
  - discriminate.
  - reflexivity.
  - reflexivity.
  - exact indices_one_usable.
  - exists tc. split; [exact Hrun|].
    destruct (Hval 0%nat) as [Hm Hu]; [simpl; lia|]. split.
    + apply (Hm 0%Z 0%Z). left. reflexivity.
    + apply (Hu 1%nat). simpl. intros [E|[]]. discriminate.
Defined.

Lemma loss_labels_nonneg_witness :
  exists loss_ce,
    loss_labels criterion_one_class Examples.outputs_one Examples.labels_one
                indices_one 1
    = Ok {[ "loss_cross_entropy"%string := loss_ce ]} /\
    (0 <= loss_ce)%R.
Proof.
  apply (loss_labels_nonneg criterion_one_class Examples.outputs_one
           Examples.labels_one indices_one 1).
  - discriminate.
  - reflexivity.
  - reflexivity.
  - exact indices_one_usable.
  - reflexivity.
  - exact labels_one_classes.
  - exact criterion_one_class_eos.
  - simpl. lia.
Defined.

Lemma loss_masks_nonneg_witness :
  exists loss_mask loss_dice,
    loss_masks criterion_one_class Examples.outputs_one Examples.labels_one
               indices_one 1
    = Ok {[ "loss_mask"%string := loss_mask; "loss_dice"%string := loss_dice ]} /\
    (0 <= loss_mask)%R /\ (0 <= loss_dice)%R.
Proof.
  apply (loss_masks_nonneg criterion_one_class Examples.outputs_one
           Examples.labels_one indices_one 1).
  - discriminate.
  - simpl. lia.
  - simpl. lia.
  - exact indices_one_usable.
  - exact labels_one_binary.
  - simpl. lia.
  - lra.
Defined.

Lemma forward_reports_nonneg_losses_witness :
  exists d,
    forward criterion_one_class Exhaustive.exhaustive_assignment None
            input_two_layers Examples.labels_one = Ok d /\
    all_nonneg d /\
    forall k, is_Some (d !! k)
              <-> List.In k ["loss_cross_entropy"; "loss_mask"; "loss_dice";
                             "loss_cross_entropy_0"; "loss_mask_0";
                             "loss_dice_0"]%string.
Proof.
  apply (forward_reports_nonneg_losses criterion_one_class
           Exhaustive.exhaustive_assignment None input_two_layers
           Examples.labels_one).
  - exact ExhaustiveFacts.exhaustive_assignment_form.
  - exact criterion_one_class_supported.
  - exact criterion_one_class_eos.
  - exact labels_one_fit.
  - exact outputs_one_fits.
  - constructor; [exact outputs_one_fits|constructor].
Defined.

Lemma forward_layers_kept_apart_witness :
  exists d,
    forward criterion_one_class Exhaustive.exhaustive_assignment None
            input_two_layers Examples.labels_one = Ok d /\
    size d = 6%nat.
Proof.
  apply (forward_layers_kept_apart criterion_one_class
           Exhaustive.exhaustive_assignment None input_two_layers
           Examples.labels_one).
  - exact ExhaustiveFacts.exhaustive_assignment_form.
  - exact criterion_one_class_supported.
  - constructor; [|constructor; [intros []|constructor]].
    intros [E|[]]. discriminate.
  - exact criterion_one_class_eos.
  - exact labels_one_fit.
  - exact outputs_one_fits.
  - constructor; [exact outputs_one_fits|constructor].
Defined.

End CriterionExampleFacts.

(** ** The loss of the model *)

Module ModelLossFacts.
Import Tensor Costs Matcher Criterion CriterionFacts CriterionForwardFacts.
Import ModelLoss.
Local Open Scope R_scope.

Lemma init_ok (config : LossConfig) :
  exists model,
    init config = Ok model /\
    model_weight_dict model
    = {[ "loss_cross_entropy"%string := ce_weight config;
         "loss_mask"%string := mask_weight config;
         "loss_dice"%string := dice_weight config ]} /\
    num_classes (criterion model) = num_labels config /\
    eos_coef (criterion model) = no_object_weight config /\
    losses (criterion model) = ["labels"%string; "masks"%string].
Proof.
  unfold init, Matcher.init.
  destruct (Req_dec_T 1 0) as [E|_]; [lra|].
  eexists. split; [reflexivity|]. simpl. repeat split.
Qed.

Lemma three_keys (d : gmap string R) :
  (forall k, is_Some (d !! k)
             <-> List.In k ["loss_cross_entropy"; "loss_mask"; "loss_dice"]%string) ->
  exists ce mk dc,
    d = {[ "loss_cross_entropy"%string := ce; "loss_mask"%string := mk;
           "loss_dice"%string := dc ]}.
Proof.
  intros Hk.
  destruct (proj2 (Hk "loss_cross_entropy"%string)) as [ce Hce]; [simpl; auto|].
  destruct (proj2 (Hk "loss_mask"%string)) as [mk Hmk]; [simpl; auto|].
  destruct (proj2 (Hk "loss_dice"%string)) as [dc Hdc]; [simpl; auto|].
  exists ce, mk, dc. apply map_eq. intros k.
  destruct (decide (k = "loss_cross_entropy"%string)) as [->|N1].
  { rewrite Hce, lookup_insert_eq. reflexivity. }
  rewrite lookup_insert_ne by congruence.
  destruct (decide (k = "loss_mask"%string)) as [->|N2].
  { rewrite Hmk, lookup_insert_eq. reflexivity. }
  rewrite lookup_insert_ne by congruence.
  destruct (decide (k = "loss_dice"%string)) as [->|N3].
  { rewrite Hdc, lookup_singleton_eq. reflexivity. }
  rewrite lookup_singleton_ne by congruence.
  destruct (d !! k) as [v|] eqn:E; [|reflexivity].
  exfalso. destruct (proj1 (Hk k)) as [H|[H|[H|[]]]];
    [eexists; exact E| | |]; congruence.
Qed.

Lemma weighted_three (w_ce w_mk w_dc ce mk dc : R) (d : gmap string R) :
  d !! "loss_cross_entropy"%string = Some ce ->
  d !! "loss_mask"%string = Some mk ->
  d !! "loss_dice"%string = Some dc ->
  weighted {[ "loss_cross_entropy"%string := w_ce; "loss_mask"%string := w_mk;
              "loss_dice"%string := w_dc ]} d
  = {[ "loss_cross_entropy"%string := ce * w_ce; "loss_mask"%string := mk * w_mk;
       "loss_dice"%string := dc * w_dc ]}.
Proof.
  intros Hce Hmk Hdc. unfold weighted. apply map_eq. intros k.
  rewrite lookup_intersection_with.
  destruct (decide (k = "loss_cross_entropy"%string)) as [->|N1].
  { rewrite Hce, !lookup_insert_eq. reflexivity. }
  rewrite !(lookup_insert_ne _ "loss_cross_entropy"%string) by congruence.
  destruct (decide (k = "loss_mask"%string)) as [->|N2].
  { rewrite Hmk, !lookup_insert_eq. reflexivity. }
  rewrite !(lookup_insert_ne _ "loss_mask"%string) by congruence.
  destruct (decide (k = "loss_dice"%string)) as [->|N3].
  { rewrite Hdc, !lookup_singleton_eq. reflexivity. }
  rewrite !lookup_singleton_ne by congruence.
  destruct (d !! k); reflexivity.
Qed.

Lemma get_loss_three (a b c : R) :
  get_loss {[ "loss_cross_entropy"%string := a; "loss_mask"%string := b;
              "loss_dice"%string := c ]}
  = a + b + c.
Proof.
  unfold get_loss.
  rewrite map_fold_insert_L.
  - rewrite map_fold_insert_L.
    + rewrite map_fold_singleton. lra.
    + intros. lra.
    + apply lookup_singleton_ne. discriminate.
  - intros. lra.
  - rewrite lookup_insert_ne by discriminate. apply lookup_singleton_ne. discriminate.
Qed.

(** X20: for a model built by [MaskFormerModel.__init__], the weighted
    dictionary of [get_loss_dict] and its sum by [get_loss] depend on the
    last layer only: the criterion called without the auxiliary predictions
    gives three non-negative losses; with the auxiliary predictions
    [get_loss_dict] still returns exactly these three, each multiplied by
    its weight, and [get_loss] of that dictionary is their weighted sum.
    The entries of the auxiliary layers have no weight and are left out. *)
Theorem loss_dict_ignores_auxiliary_layers (config : LossConfig)
      (model : MaskFormerModel)
      (linear_sum_assignment : Tensor2 R -> list nat * list nat)
      (ctx : Loss.DistContext) (outputs : LossInput) (labels : Labels) :
  init config = Ok model ->
  (forall m, assignment_form (rows2 m) (cols2 m) (linear_sum_assignment m)) ->
  0 < no_object_weight config ->
  labels_fit (criterion model) labels ->
  layer_fits (criterion model) labels (last_predictions outputs) ->
  List.Forall (layer_fits (criterion model) labels) (layers_of outputs) ->
  exists ce mk dc weighted_loss_dict,
    0 <= ce /\ 0 <= mk /\ 0 <= dc /\
    Criterion.forward (criterion model) linear_sum_assignment ctx
                      {| last_predictions := last_predictions outputs;
                         auxilary_predictions := None |} labels
    = Ok {[ "loss_cross_entropy"%string := ce; "loss_mask"%string := mk;
            "loss_dice"%string := dc ]} /\
    get_loss_dict model linear_sum_assignment ctx outputs labels
    = Ok weighted_loss_dict /\
    weighted_loss_dict
    = {[ "loss_cross_entropy"%string := ce * ce_weight config;
         "loss_mask"%string := mk * mask_weight config;
         "loss_dice"%string := dc * dice_weight config ]} /\
    get_loss weighted_loss_dict
    = ce * ce_weight config + mk * mask_weight config + dc * dice_weight config.
Proof.
  intros Hinit Hsolver Heos Hlabels Hlast Haux.
  destruct (init_ok config) as (model' & Hinit' & Hw & Hnum & Heos' & Hlosses).
  assert (model' = model) by congruence. subst model'.
  assert (Hsup : List.Forall supported (losses (criterion model))).
  { rewrite Hlosses. constructor; [left; reflexivity|].
    constructor; [right; reflexivity|constructor]. }
  destruct (forward_main (criterion model) linear_sum_assignment ctx outputs labels)
    as (main & d & Hmain & Hrun & Hnn & Hkm & Hkd & Hsame); try assumption.
  { rewrite Heos'. exact Heos. }
  rewrite Hlosses in Hkm, Hsame. simpl in Hkm, Hsame.
  destruct (three_keys main Hkm) as (ce & mk & dc & ->).
  assert (Hce : d !! "loss_cross_entropy"%string = Some ce)
    by (rewrite Hsame; [apply lookup_insert_eq|simpl; auto]).
  assert (Hmk : d !! "loss_mask"%string = Some mk).
  { rewrite Hsame; [|simpl; auto]. rewrite lookup_insert_ne by discriminate.
    apply lookup_insert_eq. }
  assert (Hdc : d !! "loss_dice"%string = Some dc).
  { rewrite Hsame; [|simpl; auto]. rewrite !lookup_insert_ne by discriminate.
    apply lookup_singleton_eq. }
  exists ce, mk, dc. eexists.
  split; [exact (Hnn _ _ Hce)|]. split; [exact (Hnn _ _ Hmk)|].
  split; [exact (Hnn _ _ Hdc)|]. split; [exact Hmain|].
  split; [unfold get_loss_dict; rewrite Hrun; reflexivity|].
  rewrite Hw, (weighted_three _ _ _ ce mk dc d Hce Hmk Hdc).
  split; [reflexivity|]. apply get_loss_three.
Qed.

Lemma loss_dict_ignores_auxiliary_layers_witness :
  exists model ce mk dc weighted_loss_dict,
    init ModelExamples.config_one_class = Ok model /\
    0 <= ce /\ 0 <= mk /\ 0 <= dc /\
    get_loss_dict model Exhaustive.exhaustive_assignment None
                  CriterionExamples.input_two_layers Examples.labels_one
    = Ok weighted_loss_dict /\
    weighted_loss_dict
    = {[ "loss_cross_entropy"%string := ce * 1;
         "loss_mask"%string := mk * 20;
         "loss_dice"%string := dc * 1 ]} /\
    get_loss weighted_loss_dict = ce * 1 + mk * 20 + dc * 1.
Proof.
  destruct (init_ok ModelExamples.config_one_class)
    as (model & Hinit & _ & Hnum & _ & _).
  assert (Hlabels : labels_fit (criterion model) Examples.labels_one).
  { unfold labels_fit. rewrite Hnum.
    exact CriterionExampleFacts.labels_one_fit. }
  assert (Hlayer : layer_fits (criterion model) Examples.labels_one
                              Examples.outputs_one).
  { unfold layer_fits. rewrite Hnum.
    exact CriterionExampleFacts.outputs_one_fits. }
  destruct (loss_dict_ignores_auxiliary_layers
              ModelExamples.config_one_class model
              Exhaustive.exhaustive_assignment None
              CriterionExamples.input_two_layers Examples.labels_one)
    as (ce & mk & dc & w & Hce & Hmk & Hdc & _ & Hrun & Hw & Hsum).
  - exact Hinit.
  - exact ExhaustiveFacts.exhaustive_assignment_form.
  - simpl. lra.
  - exact Hlabels.
  - exact Hlayer.
  - constructor; [exact Hlayer|constructor].
  - exists model, ce, mk, dc, w. auto 10.
Defined.

End ModelLossFacts.

(** ** Windows of the Swin backbone *)

Module SwinFacts.
Import Swin.
Local Open Scope nat_scope.

Lemma unravel_length (s : list nat) (j : nat) :
  List.length (unravel s j) = List.length s.
Proof.
  revert j. induction s as [|d s IH]; intros j; simpl; [reflexivity|].
  rewrite IH. reflexivity.
Qed.

Lemma numel_pos_of_lt (s : list nat) (j : nat) : j < numel s -> 0 < numel s.
Proof. lia. Qed.

Lemma ravel_unravel (s : list nat) (j : nat) :
  j < numel s -> ravel s (unravel s j) = j.
Proof.
  revert j. induction s as [|d s IH]; intros j Hj; simpl in *; [lia|].
  destruct (Nat.eq_dec (numel s) 0) as [E|N].
  - rewrite E in Hj. lia.
  - rewrite IH by (apply Nat.mod_upper_bound; exact N).
    pose proof (Nat.div_mod_eq j (numel s)). lia.
Qed.

Lemma unravel_valid (s : list nat) (j : nat) :
  j < numel s -> valid_index s (unravel s j).
Proof.
  unfold valid_index.
  revert j. induction s as [|d s IH]; intros j Hj; simpl in *; [constructor|].
  destruct (Nat.eq_dec (numel s) 0) as [E|N].
  - rewrite E in Hj. lia.
  - constructor.
    + apply Nat.Div0.div_lt_upper_bound. lia.
    + apply IH. apply Nat.mod_upper_bound. exact N.
Qed.

Lemma ravel_lt (s idx : list nat) : valid_index s idx -> ravel s idx < numel s.
Proof.
  unfold valid_index. intros H.
  induction H as [|i d idx s Hi _ IH]; simpl; [lia|]. nia.
Qed.

Lemma unravel_ravel (s idx : list nat) :
  valid_index s idx -> unravel s (ravel s idx) = idx.
Proof.
  unfold valid_index. intros H.
  induction H as [|i d idx s Hi Hrest IH]; simpl; [reflexivity|].
  pose proof (ravel_lt s idx Hrest) as Hlt.
  assert (Hq : (i * numel s + ravel s idx) / numel s = i).
  { rewrite Nat.add_comm, Nat.div_add by lia. rewrite Nat.div_small by exact Hlt. lia. }
  assert (Hm : (i * numel s + ravel s idx) mod numel s = ravel s idx).
  { rewrite Nat.add_comm, Nat.Div0.mod_add. apply Nat.mod_small. exact Hlt. }
  rewrite Hq, Hm, IH. reflexivity.
Qed.

(** *** The two views and the permutation between them *)

Lemma view_known {A : Type} (x : NdTensor A) (sizes : list nat) :
  numel (shape x) = numel sizes ->
  view x (List.map Some sizes) = Done {| shape := sizes; data := data x |}.
Proof.
  intros Hn. unfold view.
  assert (Hc : inferred_count (List.map Some sizes) = 0).
  { clear Hn. unfold inferred_count. induction sizes as [|d l IH]; [reflexivity|exact IH]. }
  assert (Hk : known_sizes (List.map Some sizes) = numel sizes).
  { unfold known_sizes. rewrite List.map_map, List.map_id. reflexivity. }
  rewrite Hc, Hk.
  assert (E : (numel (shape x) =? numel sizes) = true) by (apply Nat.eqb_eq; exact Hn).
  rewrite E. rewrite List.map_map, List.map_id. reflexivity.
Qed.

Lemma permute_swap {A : Type} (x : NdTensor A) (a b c d e f : nat) :
  shape x = [a; b; c; d; e; f] ->
  permute_contiguous x [0; 1; 3; 2; 4; 5]
  = Done {| shape := [a; b; d; c; e; f];
            data := fun j =>
              data x (ravel [a; b; c; d; e; f]
                            (unpermuted 0 [0; 1; 3; 2; 4; 5] (unravel [a; b; d; c; e; f] j))) |}.
Proof. intros Hs. unfold permute_contiguous. rewrite Hs. reflexivity. Qed.

Lemma unpermuted_swap (a b c d e f : nat) :
  unpermuted 0 [0; 1; 3; 2; 4; 5] [a; b; c; d; e; f] = [a; b; d; c; e; f].
Proof. reflexivity. Qed.

Lemma view_infer_first {A : Type} (x : NdTensor A) (n : nat) (rest : list nat) :
  numel (shape x) = n * numel rest -> 0 < numel rest ->
  view x (None :: List.map Some rest) = Done {| shape := n :: rest; data := data x |}.
Proof.
  intros Hn Hpos. unfold view.
  assert (Hc : inferred_count (None :: List.map Some rest) = 1).
  { unfold inferred_count. simpl. f_equal.
    clear. induction rest as [|d l IH]; [reflexivity|exact IH]. }
  assert (Hk : known_sizes (None :: List.map Some rest) = numel rest).
  { unfold known_sizes. simpl. rewrite List.map_map, List.map_id. lia. }
  rewrite Hc, Hk, Hn.
  assert (E1 : (numel rest =? 0) = false) by (apply Nat.eqb_neq; lia).
  assert (E2 : (n * numel rest) mod numel rest = 0) by apply Nat.Div0.mod_mul.
  rewrite E1, E2. simpl. rewrite Nat.div_mul by lia.
  rewrite List.map_map, List.map_id. reflexivity.
Qed.

Lemma view_infer_last {A : Type} (x : NdTensor A) (n : nat) (front : list nat) :
  numel (shape x) = numel front * n -> 0 < numel front ->
  view x (List.map Some front ++ [None])
  = Done {| shape := front ++ [n]; data := data x |}.
Proof.
  intros Hn Hpos. unfold view.
  assert (Hc : inferred_count (List.map Some front ++ [None]) = 1).
  { unfold inferred_count. clear.
    induction front as [|d l IH]; [reflexivity|exact IH]. }
  assert (Hk : known_sizes (List.map Some front ++ [None]) = numel front).
  { unfold known_sizes. clear.
    induction front as [|d l IH]; simpl; [reflexivity|].
    simpl in IH. rewrite IH. reflexivity. }
  rewrite Hc, Hk, Hn.
  assert (E1 : (numel front =? 0) = false) by (apply Nat.eqb_neq; lia).
  assert (E2 : (numel front * n) mod numel front = 0).
  { rewrite Nat.mul_comm. apply Nat.Div0.mod_mul. }
  rewrite E1, E2. simpl.
  assert (E3 : numel front * n / numel front = n).
  { rewrite Nat.mul_comm. apply Nat.div_mul. lia. }
  rewrite E3, List.map_app, List.map_map, List.map_id. reflexivity.
Qed.

(** *** [window_partition] on a feature map made of whole windows *)

Lemma window_partition_value {A : Type} (x : NdTensor A) (B hq wq ws C : nat) :
  shape x = [B; hq * ws; wq * ws; C] -> 0 < ws -> 0 < C ->
  window_partition x ws
  = Done {| shape := [B * hq * wq; ws; ws; C];
            data := fun j =>
              data x (ravel [B; hq; ws; wq; ws; C]
                            (unpermuted 0 [0; 1; 3; 2; 4; 5]
                                        (unravel [B; hq; wq; ws; ws; C] j))) |}.
Proof.
  intros Hs Hws HC. unfold window_partition. rewrite Hs. unfold floordiv.
  assert (E : (ws =? 0) = false) by (apply Nat.eqb_neq; lia).
  rewrite E. cbn [obind]. rewrite !Nat.div_mul by lia.
  assert (Hv : numel (shape x) = numel [B; hq; ws; wq; ws; C])
    by (rewrite Hs; simpl; lia).
  apply view_known in Hv. cbn [List.map] in Hv. rewrite Hv. cbn [obind].
  rewrite (permute_swap _ B hq ws wq ws C) by reflexivity. cbn [obind].
  match goal with
  | |- view ?t _ = _ =>
      pose proof (view_infer_first t (B * hq * wq) [ws; ws; C]) as Hw
  end.
  cbn [List.map shape data] in Hw. apply Hw.
  - simpl. lia.
  - simpl. nia.
Qed.

Lemma whole_windows (n ws : nat) : 0 < ws -> n mod ws = 0 -> n = n / ws * ws.
Proof.
  intros Hws Hm. pose proof (Nat.div_mod_eq n ws). lia.
Qed.

Lemma window_element {A : Type} (x : NdTensor A) (B hq wq ws C : nat)
      (b hi wi i j c : nat) :
  b < B -> hi < hq -> wi < wq -> i < ws -> j < ws -> c < C ->
  data x (ravel [B; hq; ws; wq; ws; C]
                (unpermuted 0 [0; 1; 3; 2; 4; 5]
                   (unravel [B; hq; wq; ws; ws; C]
                      (ravel [B * hq * wq; ws; ws; C]
                             [(b * hq + hi) * wq + wi; i; j; c]))))
  = data x (ravel [B; hq * ws; wq * ws; C] [b; hi * ws + i; wi * ws + j; c]).
Proof.
  intros Hb Hhi Hwi Hi Hj Hc.
  assert (E1 : ravel [B * hq * wq; ws; ws; C] [(b * hq + hi) * wq + wi; i; j; c]
               = ravel [B; hq; wq; ws; ws; C] [b; hi; wi; i; j; c])
    by (simpl; ring).
  rewrite E1, unravel_ravel by (repeat constructor; assumption).
  f_equal. simpl. ring.
Qed.

(** X21: on a feature map (B, H, W, C) with at least one channel whose
    height and width are multiples of the window size, [window_partition]
    returns B * (H / ws) * (W / ws) windows of ws by ws pixels; window
    number (b * (H / ws) + hi) * (W / ws) + wi holds at (i, j, c) the
    element (b, hi * ws + i, wi * ws + j, c) of the feature map. *)
Theorem window_partition_windows {A : Type} (x : NdTensor A)
        (B H W C window_size : nat) :
  shape x = [B; H; W; C] ->
  0 < window_size -> 0 < C ->
  H mod window_size = 0 -> W mod window_size = 0 ->
  exists windows,
    window_partition x window_size = Done windows /\
    shape windows
    = [B * (H / window_size) * (W / window_size); window_size; window_size; C] /\
    forall b hi wi i j c,
      b < B -> hi < H / window_size -> wi < W / window_size ->
      i < window_size -> j < window_size -> c < C ->
      data windows (ravel (shape windows)
                          [(b * (H / window_size) + hi) * (W / window_size) + wi;
                           i; j; c])
      = data x (ravel (shape x)
                      [b; hi * window_size + i; wi * window_size + j; c]).
Proof.
  intros Hs Hws HC HH HW.
  pose proof (whole_windows H window_size Hws HH) as EH.
  pose proof (whole_windows W window_size Hws HW) as EW.
  set (hq := H / window_size) in *. set (wq := W / window_size) in *.
  assert (Hs' : shape x = [B; hq * window_size; wq * window_size; C])
    by (rewrite <- EH, <- EW; exact Hs).
  eexists. split; [apply (window_partition_value x B hq wq window_size C Hs' Hws HC)|].
  split; [reflexivity|].
  intros b hi wi i j c Hb Hhi Hwi Hi Hj Hc.
  cbn [shape data]. rewrite Hs'.
  apply window_element; assumption.
Qed.

(** *** [window_reverse] on the windows of a feature map *)

Lemma of_nat_nonzero (n : nat) : 0 < n -> ~ (of_nat n == 0)%Q.
Proof.
  intros Hn E. unfold of_nat, Qeq in E. simpl in E. lia.
Qed.

Lemma of_nat_mul (a b : nat) : (of_nat (a * b) == of_nat a * of_nat b)%Q.
Proof. unfold of_nat. rewrite Nat2Z.inj_mul, inject_Z_mult. reflexivity. Qed.

Lemma int_of_nat (q : Q) (n : nat) : (q == of_nat n)%Q -> int_of q = n.
Proof.
  intros E. unfold int_of. rewrite (Qround.Qfloor_comp _ _ E).
  unfold of_nat. rewrite Qround.Qfloor_Z. apply Nat2Z.id.
Qed.

Lemma truediv_value (a b : Q) : ~ (b == 0)%Q -> truediv a b = Done (a / b)%Q.
Proof.
  intros Hb. unfold truediv.
  destruct (Qeq_bool b 0) eqn:E; [|reflexivity].
  apply Qeq_bool_iff in E. contradiction.
Qed.

Lemma batch_of_windows {T : Type} (B hq wq ws : nat) (k : Q -> outcome T) :
  0 < ws -> 0 < hq -> 0 < wq ->
  exists b,
    (do* a := truediv (of_nat (hq * ws * (wq * ws))) (of_nat ws) in
     do* a := truediv a (of_nat ws) in
     do* b := truediv (of_nat (B * hq * wq)) a in
     k b) = k b /\
    int_of b = B.
Proof.
  intros Hws Hhq Hwq.
  pose proof (of_nat_nonzero ws Hws) as Nws.
  pose proof (of_nat_nonzero hq Hhq) as Nhq.
  pose proof (of_nat_nonzero wq Hwq) as Nwq.
  assert (Ea : (of_nat (hq * ws * (wq * ws)) / of_nat ws / of_nat ws
                == of_nat hq * of_nat wq)%Q).
  { rewrite !of_nat_mul. field. exact Nws. }
  assert (Na : ~ (of_nat (hq * ws * (wq * ws)) / of_nat ws / of_nat ws == 0)%Q).
  { rewrite Ea. intros E. apply Qmult_integral in E. tauto. }
  eexists. split.
  - rewrite (truediv_value _ _ Nws). cbn [obind].
    rewrite (truediv_value _ _ Nws). cbn [obind].
    rewrite (truediv_value _ _ Na). cbn [obind]. reflexivity.
  - apply int_of_nat. rewrite Ea, !of_nat_mul. field. split; assumption.
Qed.

Lemma window_reverse_value {A : Type} (windows : NdTensor A) (B hq wq ws C : nat) :
  shape windows = [B * hq * wq; ws; ws; C] ->
  0 < ws -> 0 < hq -> 0 < wq -> 0 < B ->
  window_reverse windows ws (hq * ws) (wq * ws)
  = Done {| shape := [B; hq * ws; wq * ws; C];
            data := fun j =>
              data windows (ravel [B; hq; wq; ws; ws; C]
                              (unpermuted 0 [0; 1; 3; 2; 4; 5]
                                 (unravel [B; hq; ws; wq; ws; C] j))) |}.
Proof.
  intros Hs Hws Hhq Hwq HB. unfold window_reverse. rewrite Hs.
  match goal with
  | |- obind _ (fun a => obind _ (fun a' => obind _ ?k)) = _ =>
      destruct (batch_of_windows B hq wq ws k Hws Hhq Hwq) as (b & Hrun & Hb)
  end.
  cbv beta in Hrun. rewrite Hrun. cbv beta. rewrite Hb.
  unfold floordiv.
  assert (E : (ws =? 0) = false) by (apply Nat.eqb_neq; lia).
  rewrite E. cbn [obind]. rewrite !Nat.div_mul by lia.
  pose proof (view_infer_last windows C [B; hq; wq; ws; ws]) as Hv.
  cbn [List.map List.app] in Hv. rewrite Hv; cycle 1.
  { rewrite Hs. simpl. lia. }
  { simpl. nia. }
  cbn [obind].
  rewrite (permute_swap _ B hq wq ws ws C) by reflexivity. cbn [obind].
  match goal with
  | |- view ?t _ = _ =>
      pose proof (view_infer_last t C [B; hq * ws; wq * ws]) as Hw
  end.
  cbn [List.map List.app shape data] in Hw. apply Hw.
  - simpl. lia.
  - simpl. nia.
Qed.

Lemma valid_six (a b c d e f : nat) (idx : list nat) :
  valid_index [a; b; c; d; e; f] idx ->
  exists i0 i1 i2 i3 i4 i5,
    idx = [i0; i1; i2; i3; i4; i5] /\
    i0 < a /\ i1 < b /\ i2 < c /\ i3 < d /\ i4 < e /\ i5 < f.
Proof.
  unfold valid_index. intros V.
  inversion V as [|i0 ? l0 ? H0 V0]; subst.
  inversion V0 as [|i1 ? l1 ? H1 V1]; subst.
  inversion V1 as [|i2 ? l2 ? H2 V2]; subst.
  inversion V2 as [|i3 ? l3 ? H3 V3]; subst.
  inversion V3 as [|i4 ? l4 ? H4 V4]; subst.
  inversion V4 as [|i5 ? l5 ? H5 V5]; subst.
  inversion V5; subst.
  exists i0, i1, i2, i3, i4, i5. repeat split; assumption.
Qed.

Lemma swap_round_trip (a b c d e f j : nat) :
  j < numel [a; b; c; d; e; f] ->
  ravel [a; b; c; d; e; f]
        (unpermuted 0 [0; 1; 3; 2; 4; 5]
           (unravel [a; b; d; c; e; f]
              (ravel [a; b; d; c; e; f]
                 (unpermuted 0 [0; 1; 3; 2; 4; 5]
                    (unravel [a; b; c; d; e; f] j)))))
  = j.
Proof.
  intros Hj.
  pose proof (unravel_valid _ j Hj) as V.
  pose proof (ravel_unravel _ j Hj) as R.
  destruct (valid_six _ _ _ _ _ _ _ V)
    as (i0 & i1 & i2 & i3 & i4 & i5 & E & H0 & H1 & H2 & H3 & H4 & H5).
  rewrite E in R |- *.
  change (unpermuted 0 [0; 1; 3; 2; 4; 5] [i0; i1; i2; i3; i4; i5])
    with [i0; i1; i3; i2; i4; i5].
  rewrite unravel_ravel by (repeat constructor; assumption).
  exact R.
Qed.

(** X22: on a feature map that is not empty and whose height and width
    are multiples of the window size, [window_reverse] undoes
    [window_partition]: both succeed, and the result has the shape and the
    elements of the feature map. *)
Theorem window_reverse_partition {A : Type} (x : NdTensor A)
        (B H W C window_size : nat) :
  shape x = [B; H; W; C] ->
  0 < window_size -> 0 < B -> 0 < H -> 0 < W -> 0 < C ->
  H mod window_size = 0 -> W mod window_size = 0 ->
  exists windows x',
    window_partition x window_size = Done windows /\
    window_reverse windows window_size H W = Done x' /\
    same_tensor x' x.
Proof.
  intros Hs Hws HB HH HW HC MH MW.
  pose proof (whole_windows H window_size Hws MH) as EH.
  pose proof (whole_windows W window_size Hws MW) as EW.
  set (hq := H / window_size) in *. set (wq := W / window_size) in *.
  assert (Hhq : 0 < hq) by nia. assert (Hwq : 0 < wq) by nia.
  assert (Hs' : shape x = [B; hq * window_size; wq * window_size; C])
    by (rewrite <- EH, <- EW; exact Hs).
  eexists. eexists.
  split; [apply (window_partition_value x B hq wq window_size C Hs' Hws HC)|].
  split.
  - rewrite EH, EW.
    apply (window_reverse_value _ B hq wq window_size C); auto.
  - unfold same_tensor. cbn [shape data]. split; [symmetry; exact Hs'|].
    intros j Hj. f_equal. apply swap_round_trip.
    simpl in Hj |- *. lia.
Qed.

(** X23: conversely, on the windows of a feature map (B, H, W, C) that is
    not empty and whose height and width are multiples of the window size,
    [window_partition] undoes [window_reverse]. *)
Theorem window_partition_reverse {A : Type} (windows : NdTensor A)
        (B H W C window_size : nat) :
  shape windows
  = [B * (H / window_size) * (W / window_size); window_size; window_size; C] ->
  0 < window_size -> 0 < B -> 0 < H -> 0 < W -> 0 < C ->
  H mod window_size = 0 -> W mod window_size = 0 ->
  exists x windows',
    window_reverse windows window_size H W = Done x /\
    shape x = [B; H; W; C] /\
    window_partition x window_size = Done windows' /\
    same_tensor windows' windows.
Proof.
  intros Hs Hws HB HH HW HC MH MW.
  pose proof (whole_windows H window_size Hws MH) as EH.
  pose proof (whole_windows W window_size Hws MW) as EW.
  set (hq := H / window_size) in *. set (wq := W / window_size) in *.
  assert (Hhq : 0 < hq) by nia. assert (Hwq : 0 < wq) by nia.
  eexists. eexists. split.
  { rewrite EH, EW.
    apply (window_reverse_value _ B hq wq window_size C); auto. }
  split; [cbn [shape]; rewrite <- EH, <- EW; reflexivity|].
  split.
  { apply (window_partition_value _ B hq wq window_size C); auto. }
  unfold same_tensor. cbn [shape data]. split; [symmetry; exact Hs|].
  intros j Hj. f_equal. apply swap_round_trip.
  simpl in Hj |- *. lia.
Qed.

(** *** Feature maps that are not made of whole windows *)

Lemma part_windows (n ws : nat) : 0 < ws -> n mod ws <> 0 -> n / ws * ws < n.
Proof.
  intros Hws Hm. pose proof (Nat.div_mod_eq n ws). lia.
Qed.

Lemma within_windows (n ws : nat) : n / ws * ws <= n.
Proof.
  destruct (Nat.eq_dec ws 0) as [->|N]; [lia|].
  pose proof (Nat.div_mod_eq n ws). lia.
Qed.

(** X24: on a feature map that is not empty, [window_partition] fails in
    its first [view] as soon as the height or the width is not a multiple of
    the window size. *)
Theorem window_partition_needs_whole_windows {A : Type} (x : NdTensor A)
        (B H W C window_size : nat) :
  shape x = [B; H; W; C] ->
  0 < window_size -> 0 < B -> 0 < H -> 0 < W -> 0 < C ->
  H mod window_size <> 0 \/ W mod window_size <> 0 ->
  window_partition x window_size = Raised ShapeError.
Proof.
  intros Hs Hws HB HH HW HC Hpart.
  unfold window_partition. rewrite Hs. unfold floordiv.
  assert (E : (window_size =? 0) = false) by (apply Nat.eqb_neq; lia).
  rewrite E. cbn [obind].
  set (hq := H / window_size). set (wq := W / window_size).
  assert (Hlt : hq * window_size * (wq * window_size) < H * W).
  { pose proof (within_windows H window_size) as LH.
    pose proof (within_windows W window_size) as LW.
    fold hq in LH. fold wq in LW.
    destruct Hpart as [P|P].
    - pose proof (part_windows H window_size Hws P) as SH. fold hq in SH. nia.
    - pose proof (part_windows W window_size Hws P) as SW. fold wq in SW. nia. }
  unfold view at 1. rewrite Hs.
  change (inferred_count _) with 0.
  assert (Hne : (numel [B; H; W; C]
                 =? known_sizes [Some B; Some hq; Some window_size;
                                 Some wq; Some window_size; Some C]) = false).
  { apply Nat.eqb_neq. unfold known_sizes. simpl.
    assert (Hbc : 0 < B * C) by nia.
    intros Heq.
    assert (B * C * (H * W) = B * C * (hq * window_size * (wq * window_size)))
      by (rewrite !Nat.mul_1_r in Heq; nia).
    nia. }
  rewrite Hne. reflexivity.
Qed.

(** *** Padding to whole windows *)

Lemma Qceiling_unique (x : Q) (c : Z) :
  (inject_Z (c - 1) < x)%Q -> (x <= inject_Z c)%Q -> Qround.Qceiling x = c.
Proof.
  intros Hlo Hhi.
  assert (H1 : (Qround.Qceiling x <= c)%Z).
  { rewrite <- (Qround.Qceiling_Z c). apply Qround.Qceiling_resp_le. exact Hhi. }
  assert (H2 : (c - 1 < Qround.Qceiling x)%Z).
  { rewrite Zlt_Qlt. eapply Qlt_le_trans; [exact Hlo|apply Qround.Qle_ceiling]. }
  lia.
Qed.

Lemma ceiling_of_quotient (n ws : nat) :
  0 < ws ->
  Z.to_nat (Qround.Qceiling (of_nat n / of_nat ws))
  = n / ws + (if n mod ws =? 0 then 0 else 1).
Proof.
  intros Hws.
  pose proof (Nat.div_mod_eq n ws) as Hdm.
  pose proof (Nat.mod_upper_bound n ws ltac:(lia)) as Hr.
  set (q := n / ws) in *. set (r := n mod ws) in *.
  assert (Hpos : (0 < of_nat ws)%Q).
  { unfold of_nat. replace 0%Q with (inject_Z 0) by reflexivity.
    rewrite <- Zlt_Qlt. lia. }
  assert (Hc : Qround.Qceiling (of_nat n / of_nat ws)
               = Z.of_nat (q + (if r =? 0 then 0 else 1))).
  { apply Qceiling_unique.
    - apply Qlt_shift_div_l; [exact Hpos|].
      unfold of_nat. rewrite <- inject_Z_mult, <- Zlt_Qlt.
      destruct (r =? 0) eqn:E;
        [apply Nat.eqb_eq in E|apply Nat.eqb_neq in E]; nia.
    - apply Qle_shift_div_r; [exact Hpos|].
      unfold of_nat. rewrite <- inject_Z_mult, <- Zle_Qle.
      destruct (r =? 0) eqn:E;
        [apply Nat.eqb_eq in E|apply Nat.eqb_neq in E]; nia. }
  rewrite Hc. apply Nat2Z.id.
Qed.

(** X25: the padding that [SwinTransformerBlock.forward] adds along an
    axis is smaller than the window size, is zero when the extent is a
    multiple of the window size already, and makes the extent a multiple of
    the window size; the padded extent is the one for which
    [BasicLayer.forward] builds the attention mask. *)
Theorem padding_gives_whole_windows (window_size n : nat) :
  0 < window_size ->
  exists pad,
    pad_amount window_size n = Done pad /\
    pad < window_size /\
    (n + pad) mod window_size = 0 /\
    (n mod window_size = 0 -> pad = 0) /\
    mask_extent window_size n = Done (n + pad).
Proof.
  intros Hws.
  pose proof (Nat.div_mod_eq n window_size) as Hdm.
  pose proof (Nat.mod_upper_bound n window_size ltac:(lia)) as Hr.
  unfold pad_amount, mask_extent.
  assert (E : (window_size =? 0) = false) by (apply Nat.eqb_neq; lia).
  rewrite E, (truediv_value _ _ (of_nat_nonzero window_size Hws)). cbn [obind].
  rewrite (ceiling_of_quotient n window_size Hws).
  set (q := n / window_size) in *. set (r := n mod window_size) in *.
  eexists. split; [reflexivity|].
  destruct (r =? 0) eqn:Er; [apply Nat.eqb_eq in Er|apply Nat.eqb_neq in Er].
  - rewrite Er, Nat.sub_0_r, Nat.Div0.mod_same.
    split; [lia|]. split; [|split; [reflexivity|f_equal; lia]].
    rewrite Nat.add_0_r. exact Er.
  - rewrite (Nat.mod_small (window_size - r)) by lia.
    split; [lia|]. split; [|split; [intros; contradiction|f_equal; lia]].
    replace (n + (window_size - r)) with ((q + 1) * window_size) by lia.
    apply Nat.Div0.mod_mul.
Qed.

(** *** The theorems on a feature map of two windows *)

Lemma window_partition_windows_witness :
  exists windows,
    window_partition SwinExamples.feature_map 2 = Done windows /\
    shape windows = [2; 2; 2; 1] /\
    forall b hi wi i j c,
      b < 1 -> hi < 1 -> wi < 2 -> i < 2 -> j < 2 -> c < 1 ->
      data windows (ravel (shape windows) [(b * 1 + hi) * 2 + wi; i; j; c])
      = data SwinExamples.feature_map
             (ravel [1; 2; 4; 1] [b; hi * 2 + i; wi * 2 + j; c]).
Proof.
  apply (window_partition_windows SwinExamples.feature_map 1 2 4 1 2).
  - reflexivity.
  - lia.
  - lia.
  - reflexivity.
  - reflexivity.
Defined.

Lemma window_reverse_partition_witness :
  exists windows x',
    window_partition SwinExamples.feature_map 2 = Done windows /\
    window_reverse windows 2 2 4 = Done x' /\
    same_tensor x' SwinExamples.feature_map.
Proof.
  apply (window_reverse_partition SwinExamples.feature_map 1 2 4 1 2);
    try reflexivity; lia.
Defined.

Lemma window_partition_reverse_witness :
  exists x windows',
    window_reverse SwinExamples.two_windows 2 2 4 = Done x /\
    shape x = [1; 2; 4; 1] /\
    window_partition x 2 = Done windows' /\
    same_tensor windows' SwinExamples.two_windows.
Proof.
  apply (window_partition_reverse SwinExamples.two_windows 1 2 4 1 2);
    try reflexivity; lia.
Defined.

Lemma window_partition_needs_whole_windows_witness :
  window_partition SwinExamples.feature_map_odd 2 = Raised ShapeError.
Proof.
  apply (window_partition_needs_whole_windows SwinExamples.feature_map_odd 1 3 4 1 2);
    try reflexivity; try lia.
  left. simpl. lia.
Defined.

Lemma padding_gives_whole_windows_witness :
  exists pad,
    pad_amount 7 10 = Done pad /\
    pad < 7 /\
    (10 + pad) mod 7 = 0 /\
    (10 mod 7 = 0 -> pad = 0) /\
    mask_extent 7 10 = Done (10 + pad).
Proof. apply (padding_gives_whole_windows 7 10). lia. Defined.

End SwinFacts.

(** ** Semantic segmentation *)

Module SemanticFacts.
Import Tensor Costs CostFacts Matcher Semantic.
Local Open Scope R_scope.

Lemma rsum_const (n : nat) (a : R) : rsum n (fun _ => a) = INR n * a.
Proof.
  induction n as [|n IH]; [simpl; lra|].
  change (rsum (S n) (fun _ => a)) with (rsum n (fun _ => a) + a).
  rewrite IH, S_INR. lra.
Qed.

Lemma rsum_exchange (n m : nat) (f : nat -> nat -> R) :
  rsum n (fun i => rsum m (fun j => f i j)) = rsum m (fun j => rsum n (fun i => f i j)).
Proof.
  induction n as [|n IH]; simpl.
  - rewrite rsum_const. lra.
  - rewrite IH. symmetry. apply rsum_plus.
Qed.

(** The classes of a query other than the last one never have more than
    the whole probability. *)
Lemma softmax_without_last (x : Tensor3 R) (b q : nat) :
  0 <= rsum (dim3_2 x - 1) (fun c => get3 (softmax_last x) b q c) <= 1.
Proof.
  unfold softmax_last. cbn [get3].
  destruct (dim3_2 x) as [|n] eqn:E; [simpl; lra|].
  replace (S n - 1)%nat with n by lia.
  set (S := rsum (Datatypes.S n) (fun k => exp (get3 x b q k))).
  assert (HS : S = rsum n (fun k => exp (get3 x b q k)) + exp (get3 x b q n))
    by reflexivity.
  assert (Hn : 0 <= rsum n (fun k => exp (get3 x b q k)))
    by (apply rsum_nonneg; intros; left; apply exp_pos).
  pose proof (exp_pos (get3 x b q n)) as He.
  assert (HSpos : 0 < S) by lra.
  rewrite (rsum_ext n _ (fun c => / S * exp (get3 x b q c)))
    by (intros; unfold Rdiv; apply Rmult_comm).
  rewrite rsum_scal.
  assert (Hinv : 0 < / S) by (apply Rinv_0_lt_compat; exact HSpos).
  split.
  - apply Rmult_le_pos; lra.
  - apply (Rmult_le_reg_l S); [exact HSpos|].
    rewrite <- Rmult_assoc, Rinv_r by lra. lra.
Qed.

Lemma softmax_nonneg (x : Tensor3 R) (b q c : nat) :
  0 <= get3 (softmax_last x) b q c.
Proof.
  unfold softmax_last. cbn [get3].
  assert (H : 0 <= rsum (dim3_2 x) (fun k => exp (get3 x b q k)))
    by (apply rsum_nonneg; intros; left; apply exp_pos).
  pose proof (exp_pos (get3 x b q c)) as He.
  destruct H as [H|H].
  - left. apply Rdiv_lt_0_compat; assumption.
  - rewrite <- H. unfold Rdiv. rewrite Rinv_0. lra.
Qed.

(** X26: when the class logits and the mask logits agree in batch size and
    in the number of queries, the segmentation that
    [MaskFormerForSemanticSegmentation.forward] computes from them has one
    channel per class other than the last (null) one; no score in it is
    negative, and at each pixel the scores of all classes together do not
    exceed the sum of the mask probabilities of the queries, itself at most
    the number of queries. *)
Theorem forward_scores_bounded (outputs : Outputs) :
  dim3_0 (preds_logits outputs) = dim4_0 (preds_masks outputs) ->
  dim3_1 (preds_logits outputs) = dim4_1 (preds_masks outputs) ->
  exists segmentation,
    forward outputs = Ok segmentation /\
    dim4_0 segmentation = dim4_0 (preds_masks outputs) /\
    dim4_1 segmentation = (dim3_2 (preds_logits outputs) - 1)%nat /\
    dim4_2 segmentation = dim4_2 (preds_masks outputs) /\
    dim4_3 segmentation = dim4_3 (preds_masks outputs) /\
    forall b h w,
      (b < dim4_0 segmentation)%nat ->
      (forall c, 0 <= get4 segmentation b c h w) /\
      rsum (dim4_1 segmentation) (fun c => get4 segmentation b c h w)
      <= rsum (dim4_1 (preds_masks outputs))
              (fun q => sigmoid (get4 (preds_masks outputs) b q h w)) /\
      rsum (dim4_1 (preds_masks outputs))
           (fun q => sigmoid (get4 (preds_masks outputs) b q h w))
      <= INR (dim4_1 (preds_masks outputs)).
Proof.
  intros HB HQ.
  unfold forward, einsum_bqc_bqhw_bchw.
  cbn [drop_last_class sigmoid4 dim3_0 dim3_1 dim3_2 dim4_0 dim4_1 dim4_2 dim4_3
       get3 get4].
  change (dim3_0 (softmax_last (preds_logits outputs)))
    with (dim3_0 (preds_logits outputs)).
  change (dim3_1 (softmax_last (preds_logits outputs)))
    with (dim3_1 (preds_logits outputs)).
  change (dim3_2 (softmax_last (preds_logits outputs)))
    with (dim3_2 (preds_logits outputs)).
  rewrite HB, HQ, !bdim_same.
  eexists. split; [reflexivity|]. cbn [dim4_0 dim4_1 dim4_2 dim4_3 get4].
  repeat (split; [reflexivity|]).
  set (x := preds_logits outputs) in *. set (m := preds_masks outputs) in *.
  set (Q := dim4_1 m) in *.
  intros b h w Hb.
  assert (Hbb : bidx (dim4_0 m) b = b).
  { unfold bidx. destruct (dim4_0 m =? 1)%nat eqn:E; [|reflexivity].
    apply Nat.eqb_eq in E. lia. }
  assert (Hqq : forall k, (k < Q)%nat -> bidx Q k = k).
  { intros k Hk. unfold bidx. destruct (Q =? 1)%nat eqn:E; [|reflexivity].
    apply Nat.eqb_eq in E. lia. }
  rewrite Hbb.
  assert (Hterm : forall c,
             rsum Q (fun k => get3 (softmax_last x) b (bidx Q k) c
                              * sigmoid (get4 m b (bidx Q k) h w))
             = rsum Q (fun k => get3 (softmax_last x) b k c
                                * sigmoid (get4 m b k h w))).
  { intros c. apply rsum_ext. intros k Hk. rewrite (Hqq k Hk). reflexivity. }
  split; [|split].
  - intros c. rewrite Hterm. apply rsum_nonneg.
    intros k _. apply Rmult_le_pos.
    + apply softmax_nonneg.
    + left. apply sigmoid_bounds.
  - rewrite (rsum_ext _ _ _ (fun c _ => Hterm c)).
    rewrite rsum_exchange.
    apply rsum_le. intros k _.
    rewrite (rsum_ext _ _ (fun c => sigmoid (get4 m b k h w)
                                    * get3 (softmax_last x) b k c))
      by (intros; apply Rmult_comm).
    rewrite rsum_scal.
    pose proof (softmax_without_last x b k) as [_ Hs].
    pose proof (sigmoid_bounds (get4 m b k h w)) as [Hp _].
    rewrite <- (Rmult_1_r (sigmoid (get4 m b k h w))) at 2.
    apply Rmult_le_compat_l; [lra|exact Hs].
  - rewrite <- (Rmult_1_r (INR Q)), <- rsum_const.
    apply rsum_le. intros k _. left. apply sigmoid_bounds.
Qed.

Lemma forward_scores_bounded_witness :
  exists segmentation,
    forward Examples.outputs_one = Ok segmentation /\
    dim4_1 segmentation = 1%nat /\
    0 <= get4 segmentation 0 0 0 0 /\
    rsum 1 (fun c => get4 segmentation 0 c 0 0) <= sigmoid 1 + sigmoid (-1) /\
    sigmoid 1 + sigmoid (-1) <= 2.
Proof.
  destruct (forward_scores_bounded Examples.outputs_one)
    as (seg & Hrun & HB & HC & _ & _ & Hval).
  - reflexivity.
  - reflexivity.
  - exists seg. split; [exact Hrun|]. split; [exact HC|].
    destruct (Hval 0%nat 0%nat 0%nat) as (Hpos & Hsum & Hq).
    { rewrite HB. simpl. lia. }
    split; [apply Hpos|].
    rewrite HC in Hsum. simpl in Hsum, Hq. simpl.
    split; lra.
Defined.

End SemanticFacts.

(** ** Patch merging *)

Module MergingFacts.
Import Swin SwinFacts Merging.
Local Open Scope nat_scope.

Lemma at4_from_index4 {A : Type} (d : A) (s : list nat)
      (f : nat -> nat -> nat -> nat -> A) (b h w c : nat) :
  valid_index s [b; h; w; c] ->
  at4 (from_index4 d s f) b h w c = f b h w c.
Proof.
  intros V. unfold at4, from_index4. cbn [shape data].
  rewrite (unravel_ravel s _ V). reflexivity.
Qed.

Lemma valid4 (B H W C b h w c : nat) :
  b < B -> h < H -> w < W -> c < C -> valid_index [B; H; W; C] [b; h; w; c].
Proof. intros. repeat constructor; assumption. Qed.

Lemma view_infer_middle {A : Type} (x : NdTensor A) (a n c : nat) :
  numel (shape x) = a * n * c -> 0 < a * c ->
  view x [Some a; None; Some c] = Done {| shape := [a; n; c]; data := data x |}.
Proof.
  intros Hn Hpos. unfold view.
  change (inferred_count [Some a; None; Some c]) with 1.
  assert (Hk : known_sizes [Some a; None; Some c] = a * c)
    by (unfold known_sizes; simpl; lia).
  rewrite Hk, Hn.
  assert (E1 : (a * c =? 0) = false) by (apply Nat.eqb_neq; lia).
  assert (E2 : (a * n * c) mod (a * c) = 0).
  { replace (a * n * c) with (n * (a * c)) by lia. apply Nat.Div0.mod_mul. }
  assert (E3 : a * n * c / (a * c) = n).
  { replace (a * n * c) with (n * (a * c)) by lia. apply Nat.div_mul. lia. }
  rewrite E1, E2. cbn [orb negb Nat.eqb List.map]. rewrite E3. reflexivity.
Qed.

Lemma downsampled_double (n : nat) : 2 * downsampled n = n + n mod 2.
Proof.
  unfold downsampled.
  pose proof (Nat.div_mod_eq n 2). pose proof (Nat.div_mod_eq (n + 1) 2).
  pose proof (Nat.mod_upper_bound n 2). pose proof (Nat.mod_upper_bound (n + 1) 2).
  lia.
Qed.

Lemma strided_even (start m : nat) : start < 2 -> strided start (2 * m) = m.
Proof.
  intros Hs. unfold strided.
  destruct start as [|[|]]; [| |lia].
  - rewrite Nat.sub_0_r. replace (2 * m + 1) with (1 + m * 2) by lia.
    rewrite Nat.div_add by lia. reflexivity.
  - destruct m as [|m]; [reflexivity|].
    replace (2 * S m - 1 + 1) with (S m * 2) by lia. apply Nat.div_mul. lia.
Qed.

(** The feature map after the optional padding. *)
Lemma padded_value (x : NdTensor R) (B H W C : nat) :
  shape x = [B; H; W; C] ->
  exists p,
    (if (H mod 2 =? 1) || (W mod 2 =? 1)
     then pad_right_bottom x (W mod 2) (H mod 2) else Done x) = Done p /\
    shape p = [B; 2 * downsampled H; 2 * downsampled W; C] /\
    forall b h w c,
      b < B -> h < 2 * downsampled H -> w < 2 * downsampled W -> c < C ->
      at4 p b h w c = if (h <? H) && (w <? W) then at4 x b h w c else 0%R.
Proof.
  intros Hs. rewrite !downsampled_double.
  destruct ((H mod 2 =? 1) || (W mod 2 =? 1)) eqn:E.
  - unfold pad_right_bottom. rewrite Hs. eexists. split; [reflexivity|].
    split; [reflexivity|].
    intros b h w c Hb Hh Hw Hc.
    rewrite at4_from_index4 by (apply valid4; assumption). reflexivity.
  - apply Bool.orb_false_iff in E as [EH EW].
    apply Nat.eqb_neq in EH, EW.
    pose proof (Nat.mod_upper_bound H 2 ltac:(lia)) as BH.
    pose proof (Nat.mod_upper_bound W 2 ltac:(lia)) as BW.
    assert (ZH : H mod 2 = 0) by lia. assert (ZW : W mod 2 = 0) by lia.
    rewrite ZH, ZW, !Nat.add_0_r.
    exists x. split; [reflexivity|]. split; [exact Hs|].
    intros b h w c Hb Hh Hw Hc.
    assert (E1 : (h <? H) = true) by (apply Nat.ltb_lt; exact Hh).
    assert (E2 : (w <? W) = true) by (apply Nat.ltb_lt; exact Hw).
    rewrite E1, E2. reflexivity.
Qed.

Lemma every_other_value (p : NdTensor R) (B H2 W2 C sh sw : nat) :
  shape p = [B; 2 * H2; 2 * W2; C] -> sh < 2 -> sw < 2 ->
  exists y,
    every_other p sh sw = Done y /\
    shape y = [B; H2; W2; C] /\
    forall b i j c, b < B -> i < H2 -> j < W2 -> c < C ->
      at4 y b i j c = at4 p b (2 * i + sh) (2 * j + sw) c.
Proof.
  intros Hs Hsh Hsw. unfold every_other. rewrite Hs.
  rewrite (strided_even sh H2 Hsh), (strided_even sw W2 Hsw).
  eexists. split; [reflexivity|]. split; [reflexivity|].
  intros b i j c Hb Hi Hj Hc.
  rewrite at4_from_index4 by (apply valid4; assumption). reflexivity.
Qed.

Lemma flat_position (x : NdTensor R) (B H W C b h w c : nat) :
  shape x = [B; H * W; C] ->
  at4 {| shape := [B; H; W; C]; data := data x |} b h w c = at3 x b (h * W + w) c.
Proof.
  intros Hs. unfold at4, at3. cbn [shape data]. rewrite Hs. f_equal. simpl. ring.
Qed.

(** X27: on the tokens (B, H * W, C) of a feature map, with at least one
    image and one channel, the gathering step of [PatchMerging.forward]
    returns (H + 1) // 2 times (W + 1) // 2 tokens of 4 * C channels, the
    resolution that [BasicLayer.forward] reports for the merged map; the
    token at (i, j) holds in its [k]-th group of C channels the token at
    row 2 * i + k mod 2 and column 2 * j + k // 2 of the input, and zeros
    where that position lies in the padding. *)
Theorem gather_neighbours (x : NdTensor R) (B H W C : nat) :
  shape x = [B; H * W; C] ->
  0 < B -> 0 < C ->
  exists y,
    gather x H W = Done y /\
    shape y = [B; downsampled H * downsampled W; 4 * C] /\
    forall b i j k c,
      b < B -> i < downsampled H -> j < downsampled W -> k < 4 -> c < C ->
      at3 y b (i * downsampled W + j) (k * C + c)
      = if (2 * i + k mod 2 <? H) && (2 * j + k / 2 <? W)
        then at3 x b ((2 * i + k mod 2) * W + (2 * j + k / 2)) c
        else 0%R.
Proof.
  intros Hs HB HC.
  set (h2 := downsampled H). set (w2 := downsampled W).
  unfold gather. rewrite Hs, Nat.eqb_refl. cbn [negb].
  assert (Hv : numel (shape x) = numel [B; H; W; C]) by (rewrite Hs; simpl; lia).
  apply view_known in Hv. cbn [List.map] in Hv. rewrite Hv. cbn [obind].
  set (x4 := {| shape := [B; H; W; C]; data := data x |}).
  destruct (padded_value x4 B H W C eq_refl) as (p & Hp & Hsp & Hel).
  fold h2 w2 in Hsp, Hel. rewrite Hp. cbn [obind].
  destruct (every_other_value p B h2 w2 C 0 0 Hsp) as (x0 & R0 & S0 & E0); [lia..|].
  destruct (every_other_value p B h2 w2 C 1 0 Hsp) as (x1 & R1 & S1 & E1); [lia..|].
  destruct (every_other_value p B h2 w2 C 0 1 Hsp) as (x2 & R2 & S2 & E2); [lia..|].
  destruct (every_other_value p B h2 w2 C 1 1 Hsp) as (x3 & R3 & S3 & E3); [lia..|].
  rewrite R0. cbn [obind]. rewrite R1. cbn [obind].
  rewrite R2. cbn [obind]. rewrite R3. cbn [obind].
  unfold cat_last. rewrite S0, S1, S2, S3, !Nat.eqb_refl. cbn [andb obind].
  match goal with
  | |- context [view ?t _] =>
      pose proof (view_infer_middle t B (h2 * w2) (4 * C)) as Hw
  end.
  cbn [shape] in Hw. rewrite Hw; [|simpl; ring|apply Nat.mul_pos_pos; lia].
  eexists. split; [reflexivity|]. split; [reflexivity|].
  intros b i j k c Hb Hi Hj Hk Hc.
  unfold at3 at 1. cbn [shape data from_index4].
  assert (Er : ravel [B; h2 * w2; 4 * C] [b; i * w2 + j; k * C + c]
               = ravel [B; h2; w2; C + C + C + C] [b; i; j; k * C + c])
    by (simpl; ring).
  rewrite Er, unravel_ravel by (apply valid4; try assumption; nia).
  assert (Hpix : forall sh sw, sh < 2 -> sw < 2 ->
            at4 p b (2 * i + sh) (2 * j + sw) c
            = if (2 * i + sh <? H) && (2 * j + sw <? W)
              then at3 x b ((2 * i + sh) * W + (2 * j + sw)) c else 0%R).
  { intros sh sw Hsh Hsw. rewrite Hel by lia.
    destruct ((2 * i + sh <? H) && (2 * j + sw <? W)); [|reflexivity].
    apply flat_position. exact Hs. }
  destruct k as [|[|[|[|k]]]]; [| | | |lia].
  - assert (T : (0 * C + c <? C) = true) by (apply Nat.ltb_lt; lia).
    rewrite T. replace (0 * C + c) with c by lia.
    rewrite E0 by assumption. apply (Hpix 0 0); lia.
  - assert (T1 : (1 * C + c <? C) = false) by (apply Nat.ltb_ge; lia).
    assert (T2 : (1 * C + c <? C + C) = true) by (apply Nat.ltb_lt; lia).
    rewrite T1, T2. replace (1 * C + c - C) with c by lia.
    rewrite E1 by assumption. apply (Hpix 1 0); lia.
  - assert (T1 : (2 * C + c <? C) = false) by (apply Nat.ltb_ge; lia).
    assert (T2 : (2 * C + c <? C + C) = false) by (apply Nat.ltb_ge; lia).
    assert (T3 : (2 * C + c <? C + C + C) = true) by (apply Nat.ltb_lt; lia).
    rewrite T1, T2, T3. replace (2 * C + c - C - C) with c by lia.
    rewrite E2 by assumption. apply (Hpix 0 1); lia.
  - assert (T1 : (3 * C + c <? C) = false) by (apply Nat.ltb_ge; lia).
    assert (T2 : (3 * C + c <? C + C) = false) by (apply Nat.ltb_ge; lia).
    assert (T3 : (3 * C + c <? C + C + C) = false) by (apply Nat.ltb_ge; lia).
    rewrite T1, T2, T3. replace (3 * C + c - C - C - C) with c by lia.
    rewrite E3 by assumption. apply (Hpix 1 1); lia.
Qed.

Lemma gather_neighbours_witness :
  exists y,
    gather MergingExamples.tokens_odd 3 3 = Done y /\
    shape y = [1; downsampled 3 * downsampled 3; 4 * 1] /\
    forall b i j k c,
      b < 1 -> i < downsampled 3 -> j < downsampled 3 -> k < 4 -> c < 1 ->
      at3 y b (i * downsampled 3 + j) (k * 1 + c)
      = if (2 * i + k mod 2 <? 3) && (2 * j + k / 2 <? 3)
        then at3 MergingExamples.tokens_odd b
                 ((2 * i + k mod 2) * 3 + (2 * j + k / 2)) c
        else 0%R.
Proof.
  apply (gather_neighbours MergingExamples.tokens_odd 1 3 3 1).
  - reflexivity.
  - lia.
  - lia.
Defined.

End MergingFacts.

(** ** The window path of a Swin block *)

Module BlockFacts.
Import Swin SwinFacts Merging MergingFacts Block.
Local Open Scope nat_scope.

Lemma is_map4_ext (t : NdTensor R) (s : list nat)
      (g g' : nat -> nat -> nat -> nat -> R) :
  is_map4 t s g ->
  (forall b h w c, valid_index s [b; h; w; c] -> g b h w c = g' b h w c) ->
  is_map4 t s g'.
Proof.
  intros [Hs Hg] Hext. split; [exact Hs|].
  intros b h w c V. rewrite (Hg b h w c V). apply Hext. exact V.
Qed.

Lemma is_map4_from_index4 (s : list nat) (f : nat -> nat -> nat -> nat -> R) :
  is_map4 (from_index4 0%R s f) s f.
Proof.
  split; [reflexivity|]. intros b h w c V. apply at4_from_index4. exact V.
Qed.

Lemma valid4_inv (B H W C b h w c : nat) :
  valid_index [B; H; W; C] [b; h; w; c] -> b < B /\ h < H /\ w < W /\ c < C.
Proof.
  unfold valid_index. intros V.
  inversion V as [|? ? ? ? Hb V1]; subst.
  inversion V1 as [|? ? ? ? Hh V2]; subst.
  inversion V2 as [|? ? ? ? Hw V3]; subst.
  inversion V3 as [|? ? ? ? Hc V4]; subst.
  auto.
Qed.

Lemma rolled_from_lt (n : nat) (shift : Z) (i : nat) : 0 < n -> rolled_from n shift i < n.
Proof.
  intros Hn. unfold rolled_from.
  pose proof (Z.mod_pos_bound (Z.of_nat i - shift) (Z.of_nat n) ltac:(lia)). lia.
Qed.

Lemma rolled_from_zero (n i : nat) : i < n -> rolled_from n 0 i = i.
Proof.
  intros Hi. unfold rolled_from. rewrite Z.sub_0_r, Z.mod_small by lia. lia.
Qed.

Lemma rolled_back (n : nat) (shift : Z) (i : nat) :
  i < n -> rolled_from n (- shift) (rolled_from n shift i) = i.
Proof.
  intros Hi. unfold rolled_from.
  pose proof (Z.mod_pos_bound (Z.of_nat i - shift) (Z.of_nat n) ltac:(lia)).
  rewrite Z2Nat.id by lia.
  replace ((Z.of_nat i - shift) mod Z.of_nat n - - shift)%Z
    with ((Z.of_nat i - shift) mod Z.of_nat n + shift)%Z by lia.
  rewrite Zplus_mod_idemp_l.
  replace (Z.of_nat i - shift + shift)%Z with (Z.of_nat i) by lia.
  rewrite Z.mod_small by lia. lia.
Qed.

(** The optional roll, with the shift it amounts to. *)
Lemma roll_stage (t : NdTensor R) (B Hp Wp C : nat) (on : bool) (shift : Z)
      (g : nat -> nat -> nat -> nat -> R) :
  is_map4 t [B; Hp; Wp; C] g ->
  exists r,
    (if on then roll_hw t shift else Done t) = Done r /\
    is_map4 r [B; Hp; Wp; C]
            (fun b h w c =>
               g b (rolled_from Hp (if on then shift else 0%Z) h)
                   (rolled_from Wp (if on then shift else 0%Z) w) c).
Proof.
  intros [Hs Hg]. destruct on.
  - unfold roll_hw. rewrite Hs. eexists. split; [reflexivity|].
    eapply is_map4_ext; [apply is_map4_from_index4|].
    intros b h w c V. apply valid4_inv in V as (Hb & Hh & Hw & Hc).
    apply Hg. apply valid4; try assumption; apply rolled_from_lt; lia.
  - exists t. split; [reflexivity|]. split; [exact Hs|].
    intros b h w c V. rewrite (Hg b h w c V).
    apply valid4_inv in V as (Hb & Hh & Hw & Hc).
    rewrite !rolled_from_zero by assumption. reflexivity.
Qed.

Lemma is_map4_same (t t' : NdTensor R) (s : list nat)
      (g : nat -> nat -> nat -> nat -> R) :
  same_tensor t' t -> is_map4 t s g -> is_map4 t' s g.
Proof.
  intros [Hs Hd] [Hst Hg]. split; [congruence|].
  intros b h w c V. rewrite <- (Hg b h w c V).
  unfold at4. rewrite Hs. apply Hd. rewrite Hs, Hst. apply ravel_lt. exact V.
Qed.

(** The optional crop. *)
Lemma crop_stage (t : NdTensor R) (B H W C pad_r pad_b : nat)
      (g : nat -> nat -> nat -> nat -> R) :
  is_map4 t [B; H + pad_b; W + pad_r; C] g ->
  exists y,
    (if (0 <? pad_r) || (0 <? pad_b) then crop_hw t H W else Done t) = Done y /\
    is_map4 y [B; H; W; C] g.
Proof.
  intros [Hs Hg].
  destruct ((0 <? pad_r) || (0 <? pad_b)) eqn:E.
  - unfold crop_hw. rewrite Hs.
    replace (Nat.min H (H + pad_b)) with H by lia.
    replace (Nat.min W (W + pad_r)) with W by lia.
    eexists. split; [reflexivity|].
    eapply is_map4_ext; [apply is_map4_from_index4|].
    intros b h w c V. apply valid4_inv in V as (Hb & Hh & Hw & Hc).
    apply Hg. apply valid4; lia.
  - apply Bool.orb_false_iff in E as [Er Eb].
    apply Nat.ltb_ge in Er, Eb.
    assert (pad_r = 0) by lia. assert (pad_b = 0) by lia. subst.
    rewrite !Nat.add_0_r in Hs, Hg.
    exists t. split; [reflexivity|]. split; assumption.
Qed.

Lemma pad_amount_value (ws n : nat) :
  0 < ws ->
  exists pad q, pad_amount ws n = Done pad /\ n + pad = q * ws /\ (0 < n -> 0 < q).
Proof.
  intros Hws. unfold pad_amount.
  assert (E : (ws =? 0) = false) by (apply Nat.eqb_neq; lia).
  rewrite E.
  pose proof (Nat.div_mod_eq n ws) as Hdm.
  pose proof (Nat.mod_upper_bound n ws ltac:(lia)) as Hr.
  eexists. destruct (Nat.eq_dec (n mod ws) 0) as [Z|N].
  - exists (n / ws). split; [reflexivity|].
    rewrite Z, Nat.sub_0_r, Nat.Div0.mod_same. split; [lia|]. nia.
  - exists (n / ws + 1). split; [reflexivity|].
    rewrite (Nat.mod_small (ws - n mod ws)) by lia. split; [lia|]. nia.
Qed.

Lemma valid_four (a b c d : nat) (idx : list nat) :
  valid_index [a; b; c; d] idx ->
  exists i0 i1 i2 i3,
    idx = [i0; i1; i2; i3] /\ i0 < a /\ i1 < b /\ i2 < c /\ i3 < d.
Proof.
  unfold valid_index. intros V.
  inversion V as [|i0 ? l0 ? H0 V0]; subst.
  inversion V0 as [|i1 ? l1 ? H1 V1]; subst.
  inversion V1 as [|i2 ? l2 ? H2 V2]; subst.
  inversion V2 as [|i3 ? l3 ? H3 V3]; subst.
  inversion V3; subst.
  exists i0, i1, i2, i3. repeat split; assumption.
Qed.

(** A 4-d tensor with the elements of [x], seen as tokens again. *)
Lemma tokens_again (x t : NdTensor R) (B H W C : nat) :
  shape x = [B; H * W; C] ->
  is_map4 t [B; H; W; C]
          (fun b h w c =>
             if (h <? H) && (w <? W)
             then at4 {| shape := [B; H; W; C]; data := data x |} b h w c
             else 0%R) ->
  exists y,
    view t [Some B; Some (H * W); Some C] = Done y /\ same_tensor y x.
Proof.
  intros Hs [Hst Hg].
  assert (Hv : numel (shape t) = numel [B; H * W; C]) by (rewrite Hst; simpl; lia).
  apply view_known in Hv. cbn [List.map] in Hv. rewrite Hv.
  eexists. split; [reflexivity|].
  unfold same_tensor. cbn [shape data]. split; [symmetry; exact Hs|].
  intros j Hj.
  assert (Hj' : j < numel [B; H; W; C]) by (simpl in Hj |- *; lia).
  pose proof (unravel_valid _ j Hj') as V.
  pose proof (ravel_unravel _ j Hj') as Rj.
  destruct (valid_four _ _ _ _ _ V) as (b & h & w & c & E & Hb & Hh & Hw & Hc).
  rewrite E in Rj.
  assert (Ht : at4 t b h w c = data t j) by (unfold at4; rewrite Hst, Rj; reflexivity).
  rewrite <- Ht, (Hg b h w c) by (apply valid4; assumption).
  assert (E1 : (h <? H) = true) by (apply Nat.ltb_lt; exact Hh).
  assert (E2 : (w <? W) = true) by (apply Nat.ltb_lt; exact Hw).
  rewrite E1, E2. unfold at4. cbn [shape data andb]. rewrite Rj. reflexivity.
Qed.

(** X28: the path of [SwinTransformerBlock.forward] from the tokens to the
    windows and back loses and moves nothing: with an attention that
    returns its windows unchanged, on tokens (B, H * W, C) of a feature map
    that is not empty and a positive window size, the padding, the cyclic
    shift, [window_partition], the two views around the attention,
    [window_reverse], the reverse shift and the crop all succeed, whatever
    the shift and whether or not the extents are multiples of the window
    size, and they return the tokens they were given. *)
Theorem window_path_identity {M : Type} (self : SwinTransformerBlock)
        (x : NdTensor R) (mask_matrix : M) (B C : nat) :
  shape x = [B; H self * W self; C] ->
  0 < window_size self -> 0 < B -> 0 < C -> 0 < H self -> 0 < W self ->
  exists y,
    window_path (fun windows _ => Done windows) self x mask_matrix = Done y /\
    same_tensor y x.
Proof.
  intros Hs Hws HB HC HH HW.
  destruct self as [ws k H W]. cbn [window_size shift_size Block.H Block.W] in *.
  unfold window_path. cbn [window_size shift_size Block.H Block.W].
  rewrite Hs, Nat.eqb_refl. cbn [negb].
  assert (Hv : numel (shape x) = numel [B; H; W; C]) by (rewrite Hs; simpl; lia).
  apply view_known in Hv. cbn [List.map] in Hv. rewrite Hv. cbn [obind].
  set (x4 := {| shape := [B; H; W; C]; data := data x |}).
  destruct (pad_amount_value ws W Hws) as (pad_r & wq & Rr & EW & Pw).
  destruct (pad_amount_value ws H Hws) as (pad_b & hq & Rb & EH & Ph).
  specialize (Pw HW). specialize (Ph HH).
  rewrite Rr. cbn [obind]. rewrite Rb. cbn [obind].
  unfold pad_right_bottom at 1. cbn [shape x4 obind from_index4].
  set (g := fun b h w c : nat =>
              if (h <? H) && (w <? W) then at4 x4 b h w c else 0%R).
  fold (from_index4 0%R [B; H + pad_b; W + pad_r; C] g).
  pose proof (is_map4_from_index4 [B; H + pad_b; W + pad_r; C] g) as Ip.
  destruct (roll_stage _ B (H + pad_b) (W + pad_r) C (0 <? k) (- Z.of_nat k)%Z g Ip)
    as (r & Rroll & Ir).
  rewrite Rroll. cbn [obind].
  assert (Hsr : shape r = [B; hq * ws; wq * ws; C])
    by (rewrite <- EH, <- EW; exact (proj1 Ir)).
  rewrite (window_partition_value r B hq wq ws C Hsr Hws HC). cbn [obind].
  match goal with
  | |- context [view ?w [None; Some (ws * ws); Some C]] =>
      pose proof (view_infer_first w (B * hq * wq) [ws * ws; C]) as V1
  end.
  cbn [List.map shape data] in V1. rewrite V1; [|simpl; ring|simpl; nia].
  cbn [obind].
  match goal with
  | |- context [view ?w [None; Some ws; Some ws; Some C]] =>
      pose proof (view_infer_first w (B * hq * wq) [ws; ws; C]) as V2
  end.
  cbn [List.map shape data] in V2. rewrite V2; [|simpl; ring|simpl; nia].
  cbn [obind].
  match goal with
  | |- context [window_reverse ?w _ _ _] =>
      pose proof (window_reverse_value w B hq wq ws C eq_refl Hws Ph Pw HB) as Rrev
  end.
  rewrite <- EH, <- EW in Rrev. rewrite Rrev. cbn [obind].
  match goal with
  | |- context [roll_hw ?t _] => set (r' := t)
  end.
  assert (Ir' : is_map4 r' [B; H + pad_b; W + pad_r; C]
                  (fun b h w c =>
                     g b (rolled_from (H + pad_b)
                                      (if 0 <? k then (- Z.of_nat k)%Z else 0%Z) h)
                         (rolled_from (W + pad_r)
                                      (if 0 <? k then (- Z.of_nat k)%Z else 0%Z) w) c)).
  { apply (is_map4_same r r'); [|exact Ir].
    unfold same_tensor, r'. cbn [shape data].
    split; [symmetry; exact (proj1 Ir)|].
    intros j Hj. f_equal. rewrite EH, EW in Hj.
    apply swap_round_trip. simpl in Hj |- *. lia. }
  destruct (roll_stage r' B (H + pad_b) (W + pad_r) C (0 <? k) (Z.of_nat k) _ Ir')
    as (u & Runroll & Iu).
  rewrite Runroll. cbn [obind].
  assert (Iu' : is_map4 u [B; H + pad_b; W + pad_r; C] g).
  { eapply is_map4_ext; [exact Iu|].
    intros b h w c V. apply valid4_inv in V as (Hb & Hh & Hw & Hc). cbv beta.
    assert (Eshift : (if 0 <? k then (- Z.of_nat k)%Z else 0%Z)
                     = Z.opp (if 0 <? k then Z.of_nat k else 0%Z))
      by (destruct (0 <? k); reflexivity).
    rewrite Eshift, !rolled_back by assumption. reflexivity. }
  destruct (crop_stage u B H W C pad_r pad_b g Iu') as (cr & Rcrop & Icr).
  rewrite Rcrop. cbn [obind].
  apply (tokens_again x cr B H W C Hs Icr).
Qed.

Lemma window_path_identity_witness :
  exists y,
    window_path (fun windows _ => Done windows) BlockExamples.block_shifted
                MergingExamples.tokens_odd tt = Done y /\
    same_tensor y MergingExamples.tokens_odd.
Proof.
  apply (window_path_identity BlockExamples.block_shifted
           MergingExamples.tokens_odd tt 1 1).
  - reflexivity.
  - simpl. lia.
  - lia.
  - lia.
  - simpl. lia.
  - simpl. lia.
Defined.

End BlockFacts.

(** ** The losses on dictionaries that may lack an entry *)

Module CriterionDictFacts.
Import Tensor Costs Matcher MaskLosses Criterion CriterionFacts.
Import CriterionDicts.

(** On dictionaries that hold every entry, the losses are those of
    [Criterion]. *)
Lemma loss_labels_present (self : MaskFormerLoss) (o : Outputs) (l : Labels)
      (indices : Indices) (num_masks : R) :
  loss_labels self (outputs_dict o) (labels_dict l) indices num_masks
  = Criterion.loss_labels self o l indices num_masks.
Proof.
  unfold loss_labels, Criterion.loss_labels, target_classes_of. simpl.
  destruct (get_src_permutation_idx indices) as [idx|e]; [simpl|reflexivity].
  destruct (mapM _ _) as [picked|e]; [simpl|reflexivity].
  destruct (cat picked) as [tc|e]; [simpl|reflexivity].
  reflexivity.
Qed.

Lemma loss_masks_present (self : MaskFormerLoss) (o : Outputs) (l : Labels)
      (indices : Indices) (num_masks : R) :
  loss_masks self (outputs_dict o) (labels_dict l) indices num_masks
  = Criterion.loss_masks self o l indices num_masks.
Proof.
  unfold loss_masks, Criterion.loss_masks. simpl.
  destruct (get_src_permutation_idx indices) as [idx|e]; [simpl|reflexivity].
  destruct (get_tgt_permutation_idx indices) as [idx'|e]; [simpl|reflexivity].
  destruct (index_pairs (preds_masks o) idx) as [p|e]; reflexivity.
Qed.

Lemma src_permutation_idx_ok (indices : Indices) :
  indices <> [] -> exists idx, get_src_permutation_idx indices = Ok idx.
Proof.
  intros Hne. unfold get_src_permutation_idx, enumerate.
  destruct indices as [|ij rest]; [contradiction|]. simpl. eexists. reflexivity.
Qed.

Lemma tgt_permutation_idx_ok (indices : Indices) :
  indices <> [] -> exists idx, get_tgt_permutation_idx indices = Ok idx.
Proof.
  intros Hne. unfold get_tgt_permutation_idx, enumerate.
  destruct indices as [|ij rest]; [contradiction|]. simpl. eexists. reflexivity.
Qed.

Lemma loss_labels_key_error (self : MaskFormerLoss) (outputs : OutputsDict)
      (labels : LabelsDict) (indices : Indices) (num_masks : R) :
  indices <> [] ->
  (loss_labels self outputs labels indices num_masks = Err KeyError
   <-> logits_entry outputs = None \/ classes_entry labels = None).
Proof.
  intros Hne. destruct (src_permutation_idx_ok indices Hne) as (idx & Hidx).
  destruct outputs as [[lg|] mk], labels as [px [cl|]]; simpl.
  - split; [|intros [H|H]; discriminate].
    intros Herr. exfalso.
    pose proof (nke_loss_labels self
                  {| preds_logits := lg;
                     preds_masks := mkT4 0 0 0 0 (fun _ _ _ _ => 0%R) |}
                  {| pixel := mkT4 0 0 0 0 (fun _ _ _ _ => 0%R); classes := cl |}
                  indices num_masks) as Hn.
    apply Hn. rewrite <- Herr. symmetry.
    unfold loss_labels, Criterion.loss_labels, target_classes_of. simpl.
    rewrite Hidx. simpl.
    destruct (mapM _ _) as [picked|e]; [simpl|reflexivity].
    destruct (cat picked) as [tc|e]; reflexivity.
  - split; [right; reflexivity|]. intros _.
    unfold loss_labels. simpl. rewrite Hidx. reflexivity.
  - split; [left; reflexivity|]. intros _. reflexivity.
  - split; [left; reflexivity|]. intros _. reflexivity.
Qed.

Lemma loss_masks_key_error (self : MaskFormerLoss) (outputs : OutputsDict)
      (labels : LabelsDict) (indices : Indices) (num_masks : R) :
  indices <> [] ->
  (loss_masks self outputs labels indices num_masks = Err KeyError
   <-> masks_entry outputs = None
       \/ (pixel_entry labels = None /\
           exists pred_masks src_idx picked,
             masks_entry outputs = Some pred_masks /\
             get_src_permutation_idx indices = Ok src_idx /\
             index_pairs pred_masks src_idx = Ok picked)).
Proof.
  intros Hne. destruct (src_permutation_idx_ok indices Hne) as (idx & Hidx).
  destruct (tgt_permutation_idx_ok indices Hne) as (idx' & Hidx').
  assert (Hip : forall m i, no_key_error (index_pairs m i)).
  { intros m i. unfold index_pairs. nke. }
  destruct outputs as [lg [mk|]], labels as [[px|] cl]; simpl.
  - split.
    + intros Herr. exfalso.
      pose proof (nke_loss_masks self
                    {| preds_logits := mkT3 0 0 0 (fun _ _ _ => 0%R);
                       preds_masks := mk |}
                    {| pixel := px; classes := mkT2 0 0 (fun _ _ => 0%Z) |}
                    indices num_masks) as Hn.
      apply Hn. rewrite <- Herr. symmetry.
      unfold loss_masks, Criterion.loss_masks. simpl.
      rewrite Hidx, Hidx'. simpl.
      destruct (index_pairs mk idx) as [p|e]; reflexivity.
    + intros [H|[H _]]; discriminate.
  - unfold loss_masks. simpl. rewrite Hidx, Hidx'. simpl.
    destruct (index_pairs mk idx) as [p|e] eqn:E; simpl.
    + split; [|reflexivity]. intros _. right. split; [reflexivity|].
      exists mk, idx, p. auto.
    + split.
      * intros Herr. exfalso. apply (Hip mk idx). rewrite E.
        inversion Herr. reflexivity.
      * intros [H|[_ (m & i & p & Hm & Hi & Hp)]]; [discriminate|].
        inversion Hm; subst m. inversion Hi; subst i.
        rewrite E in Hp. discriminate.
  - split; [left; reflexivity|]. intros _.
    unfold loss_masks. simpl. rewrite Hidx, Hidx'. reflexivity.
  - split; [left; reflexivity|]. intros _.
    unfold loss_masks. simpl. rewrite Hidx, Hidx'. reflexivity.
Qed.

(** X17: for a matching that is not empty, [get_loss] ends in [KeyError]
    exactly in these cases: the name of the loss is neither [labels] nor
    [masks]; the name is [labels] and [outputs] lacks the class logits or
    [labels] lacks the classes; the name is [masks] and [outputs] lacks the
    masks, or [labels] lacks the masks while the predicted masks were
    selected without error. Nothing else in the two losses raises
    [KeyError]. *)
Theorem get_loss_key_error (self : MaskFormerLoss) (loss : string)
        (outputs : OutputsDict) (labels : LabelsDict) (indices : Indices)
        (num_masks : R) :
  indices <> [] ->
  (get_loss self loss outputs labels indices num_masks = Err KeyError
   <-> (loss <> "labels"%string /\ loss <> "masks"%string)
       \/ (loss = "labels"%string /\
           (logits_entry outputs = None \/ classes_entry labels = None))
       \/ (loss = "masks"%string /\
           (masks_entry outputs = None
            \/ (pixel_entry labels = None /\
                exists pred_masks src_idx picked,
                  masks_entry outputs = Some pred_masks /\
                  get_src_permutation_idx indices = Ok src_idx /\
                  index_pairs pred_masks src_idx = Ok picked)))).
Proof.
  intros Hne.
  destruct (String.eqb_spec loss "labels") as [->|N1].
  - change (get_loss self "labels" outputs labels indices num_masks)
      with (loss_labels self outputs labels indices num_masks).
    rewrite (loss_labels_key_error self outputs labels indices num_masks Hne).
    split.
    + intros H. right. left. split; [reflexivity|exact H].
    + intros [[H _]|[[_ H]|[H _]]]; [congruence|exact H|discriminate].
  - destruct (String.eqb_spec loss "masks") as [->|N2].
    + change (get_loss self "masks" outputs labels indices num_masks)
        with (loss_masks self outputs labels indices num_masks).
      rewrite (loss_masks_key_error self outputs labels indices num_masks Hne).
      split.
      * intros H. right. right. split; [reflexivity|exact H].
      * intros [[_ H]|[[H _]|[_ H]]]; [congruence|discriminate|exact H].
    + assert (E : get_loss self loss outputs labels indices num_masks = Err KeyError).
      { unfold get_loss. rewrite lookup_insert_ne by congruence.
        rewrite lookup_singleton_ne by congruence. reflexivity. }
      rewrite E. split; [intros _; left; split; assumption|reflexivity].
Qed.

Lemma get_loss_key_error_witness :
  get_loss CriterionExamples.criterion_one_class "labels"
           CriterionDictExamples.outputs_without_logits
           (labels_dict Examples.labels_one)
           CriterionExamples.indices_one 1
  = Err KeyError.
Proof.
  apply (get_loss_key_error CriterionExamples.criterion_one_class "labels"
           CriterionDictExamples.outputs_without_logits
           (labels_dict Examples.labels_one)
           CriterionExamples.indices_one 1).
  - discriminate.
  - right. left. split; [reflexivity|]. left. reflexivity.
Defined.

End CriterionDictFacts.
